(** * pvr.xtreamcodes: the ingestion core, embedded and verified

    Shallow embedding of the JSON scanning helpers of
    [src/xtream_client.cpp] and [src/dispatcharr_client.cpp] and of the
    XMLTV parser/matcher [xtream::ParseXMLTV], followed by the theorems
    about them that the specification calls for.

    Conventions.
    - A [std::string] / [std::string_view] that the code indexes is a
      [list ascii]; positions ([size_t]) are [nat], and [std::string::npos]
      is [None].
    - XML attribute values and map keys are [string].
    - [int], [long], [time_t] are [Z]; narrowing casts are written out with
      [wrap].
    - [std::unordered_map] and [std::map] are stdpp [gmap]s. *)

From Stdlib Require Import ZArith Ascii String Lia.
From stdpp Require Import gmap strings list fin_maps.

Local Open Scope Z_scope.

(** ** Pieces of the C and C++ standard libraries the code calls *)

Module CStd.

Definition code (c : ascii) : Z := Z.of_N (N_of_ascii c).

(** [static_cast<char>(z)] *)
Definition chr (z : Z) : ascii := ascii_of_N (Z.to_N (z mod 256)).

Definition dquote : ascii := Eval cbv in ascii_of_nat 34.
Definition backslash : ascii := Eval cbv in ascii_of_nat 92.

(** [std::isspace] in the C locale: space, \t, \n, \v, \f, \r. *)
Definition isspace (c : ascii) : bool :=
  (code c =? 32) || ((9 <=? code c) && (code c <=? 13)).

Definition isdigit (c : ascii) : bool :=
  (48 <=? code c) && (code c <=? 57).

(** [std::tolower] in the C locale. *)
Definition tolower (c : ascii) : ascii :=
  if (65 <=? code c) && (code c <=? 90) then chr (code c + 32) else c.

(** Two's complement narrowing to [bits] bits. *)
Definition wrap (bits : Z) (z : Z) : Z :=
  (z + 2 ^ (bits - 1)) mod 2 ^ bits - 2 ^ (bits - 1).

(** [s[i]]; the code guards every access with a bound check. *)
Definition char_at (s : list ascii) (i : nat) : ascii := nth i s zero.

(** [s.substr(start, len)] *)
Definition substr (s : list ascii) (start len : nat) : list ascii :=
  take len (drop start s).

Fixpoint is_prefix (p s : list ascii) : bool :=
  match p, s with
  | [], _ => true
  | a :: p', b :: s' => Ascii.eqb a b && is_prefix p' s'
  | _ :: _, [] => false
  end.

(** [find_sub needle cs i]: [cs] is the buffer from position [i] on;
    the first position at or after [i] where [needle] occurs. *)
Fixpoint find_sub (needle cs : list ascii) (i : nat) : option nat :=
  if is_prefix needle cs then Some i
  else match cs with
       | [] => None
       | _ :: cs' => find_sub needle cs' (S i)
       end.

(** [s.find(needle)] *)
Definition find (s needle : list ascii) : option nat := find_sub needle s 0%nat.

(** [s.find(c, pos)] *)
Definition find_char (s : list ascii) (c : ascii) (pos : nat) : option nat :=
  find_sub [c] (drop pos s) pos.

(** [while (pos < size && isspace(s[pos])) ++pos;] with [cs] the
    buffer from [pos] on. *)
Fixpoint skip_space (cs : list ascii) (pos : nat) : nat :=
  match cs with
  | c :: cs' => if isspace c then skip_space cs' (S pos) else pos
  | [] => pos
  end.

(** *** C strings: [strtol], [sscanf], [std::to_string], [mktime] *)

Fixpoint skip_space_str (s : string) : string :=
  match s with
  | String c r => if isspace c then skip_space_str r else s
  | EmptyString => s
  end.

(** An optional sign: whether there is one, whether it is a minus, and
    what follows it. *)
Definition read_sign (s : string) : bool * bool * string :=
  match s with
  | String c r =>
      if Ascii.eqb c "-" then (true, true, r)
      else if Ascii.eqb c "+" then (true, false, r)
      else (false, false, s)
  | EmptyString => (false, false, s)
  end.

(** At most [width] decimal digits: the value, whether any digit was
    read, and the rest of the input. *)
Fixpoint read_digits (width : nat) (s : string) (acc : Z) (anyd : bool)
  : Z * bool * string :=
  match width with
  | O => (acc, anyd, s)
  | S w =>
      match s with
      | String c r =>
          if isdigit c then read_digits w r (acc * 10 + (code c - 48)) true
          else (acc, anyd, s)
      | EmptyString => (acc, anyd, s)
      end
  end.

(** [long] is 64 bits wide (LP64). *)
Definition LONG_MAX : Z := 2 ^ 63 - 1.
Definition LONG_MIN : Z := - 2 ^ 63.

(** [strtol(s, &end, 10)]: the value and the text at [end].  White
    space and a sign are skipped, the value saturates at the bounds of
    [long], and with no digit at all [end] is [s] itself. *)
Definition strtol (s : string) : Z * string :=
  let '(_, neg, s1) := read_sign (skip_space_str s) in
  let '(v, anyd, rest) := read_digits (String.length s1) s1 0 false in
  if anyd then (Z.max LONG_MIN (Z.min LONG_MAX (if neg then - v else v)), rest)
  else (0, s).

(** One [%<width>d] conversion of [sscanf]: white space is skipped, a
    sign counts towards the width, and at least one digit is needed. *)
Definition scan_d (width : nat) (s : string) : option (Z * string) :=
  let '(signed, neg, s1) := read_sign (skip_space_str s) in
  let w := if signed then Nat.pred width else width in
  let '(v, anyd, rest) := read_digits w s1 0 false in
  if anyd then Some (if neg then - v else v, rest) else None.

(** [sscanf] with a format of [%d] conversions of the given widths:
    the values converted before the first failure (their number is the
    return value). *)
Fixpoint sscanf_d (widths : list nat) (s : string) : list Z :=
  match widths with
  | [] => []
  | w :: ws =>
      match scan_d w s with
      | Some (v, rest) => v :: sscanf_d ws rest
      | None => []
      end
  end.

Definition digit_char (d : Z) : ascii := chr (48 + d).

Fixpoint decimal (fuel : nat) (n : Z) : string :=
  match fuel with
  | O => EmptyString
  | S f =>
      if n <? 10 then String (digit_char n) EmptyString
      else decimal f (n / 10) +:+ String (digit_char (n mod 10)) EmptyString
  end.

(** [std::to_string(int)]: an [int] has at most ten digits. *)
Definition to_string (i : Z) : string :=
  if i <? 0 then String "-" (decimal 10 (- i)) else decimal 10 i.

Record tm : Type := {
  tm_sec : Z; tm_min : Z; tm_hour : Z; tm_mday : Z; tm_mon : Z; tm_year : Z;
  tm_isdst : Z
}.

(** Days from 1970-01-01 to the civil date [y]-[m]-[d], [m] in 1..12. *)
Definition days_from_civil (y m d : Z) : Z :=
  let y := if m <=? 2 then y - 1 else y in
  let era := y / 400 in
  let yoe := y - era * 400 in
  let mp := (m + 9) mod 12 in
  let doy := (153 * mp + 2) / 5 + d - 1 in
  let doe := yoe * 365 + yoe / 4 - yoe / 100 + doy in
  era * 146097 + doe - 719468.

(** [mktime] depends on the time zone of the process; the theorems
    take it as a parameter and the examples run this instance, [mktime]
    with the zone set to UTC. *)
Definition mktime_utc (t : tm) : Z :=
  let y := tm_year t + 1900 + tm_mon t / 12 in
  let m := tm_mon t mod 12 + 1 in
  days_from_civil y m (tm_mday t) * 86400
  + tm_hour t * 3600 + tm_min t * 60 + tm_sec t.

End CStd.

Import CStd.

(** ** The part of pugixml's node interface that [ParseXMLTV] uses *)

Module Pugi.

#[warnings="-register-all"]
Inductive xml_node : Type :=
| Element (name : string) (attributes : list (string * string)) (kids : list xml_node)
| PCData (value : string).

Definition kids_of (n : xml_node) : list xml_node :=
  match n with Element _ _ ks => ks | PCData _ => [] end.

Definition is_named (name : string) (n : xml_node) : bool :=
  match n with Element nm _ _ => String.eqb nm name | PCData _ => false end.

(** [n.children(name)]: the child elements of that name, in document order. *)
Definition children (n : xml_node) (name : string) : list xml_node :=
  List.filter (is_named name) (kids_of n).

(** [n.child(name)]: the first child element of that name, if any. *)
Definition child (n : xml_node) (name : string) : option xml_node :=
  head (children n name).

Fixpoint assoc (name : string) (l : list (string * string)) : string :=
  match l with
  | [] => EmptyString
  | (k, v) :: l' => if String.eqb k name then v else assoc name l'
  end.

(** [n.attribute(name).value()]: empty when there is no such attribute. *)
Definition attribute_value (n : xml_node) (name : string) : string :=
  match n with Element _ attrs _ => assoc name attrs | PCData _ => EmptyString end.

Fixpoint first_text (l : list xml_node) : string :=
  match l with
  | [] => EmptyString
  | PCData v :: _ => v
  | Element _ _ _ :: l' => first_text l'
  end.

(** [n.child_value()]: the first text child's value, else empty. *)
Definition child_value (n : xml_node) : string := first_text (kids_of n).

End Pugi.

Import Pugi.

(** ** [xtream_client.cpp] *)

Module Xtream.

(** *** [ForEachTopLevelObjectSpan]

    The callback [fn(start, end)] is a state transformer on whatever
    the caller's lambda captures. *)

Section ArrayScanner.
Context {A : Type}.
Variable fn : nat -> nat -> A -> A.

Record scan : Type := Scan {
  inString : bool;
  escape : bool;
  depth : Z;             (* int; moves by one per character *)
  objStart : option nat; (* size_t, None = npos *)
  any : bool;
  sink : A               (* effect of the callbacks so far *)
}.

(** One iteration of the [for] loop at index [i] on character [c]. *)
Definition scan_step (i : nat) (c : ascii) (st : scan) : scan :=
  if inString st then
    if escape st then
      Scan true false (depth st) (objStart st) (any st) (sink st)
    else if Ascii.eqb c backslash then
      Scan true true (depth st) (objStart st) (any st) (sink st)
    else if Ascii.eqb c dquote then
      Scan false (escape st) (depth st) (objStart st) (any st) (sink st)
    else st
  else if Ascii.eqb c dquote then
    Scan true (escape st) (depth st) (objStart st) (any st) (sink st)
  else if Ascii.eqb c "{" then
    Scan false (escape st) (depth st + 1)
         (if depth st =? 0 then Some i else objStart st) (any st) (sink st)
  else if Ascii.eqb c "}" then
    let d := depth st - 1 in
    match objStart st with
    | Some start =>
        if d =? 0 then
          Scan false (escape st) d None true (fn start (S i) (sink st))
        else Scan false (escape st) d (objStart st) (any st) (sink st)
    | None => Scan false (escape st) d None (any st) (sink st)
    end
  else st.

(** [for (; i < n; ++i)] over the buffer [cs] that starts at [i]. *)
Fixpoint scan_loop (cs : list ascii) (i : nat) (st : scan) : scan :=
  match cs with
  | [] => st
  | c :: cs' => scan_loop cs' (S i) (scan_step i c st)
  end.

Definition scan_init (a : A) : scan := Scan false false 0 None false a.

(** Returns the [bool] result and the effect of the callbacks. *)
Definition ForEachTopLevelObjectSpan (json : list ascii) (a : A) : bool * A :=
  let i := skip_space json 0%nat in
  if (i <? length json)%nat && Ascii.eqb (char_at json i) "[" then
    let st := scan_loop (drop i json) i (scan_init a) in
    (any st, sink st)
  else (false, a).
End ArrayScanner.

(** The callback that records the spans it is given, in order. *)
Definition collect (start stop : nat) (acc : list (nat * nat)) : list (nat * nat) :=
  acc ++ [(start, stop)].

Definition spans (json : list ascii) : bool * list (nat * nat) :=
  ForEachTopLevelObjectSpan collect json [].

(** *** [FindKeyPos], [ParseIntAt], [ExtractIntField] *)

Definition FindKeyPos (obj key : list ascii) : option nat :=
  find obj ([dquote] ++ key ++ [dquote]).

(** The digit loop of [ParseIntAt]; [v] is a [long long]. *)
Fixpoint digits_loop (cs : list ascii) (v : Z) (anyd : bool) : Z * bool :=
  match cs with
  | c :: cs' =>
      if isdigit c then digits_loop cs' (wrap 64 (v * 10 + (code c - 48))) true
      else (v, anyd)
  | [] => (v, anyd)
  end.

Definition signed_digits (cs : list ascii) : option Z :=
  let '(neg, cs1) :=
    match cs with
    | c :: cs' => if Ascii.eqb c "-" then (true, cs') else (false, cs)
    | [] => (false, cs)
    end in
  let '(v, anyd) := digits_loop cs1 0 false in
  if anyd then Some (wrap 32 (if neg then wrap 64 (- v) else v)) else None.

Definition ParseIntAt (obj : list ascii) (pos : nat) : option Z :=
  let pos := skip_space (drop pos obj) pos in
  if negb (pos <? length obj)%nat then None
  else if Ascii.eqb (char_at obj pos) dquote then signed_digits (drop (S pos) obj)
  else signed_digits (drop pos obj).

Definition ExtractIntField (obj key : list ascii) : option Z :=
  match FindKeyPos obj key with
  | None => None
  | Some pos =>
      match find_char obj ":" pos with
      | None => None
      | Some pos => ParseIntAt obj (S pos)
      end
  end.

(** *** [ExtractStringField] *)

(** The lambda [hexVal]: -1 for a character that is no hex digit. *)
Definition hexVal (ch : ascii) : Z :=
  if (code "0" <=? code ch) && (code ch <=? code "9") then code ch - code "0"
  else if (code "a" <=? code ch) && (code ch <=? code "f") then 10 + (code ch - code "a")
  else if (code "A" <=? code ch) && (code ch <=? code "F") then 10 + (code ch - code "A")
  else -1.

(** The lambda [appendUtf8]; [cp] is a [uint32_t]. *)
Definition appendUtf8 (dst : list ascii) (cp : Z) : list ascii :=
  if cp <=? 0x7F then dst ++ [chr cp]
  else if cp <=? 0x7FF then
    dst ++ [chr (Z.lor 0xC0 (Z.land (Z.shiftr cp 6) 0x1F));
            chr (Z.lor 0x80 (Z.land cp 0x3F))]
  else if cp <=? 0xFFFF then
    dst ++ [chr (Z.lor 0xE0 (Z.land (Z.shiftr cp 12) 0x0F));
            chr (Z.lor 0x80 (Z.land (Z.shiftr cp 6) 0x3F));
            chr (Z.lor 0x80 (Z.land cp 0x3F))]
  else
    dst ++ [chr (Z.lor 0xF0 (Z.land (Z.shiftr cp 18) 0x07));
            chr (Z.lor 0x80 (Z.land (Z.shiftr cp 12) 0x3F));
            chr (Z.lor 0x80 (Z.land (Z.shiftr cp 6) 0x3F));
            chr (Z.lor 0x80 (Z.land cp 0x3F))].

(** [(h1 << 12) | (h2 << 8) | (h3 << 4) | h4]; below 2^16 for hex
    digits, so the cast to [uint32_t] changes nothing. *)
Definition code_unit (h1 h2 h3 h4 : Z) : Z :=
  Z.lor (Z.lor (Z.lor (Z.shiftl h1 12) (Z.shiftl h2 8)) (Z.shiftl h3 4)) h4.

Definition all_hex (h1 h2 h3 h4 : Z) : bool :=
  (0 <=? h1) && (0 <=? h2) && (0 <=? h3) && (0 <=? h4).

(** The second half of a surrogate pair, tried when the first code unit
    [cu] is a high surrogate and [pos] is at its last hex digit.
    [Some (s', pos')] is the [break] out of the switch after a pair. *)
Definition low_surrogate (obj : list ascii) (pos : nat) (cu : Z) (s : list ascii)
  : option (list ascii * nat) :=
  if (0xD800 <=? cu) && (cu <=? 0xDBFF) then
    if (pos + 2 + 4 <? length obj)%nat
       && Ascii.eqb (char_at obj (pos + 1)) backslash
       && Ascii.eqb (char_at obj (pos + 2)) "u" then
      let l1 := hexVal (char_at obj (pos + 3)) in
      let l2 := hexVal (char_at obj (pos + 4)) in
      let l3 := hexVal (char_at obj (pos + 5)) in
      let l4 := hexVal (char_at obj (pos + 6)) in
      let lo := if all_hex l1 l2 l3 l4 then code_unit l1 l2 l3 l4 else 0 in
      if (0xDC00 <=? lo) && (lo <=? 0xDFFF) then
        let hi := cu - 0xD800 in
        let lo := lo - 0xDC00 in
        let cp := 0x10000 + Z.lor (Z.shiftl hi 10) lo in
        Some (appendUtf8 s cp, (pos + 6)%nat)
      else None
    else None
  else None.

(** [case 'u']: the string and the position after the switch. *)
Definition unicode_escape (obj : list ascii) (pos : nat) (s : list ascii)
  : list ascii * nat :=
  if (pos + 4 <? length obj)%nat then
    let h1 := hexVal (char_at obj (pos + 1)) in
    let h2 := hexVal (char_at obj (pos + 2)) in
    let h3 := hexVal (char_at obj (pos + 3)) in
    let h4 := hexVal (char_at obj (pos + 4)) in
    if all_hex h1 h2 h3 h4 then
      let cu := code_unit h1 h2 h3 h4 in
      let pos := (pos + 4)%nat in
      match low_surrogate obj pos cu s with
      | Some r => r
      | None =>
          if (0xD800 <=? cu) && (cu <=? 0xDFFF) then (appendUtf8 s 0xFFFD, pos)
          else (appendUtf8 s cu, pos)
      end
    else (s ++ ["u"%char], pos)
  else (s ++ ["u"%char], pos).

(** The [switch (c)] of the escape branch. *)
Definition escape_switch (obj : list ascii) (pos : nat) (c : ascii) (s : list ascii)
  : list ascii * nat :=
  if Ascii.eqb c dquote || Ascii.eqb c backslash || Ascii.eqb c "/" then (s ++ [c], pos)
  else if Ascii.eqb c "b" then (s ++ [chr 8], pos)
  else if Ascii.eqb c "f" then (s ++ [chr 12], pos)
  else if Ascii.eqb c "n" then (s ++ [chr 10], pos)
  else if Ascii.eqb c "r" then (s ++ [chr 13], pos)
  else if Ascii.eqb c "t" then (s ++ [chr 9], pos)
  else if Ascii.eqb c "u" then unicode_escape obj pos s
  else (s ++ [c], pos).

Inductive loop_result : Type :=
| Returned (out : list ascii)  (* [out = s; return true;] *)
| Exhausted                    (* the loop ran off the end: [return false] *)
| Starved.                     (* the fuel of the model ran out *)

(** [for (; pos < obj.size(); ++pos)]; every iteration advances [pos],
    so [length obj - pos + 1] units of fuel are enough. *)
Fixpoint string_loop (fuel : nat) (obj : list ascii) (pos : nat)
         (escape2 : bool) (s : list ascii) : loop_result :=
  match fuel with
  | O => Starved
  | S fuel' =>
      if negb (pos <? length obj)%nat then Exhausted
      else
        let c := char_at obj pos in
        if escape2 then
          let '(s', pos') := escape_switch obj pos c s in
          string_loop fuel' obj (S pos') false s'
        else if Ascii.eqb c backslash then string_loop fuel' obj (S pos) true s
        else if Ascii.eqb c dquote then Returned s
        else string_loop fuel' obj (S pos) false (s ++ [c])
  end.

Definition ExtractStringField (obj key : list ascii) : option (list ascii) :=
  match FindKeyPos obj key with
  | None => None
  | Some pos =>
      match find_char obj ":" pos with
      | None => None
      | Some pos =>
          let pos := S pos in
          let pos := skip_space (drop pos obj) pos in
          if negb (pos <? length obj)%nat || negb (Ascii.eqb (char_at obj pos) dquote)
          then None
          else
            match string_loop (S (length obj)) obj (S pos) false [] with
            | Returned out => Some out
            | _ => None
            end
      end
  end.

(** *** [FetchLiveCategories], from the transport's answer on *)

Record HttpResult : Type := { ok : bool; protocol : string; body : list ascii }.
Record LiveCategory : Type := { cat_id : Z; cat_name : list ascii }.
Record FetchResult : Type := { fetch_ok : bool; details : string }.

(** The lambda passed to the scanner; [c.name] stays empty when the
    field is absent. *)
Definition category_callback (http_body : list ascii) (start stop : nat)
           (out : list LiveCategory) : list LiveCategory :=
  let obj := substr http_body start (stop - start) in
  match ExtractIntField obj (list_ascii_of_string "category_id") with
  | None => out
  | Some i =>
      let name := default [] (ExtractStringField obj (list_ascii_of_string "category_name")) in
      out ++ [{| cat_id := i; cat_name := name |}]
  end.

(** [v.empty()] *)
Definition is_nil {A : Type} (v : list A) : bool :=
  match v with [] => true | _ :: _ => false end.

Section Transport.
(** [HttpGet] and the URL builders belong to the transport layer. *)
Variable HttpGet : string -> HttpResult.

Definition FetchLiveCategories (url : string) : FetchResult * list LiveCategory :=
  if String.eqb url "" then ({| fetch_ok := false; details := "Failed to build categories URL" |}, [])
  else
    let http := HttpGet url in
    if negb (ok http) then
      ({| fetch_ok := false;
          details := if String.eqb (protocol http) "" then "Failed to fetch categories"
                     else protocol http |}, [])
    else
      let '(found, out) := ForEachTopLevelObjectSpan (category_callback (body http)) (body http) [] in
      if negb found then
        ({| fetch_ok := false; details := "Categories response was not a JSON array" |}, out)
      else if is_nil out then
        ({| fetch_ok := false; details := "No categories parsed" |}, out)
      else
        ({| fetch_ok := true;
            details := if String.eqb (protocol http) "" then "OK" else protocol http |}, out).
End Transport.

(** *** [ParseXMLTV]

    [xtream_client.h] is not among the sources; the records follow the
    fields the code uses.  An [EpgEntry] starts with both times at 0,
    the value the validity check of [ParseXMLTV] tests for. *)

Module LiveStream.
Record t : Type := mk {
  id : Z; categoryId : Z; number : Z; name : string; icon : string
}.
End LiveStream.

Module EpgEntry.
Record t : Type := mk {
  channelId : string;
  startTime : Z;
  endTime : Z;
  title : string;
  description : string;
  episodeName : string;
  iconPath : string;
  genreString : string
}.
End EpgEntry.

Module ChannelEpg.
Record t : Type := mk {
  id : string;
  displayName : string;
  iconPath : string;
  entries : gmap Z EpgEntry.t   (* std::map<time_t, EpgEntry> *)
}.
End ChannelEpg.

Fixpoint ToLower (s : string) : string :=
  match s with
  | String c r => String (tolower c) (ToLower r)
  | EmptyString => EmptyString
  end.

Definition is_empty (s : string) : bool := String.eqb s EmptyString.

(** The two lookup maps built from the catalog. *)
Definition streamIdToName (streams : list LiveStream.t) : gmap Z string :=
  foldl (fun m stream =>
           if 0 <? LiveStream.id stream
           then <[LiveStream.id stream := LiveStream.name stream]> m else m)
        ∅ streams.

Definition streamNameToId (streams : list LiveStream.t) : gmap string Z :=
  foldl (fun m stream =>
           if 0 <? LiveStream.id stream
           then <[ToLower (LiveStream.name stream) := LiveStream.id stream]> m else m)
        ∅ streams.

(** Which branch of the matcher fired. *)
Inductive match_outcome : Type :=
| ExactId (streamId : Z)
| NameFallback (streamId : Z)
| Unmatched.

(** The numeric branch: [strtol], the test on [end] and the sign, the
    cast to [int] and the lookup among the stream ids. *)
Definition exact_id (idToName : gmap Z string) (xmltvId : string) : option Z :=
  let '(numericId, end_) := strtol xmltvId in
  if is_empty end_ && (0 <? numericId) then
    let streamId := wrap 32 numericId in
    if bool_decide (is_Some (idToName !! streamId)) then Some streamId else None
  else None.

Definition resolve (idToName : gmap Z string) (nameToId : gmap string Z)
           (xmltvId displayName : string) : match_outcome :=
  match exact_id idToName xmltvId with
  | Some streamId => ExactId streamId
  | None =>
      if negb (is_empty displayName) then
        match nameToId !! ToLower displayName with
        | Some streamId => NameFallback streamId
        | None => Unmatched
        end
      else Unmatched
  end.

(** [mappedId] *)
Definition join_key (idToName : gmap Z string) (nameToId : gmap string Z)
           (xmltvId displayName : string) : string :=
  match resolve idToName nameToId xmltvId displayName with
  | ExactId streamId | NameFallback streamId => to_string streamId
  | Unmatched => xmltvId
  end.

Definition channel_displayName (channelNode : xml_node) : string :=
  match child channelNode "display-name" with
  | Some n => child_value n
  | None => EmptyString
  end.

Definition icon_src (node : xml_node) : string :=
  match child node "icon" with
  | Some n => attribute_value n "src"
  | None => EmptyString
  end.

(** The widths of the format [%4d%2d%2d%2d%2d%2d]. *)
Definition time_format : list nat := [4; 2; 2; 2; 2; 2]%nat.

Section Parse.
(** libc's [mktime] is outside the repository. *)
Variable mktime : tm -> Z.

Variable idToName : gmap Z string.
Variable nameToId : gmap string Z.

(** The key under which a [<channel>] element is stored, if it is. *)
Definition channel_key (channelNode : xml_node) : option string :=
  let idAttr := attribute_value channelNode "id" in
  if is_empty idAttr then None
  else Some (join_key idToName nameToId idAttr (channel_displayName channelNode)).

(** Body of the first loop. *)
Definition channel_step (epgMap : gmap string ChannelEpg.t) (channelNode : xml_node)
  : gmap string ChannelEpg.t :=
  match channel_key channelNode with
  | None => epgMap
  | Some mappedId =>
      <[mappedId := ChannelEpg.mk mappedId (channel_displayName channelNode)
                                  (icon_src channelNode) ∅]> epgMap
  end.

(** A [start] or [stop] attribute to a time; 0 is unset. *)
Definition parse_time (attr : string) : Z :=
  if is_empty attr then 0
  else
    match sscanf_d time_format attr with
    | [year; mon; mday; hour; min; sec] =>
        mktime {| tm_sec := sec; tm_min := min; tm_hour := hour; tm_mday := mday;
                  tm_mon := mon - 1; tm_year := year - 1900; tm_isdst := -1 |}
    | _ => 0
    end.

Definition child_text (node : xml_node) (name : string) : string :=
  match child node name with
  | Some n => child_value n
  | None => EmptyString
  end.

(** Body of the second loop up to the insertion; [None] is [continue]. *)
Definition make_entry (epgMap : gmap string ChannelEpg.t) (programmeNode : xml_node)
  : option EpgEntry.t :=
  let channelId := attribute_value programmeNode "channel" in
  if is_empty channelId then None
  else
    match epgMap !! channelId with
    | None => None
    | Some _ =>
        let startTime := parse_time (attribute_value programmeNode "start") in
        let endTime := parse_time (attribute_value programmeNode "stop") in
        if (startTime =? 0) || (endTime =? 0) || (endTime <=? startTime) then None
        else Some (EpgEntry.mk channelId startTime endTime
                               (child_text programmeNode "title")
                               (child_text programmeNode "desc")
                               (child_text programmeNode "sub-title")
                               (icon_src programmeNode)
                               (child_text programmeNode "category"))
    end.

(** [epgIt->second.entries[entry.startTime] = entry] *)
Definition add_entry (entry : EpgEntry.t) (epg : ChannelEpg.t) : ChannelEpg.t :=
  ChannelEpg.mk (ChannelEpg.id epg) (ChannelEpg.displayName epg) (ChannelEpg.iconPath epg)
                (<[EpgEntry.startTime entry := entry]> (ChannelEpg.entries epg)).

Definition programme_step (epgMap : gmap string ChannelEpg.t) (programmeNode : xml_node)
  : gmap string ChannelEpg.t :=
  match make_entry epgMap programmeNode with
  | None => epgMap
  | Some entry => alter (add_entry entry) (EpgEntry.channelId entry) epgMap
  end.

Definition channel_pass (tvNode : xml_node) : gmap string ChannelEpg.t :=
  foldl channel_step ∅ (children tvNode "channel").

Definition programme_pass (tvNode : xml_node) (epgMap : gmap string ChannelEpg.t)
  : gmap string ChannelEpg.t :=
  foldl programme_step epgMap (children tvNode "programme").

(** [!kv.second.entries.empty()] *)
Definition has_entries (epg : ChannelEpg.t) : bool :=
  negb (Nat.eqb (size (ChannelEpg.entries epg)) 0).

(** The output vector; its order is the hash map's iteration order,
    which the code leaves unspecified. *)
Definition assemble (epgMap : gmap string ChannelEpg.t) : list ChannelEpg.t :=
  filter (fun epg => Is_true (has_entries epg)) (map_to_list epgMap).*2.
End Parse.

Section ParseXMLTV.
(** pugixml's [load_buffer_inplace]: the document node, or a parse failure. *)
Variable load_buffer : string -> option xml_node.
Variable mktime : tm -> Z.

Definition ParseXMLTV (xmltvData : string) (streams : list LiveStream.t)
  : bool * list ChannelEpg.t :=
  if is_empty xmltvData then (false, [])
  else
    match load_buffer xmltvData with
    | None => (false, [])
    | Some doc =>
        match child doc "tv" with
        | None => (false, [])
        | Some tvNode =>
            let idToName := streamIdToName streams in
            let nameToId := streamNameToId streams in
            let epgMap := channel_pass idToName nameToId tvNode in
            let epgMap := programme_pass mktime tvNode epgMap in
            let channelEpgs := assemble epgMap in
            (negb (is_nil channelEpgs), channelEpgs)
        end
    end.
End ParseXMLTV.

End Xtream.

(** ** JSON helpers of [dispatcharr_client.cpp] *)

Module Dispatcharr.

Definition FindKeyPos (obj key : list ascii) : option nat :=
  find obj ([dquote] ++ key ++ [dquote]).

(** *** [ExtractRawJsonField] *)

(** The [for] loop over the buffer [cs] that starts at [pos]: the
    position of the closing character at which [depth] returns to 0. *)
Fixpoint raw_loop (openChar closeChar : ascii) (cs : list ascii) (pos : nat) (depth : Z)
  : option nat :=
  match cs with
  | [] => None
  | c :: cs' =>
      if Ascii.eqb c openChar then raw_loop openChar closeChar cs' (S pos) (depth + 1)
      else if Ascii.eqb c closeChar then
        if depth - 1 =? 0 then Some pos
        else raw_loop openChar closeChar cs' (S pos) (depth - 1)
      else raw_loop openChar closeChar cs' (S pos) depth
  end.

Definition ExtractRawJsonField (obj key : list ascii) : option (list ascii) :=
  match FindKeyPos obj key with
  | None => None
  | Some pos =>
      match find_char obj ":" pos with
      | None => None
      | Some pos =>
          let pos := S pos in
          let pos := skip_space (drop pos obj) pos in
          if negb (pos <? length obj)%nat then None
          else
            let openChar := char_at obj pos in
            let closeChar := if Ascii.eqb openChar "[" then "]"%char else "}"%char in
            if negb (Ascii.eqb openChar "[") && negb (Ascii.eqb openChar "{") then None
            else
              let start := pos in
              match raw_loop openChar closeChar (drop pos obj) pos 0 with
              | Some pos => Some (substr obj start (pos - start + 1))
              | None => None
              end
      end
  end.

(** *** [ForEachObjectInArray] *)

Section ArrayScanner.
Context {A : Type}.
(** What the loop does with a finished object: [emit start len]. *)
Variable emit : nat -> nat -> A -> A.

Record scan : Type := Scan {
  depth : Z;
  objStart : option nat;
  inString : bool;
  escape : bool;
  sink : A
}.

(** One iteration at index [i] on character [c]; [None] is [break]. *)
Definition scan_step (i : nat) (c : ascii) (st : scan) : option scan :=
  if inString st then
    if escape st then Some (Scan (depth st) (objStart st) true false (sink st))
    else if Ascii.eqb c backslash then Some (Scan (depth st) (objStart st) true true (sink st))
    else if Ascii.eqb c dquote then Some (Scan (depth st) (objStart st) false (escape st) (sink st))
    else Some st
  else if Ascii.eqb c dquote then Some (Scan (depth st) (objStart st) true (escape st) (sink st))
  else if Ascii.eqb c "{" then
    Some (Scan (depth st + 1) (if depth st =? 0 then Some i else objStart st)
               false (escape st) (sink st))
  else if Ascii.eqb c "}" then
    let d := depth st - 1 in
    match objStart st with
    | Some start =>
        if d =? 0 then
          Some (Scan d None false (escape st) (emit start (i - start + 1) (sink st)))
        else Some (Scan d (objStart st) false (escape st) (sink st))
    | None => Some (Scan d None false (escape st) (sink st))
    end
  else if Ascii.eqb c "]" && (depth st =? 0) then None
  else Some st.

Fixpoint scan_loop (cs : list ascii) (i : nat) (st : scan) : scan :=
  match cs with
  | [] => st
  | c :: cs' =>
      match scan_step i c st with
      | Some st' => scan_loop cs' (S i) st'
      | None => st
      end
  end.

Definition scan_array (jsonArray : list ascii) (a : A) : bool * A :=
  let i := skip_space jsonArray 0%nat in
  if (i <? length jsonArray)%nat && Ascii.eqb (char_at jsonArray i) "[" then
    (true, sink (scan_loop (drop i jsonArray) i (Scan 0 None false false a)))
  else (false, a).
End ArrayScanner.

(** The callback receives [jsonArray.substr(objStart, i - objStart + 1)]. *)
Definition ForEachObjectInArray {A : Type} (fn : list ascii -> A -> A)
           (jsonArray : list ascii) (a : A) : bool * A :=
  scan_array (fun start len => fn (substr jsonArray start len)) jsonArray a.

(** The spans [(start, end)] of the objects handed to the callback. *)
Definition spans (jsonArray : list ascii) : bool * list (nat * nat) :=
  scan_array (fun start len acc => acc ++ [(start, (start + len)%nat)]) jsonArray [].

Definition objects (jsonArray : list ascii) : bool * list (list ascii) :=
  ForEachObjectInArray (fun obj acc => acc ++ [obj]) jsonArray [].

End Dispatcharr.

(** ** [xtream_client.cpp]: URLs, the transport's answer, settings *)

Module Net.

(** [while (!s.empty() && isSpace(s.front())) s.erase(s.begin());] *)
Fixpoint trim_front (s : list ascii) : list ascii :=
  match s with
  | c :: r => if isspace c then trim_front r else s
  | [] => []
  end.

(** [while (!s.empty() && isSpace(s.back())) s.pop_back();] *)
Definition trim_back (s : list ascii) : list ascii :=
  rev (trim_front (rev s)).

Definition Trim (s : list ascii) : list ascii := trim_back (trim_front s).

Definition in_range (lo hi c : ascii) : bool :=
  (code lo <=? code c) && (code c <=? code hi).

Definition IsUnreserved (c : ascii) : bool :=
  in_range "A" "Z" c || in_range "a" "z" c || in_range "0" "9" c
  || Ascii.eqb c "-" || Ascii.eqb c "_" || Ascii.eqb c "." || Ascii.eqb c "~".

(** [kHex[i]] for [i] in 0..15. *)
Definition kHex (i : Z) : ascii :=
  char_at (list_ascii_of_string "0123456789ABCDEF") (Z.to_nat i).

Definition encode_char (c : ascii) : list ascii :=
  if IsUnreserved c then [c]
  else ["%"%char; kHex (Z.land (Z.shiftr (code c) 4) 0xF); kHex (Z.land (code c) 0xF)].

Definition UrlEncode (s : list ascii) : list ascii :=
  concat (List.map encode_char s).

(** [while (!s.empty() && s.back() == '/') s.pop_back();] *)
Fixpoint strip_slashes_front (s : list ascii) : list ascii :=
  match s with
  | c :: r => if Ascii.eqb c "/" then strip_slashes_front r else s
  | [] => []
  end.

Definition NormalizeServer (raw : list ascii) : list ascii :=
  rev (strip_slashes_front (rev (Trim raw))).

(** The fields of [xtream::Settings] that the code reads. *)
Record Settings : Type := {
  server : list ascii;
  port : Z;
  username : list ascii;
  password : list ascii;
  timeoutSeconds : Z;
  enableUserAgentSpoofing : bool;
  customUserAgent : list ascii
}.

Definition chars (s : string) : list ascii := list_ascii_of_string s.

(** [out += ":" + std::to_string(port)] when the port is positive. *)
Definition with_port (out : list ascii) (p : Z) : list ascii :=
  if 0 <? p then out ++ chars ":" ++ chars (to_string p) else out.

Definition BuildBaseUrl (settings : Settings) : list ascii :=
  let server := NormalizeServer (server settings) in
  if Xtream.is_nil server then []
  else if is_prefix (chars "http://") server || is_prefix (chars "https://") server then
    let hostPart :=
      match find server (chars "://") with
      | None => server
      | Some schemePos => drop (schemePos + 3) server
      end in
    if bool_decide (is_Some (find_char hostPart ":" 0)) then server
    else with_port server (port settings)
  else with_port (chars "http://" ++ server) (port settings).

Definition BuildPlayerApiUrl (settings : Settings) : list ascii :=
  let base := BuildBaseUrl settings in
  if Xtream.is_nil base then []
  else base ++ chars "/player_api.php?username=" ++ UrlEncode (username settings)
            ++ chars "&password=" ++ UrlEncode (password settings).

Definition BuildPlayerApiUrlWithAction (settings : Settings) (action : list ascii)
  : list ascii :=
  let base := BuildPlayerApiUrl settings in
  if Xtream.is_nil base then []
  else base ++ chars "&action=" ++ UrlEncode action.

Definition kDefaultAddonUserAgent : list ascii := chars "XtreamCodesKodiAddon".

Definition EffectiveUserAgent (settings : Settings) : list ascii :=
  if negb (enableUserAgentSpoofing settings) then []
  else
    let ua := Trim (customUserAgent settings) in
    if Xtream.is_nil ua then kDefaultAddonUserAgent else ua.

(** [ToLower] on an indexed string. *)
Definition ToLower (s : list ascii) : list ascii := List.map tolower s.

Definition BuildLiveStreamUrl (settings : Settings) (streamId : Z)
           (streamFormat : list ascii) : list ascii :=
  let base := BuildBaseUrl settings in
  if Xtream.is_nil base || (streamId <=? 0) then []
  else
    let ext := if bool_decide (ToLower streamFormat = chars "hls")
               then chars ".m3u8" else chars ".ts" in
    base ++ chars "/live/" ++ UrlEncode (username settings) ++ chars "/"
         ++ UrlEncode (password settings) ++ chars "/"
         ++ chars (to_string streamId) ++ ext.

(** *** [ReadAll]

    The file is the sequence of buffers its [Read] calls fill, each of
    at most [sizeof(buf)] bytes; an empty buffer is a [Read] that
    returns 0 or less, as is the end of the sequence. *)
Definition buf_size : nat := (16 * 1024)%nat.

Fixpoint ReadAll_loop (reads : list (list ascii)) (maxBytes : nat) (out : list ascii)
  : bool * list ascii :=
  match reads with
  | [] => (true, out)
  | buf :: rest =>
      if Nat.eqb (length buf) 0 then (true, out)
      else
        let out := out ++ buf in
        if (maxBytes <? length out)%nat then (false, out)
        else ReadAll_loop rest maxBytes out
  end.

Definition ReadAll (reads : list (list ascii)) (maxBytes : nat) : bool * list ascii :=
  ReadAll_loop reads maxBytes [].

(** *** [IsHttpStatusOk] *)

Definition INT_MAX : Z := 2 ^ 31 - 1.
Definition INT_MIN : Z := - 2 ^ 31.

(** [std::stoi]: [strtol], then [std::invalid_argument] when nothing
    was converted ([end] is the start of the text) and
    [std::out_of_range] when the value is no [int]; [None] is either
    exception.  What follows the number is ignored. *)
Definition stoi (s : string) : option Z :=
  let '(v, rest) := strtol s in
  if Nat.eqb (String.length rest) (String.length s) then None
  else if (v <? INT_MIN) || (INT_MAX <? v) then None
  else Some v.

Definition IsHttpStatusOk (protocol : list ascii) : bool :=
  match find_char protocol " " 0 with
  | None => false
  | Some firstSpace =>
      match find_char protocol " " (firstSpace + 1) with
      | None => false
      | Some secondSpace =>
          if (secondSpace <=? firstSpace + 1)%nat then false
          else
            let codeStr := substr protocol (firstSpace + 1) (secondSpace - firstSpace - 1) in
            match stoi (string_of_list_ascii codeStr) with
            | Some code => (200 <=? code) && (code <? 300)
            | None => false
            end
      end
  end.

(** *** The settings file *)

Definition ExtractSettingValue (xml id : list ascii) : option (list ascii) :=
  let needle := chars "<setting id=" ++ [dquote] ++ id ++ [dquote] in
  match find xml needle with
  | None => None
  | Some pos =>
      match find_char xml ">" pos with
      | None => None
      | Some pos =>
          let pos := S pos in
          if (pos <? length xml)%nat
             && Ascii.eqb (char_at xml (pos - 1)) "/"
             && Ascii.eqb (char_at xml pos) ">"
          then Some []
          else
            match find_sub (chars "</setting>") (drop pos xml) pos with
            | None => None
            | Some end_ => Some (Trim (substr xml pos (end_ - pos)))
            end
      end
  end.

Definition ExtractSettingInt (xml id : list ascii) : option Z :=
  match ExtractSettingValue xml id with
  | None => None
  | Some s => if Xtream.is_nil s then None else stoi (string_of_list_ascii s)
  end.

Definition ExtractSettingBool (xml id : list ascii) : option bool :=
  match ExtractSettingValue xml id with
  | None => None
  | Some s =>
      if Xtream.is_nil s then None
      else
        let v := ToLower (Trim s) in
        if bool_decide (v = chars "true") || bool_decide (v = chars "1")
           || bool_decide (v = chars "yes") then Some true
        else if bool_decide (v = chars "false") || bool_decide (v = chars "0")
                || bool_decide (v = chars "no") then Some false
        else None
  end.

(** *** [RedactUrlCredentials] *)

(** The [while (true)] loop of [redactParam] on the buffer [out]; each
    round finds the needle at or after [pos], replaces the text up to
    the next ['&'] (or the end) by three stars and goes on behind
    them.  A round moves [pos] closer to the end of the buffer, so
    that the loop ends within [length out + 1] rounds
    ([redactParam_loop_stable]). *)
Fixpoint redactParam_loop (fuel : nat) (needle out : list ascii) (pos : nat)
  : list ascii :=
  match fuel with
  | O => out
  | S fuel =>
      match find_sub needle (drop pos out) pos with
      | None => out
      | Some pos =>
          let valueStart := (pos + length needle)%nat in
          let valueEnd := match find_char out "&" valueStart with
                          | Some e => e
                          | None => length out
                          end in
          let out := take valueStart out ++ chars "***" ++ drop valueEnd out in
          redactParam_loop fuel needle out (valueStart + 3)
      end
  end.

Definition redactParam (key out : list ascii) : list ascii :=
  redactParam_loop (S (length out)) (key ++ chars "=") out 0.

Definition RedactUrlCredentials (url : list ascii) : list ascii :=
  redactParam (chars "password") (redactParam (chars "username") url).

End Net.

(** ** [xtream_client.cpp]: the fetch operations *)

Module Fetch.

Import Net.

Record TestResult : Type := { test_ok : bool; test_details : string }.

Definition or_default (protocol fallback : string) : string :=
  if Xtream.is_empty protocol then fallback else protocol.

Definition contains (s needle : list ascii) : bool :=
  bool_decide (is_Some (find s needle)).

Section Transport.
(** [HttpGet(url, userAgent, timeoutSeconds)] *)
Variable HttpGet : list ascii -> list ascii -> Z -> Xtream.HttpResult.

(** A default-constructed [LiveStream]; [xtream_client.h] is not among
    the sources. *)
Variable blank : Xtream.LiveStream.t.

Definition MakeSimpleGetAndSniffJson (url userAgent : list ascii) (timeoutSeconds : Z)
  : TestResult :=
  let http := HttpGet url userAgent timeoutSeconds in
  if negb (Xtream.ok http) then
    {| test_ok := false;
       test_details := or_default (Xtream.protocol http) "Failed to open URL" |}
  else
    let protocol := chars (Xtream.protocol http) in
    let body := Xtream.body http in
    let bodyLower := ToLower body in
    let looksXtream :=
      contains bodyLower ([dquote] ++ chars "user_info" ++ [dquote])
      || contains bodyLower ([dquote] ++ chars "server_info" ++ [dquote])
      || contains bodyLower ([dquote] ++ chars "auth" ++ [dquote] ++ chars ":1") in
    let looksHttpOk := contains protocol (chars " 200 ") || contains protocol (chars " 201 ") in
    if looksXtream || looksHttpOk then
      {| test_ok := true; test_details := or_default (Xtream.protocol http) "OK" |}
    else
      {| test_ok := false;
         test_details :=
           if negb (Xtream.is_empty (Xtream.protocol http)) then Xtream.protocol http
           else if negb (Xtream.is_nil body) then "Unexpected response"
           else "Empty response" |}.

Definition TestConnection (settings : Settings) : TestResult :=
  if Xtream.is_nil (Trim (server settings)) then
    {| test_ok := false; test_details := "Server is empty" |}
  else if (port settings <=? 0) || (65535 <? port settings) then
    {| test_ok := false; test_details := "Port is invalid" |}
  else if Xtream.is_nil (Trim (username settings)) then
    {| test_ok := false; test_details := "Username is empty" |}
  else if Xtream.is_nil (Trim (password settings)) then
    {| test_ok := false; test_details := "Password is empty" |}
  else
    let url := BuildPlayerApiUrl settings in
    if Xtream.is_nil url then {| test_ok := false; test_details := "Failed to build API URL" |}
    else MakeSimpleGetAndSniffJson url (EffectiveUserAgent settings) (timeoutSeconds settings).

(** [FetchLiveCategories(settings, out)]: the URL is built here and
    handed to the part modelled in [Xtream]. *)
Definition FetchLiveCategories (settings : Settings)
  : Xtream.FetchResult * list Xtream.LiveCategory :=
  Xtream.FetchLiveCategories
    (fun url => HttpGet (chars url) (EffectiveUserAgent settings) (timeoutSeconds settings))
    (string_of_list_ascii (BuildPlayerApiUrlWithAction settings (chars "get_live_categories"))).

(** The lambda of [FetchLiveStreams]; a field that is absent keeps the
    default of the record. *)
Definition stream_callback (http_body : list ascii) (start stop : nat)
           (out : list Xtream.LiveStream.t) : list Xtream.LiveStream.t :=
  let obj := substr http_body start (stop - start) in
  match Xtream.ExtractIntField obj (chars "stream_id") with
  | None => out
  | Some i =>
      let int_or (key : string) (d : Z) := default d (Xtream.ExtractIntField obj (chars key)) in
      let str_or (key : string) (d : string) :=
        match Xtream.ExtractStringField obj (chars key) with
        | Some v => string_of_list_ascii v
        | None => d
        end in
      out ++ [Xtream.LiveStream.mk i
                (int_or "category_id" (Xtream.LiveStream.categoryId blank))
                (int_or "num" (Xtream.LiveStream.number blank))
                (str_or "name" (Xtream.LiveStream.name blank))
                (str_or "stream_icon" (Xtream.LiveStream.icon blank))]
  end.

Definition streams_url (settings : Settings) (categoryId : Z) : list ascii :=
  let url := BuildPlayerApiUrlWithAction settings (chars "get_live_streams") in
  if 0 <? categoryId then url ++ chars "&category_id=" ++ chars (to_string categoryId)
  else url.

Definition FetchLiveStreams (settings : Settings) (categoryId : Z)
  : Xtream.FetchResult * list Xtream.LiveStream.t :=
  if Xtream.is_nil (BuildPlayerApiUrlWithAction settings (chars "get_live_streams")) then
    ({| Xtream.fetch_ok := false; Xtream.details := "Failed to build streams URL" |}, [])
  else
    let http := HttpGet (streams_url settings categoryId) (EffectiveUserAgent settings)
                        (timeoutSeconds settings) in
    if negb (Xtream.ok http) then
      ({| Xtream.fetch_ok := false;
          Xtream.details := or_default (Xtream.protocol http) "Failed to fetch streams" |}, [])
    else
      let '(found, out) :=
        Xtream.ForEachTopLevelObjectSpan (stream_callback (Xtream.body http))
                                         (Xtream.body http) [] in
      if negb found then
        ({| Xtream.fetch_ok := false;
            Xtream.details := "Streams response was not a JSON array" |}, out)
      else if Xtream.is_nil out then
        ({| Xtream.fetch_ok := false; Xtream.details := "No streams parsed" |}, out)
      else
        ({| Xtream.fetch_ok := true;
            Xtream.details := or_default (Xtream.protocol http) "OK" |}, out).

(** The loop over the categories of [FetchAllLiveStreams]: the first
    failure, or all the streams. *)
Fixpoint per_category (settings : Settings) (cats : list Xtream.LiveCategory)
         (all : list Xtream.LiveStream.t)
  : Xtream.FetchResult + list Xtream.LiveStream.t :=
  match cats with
  | [] => inr all
  | c :: cats' =>
      let '(r, s) := FetchLiveStreams settings (Xtream.cat_id c) in
      if negb (Xtream.fetch_ok r) then inl r
      else per_category settings cats' (all ++ s)
  end.

(** The result with the two output vectors [categories] and [streams]. *)
Definition FetchAllLiveStreams (settings : Settings)
  : Xtream.FetchResult * list Xtream.LiveCategory * list Xtream.LiveStream.t :=
  let '(catsRes, cats) := FetchLiveCategories settings in
  if negb (Xtream.fetch_ok catsRes) then (catsRes, [], [])
  else
    let '(allRes, streamsAll) := FetchLiveStreams settings 0 in
    if Xtream.fetch_ok allRes then
      ({| Xtream.fetch_ok := true; Xtream.details := Xtream.details allRes |},
       cats, streamsAll)
    else
      match per_category settings cats [] with
      | inl r => (r, [], [])
      | inr all =>
          ({| Xtream.fetch_ok := true; Xtream.details := Xtream.details catsRes |},
           cats, all)
      end.
End Transport.

End Fetch.

(** ** [dispatcharr_client.cpp]: string fields and their writer *)

Module DispatcharrFields.

(** What the escape branch of [ExtractStringField] appends for [c]. *)
Definition unescape (c : ascii) : ascii :=
  if Ascii.eqb c dquote then dquote
  else if Ascii.eqb c backslash then backslash
  else if Ascii.eqb c "n" then chr 10
  else if Ascii.eqb c "r" then chr 13
  else if Ascii.eqb c "t" then chr 9
  else c.

(** The [for] loop over the buffer from [pos] on; every iteration
    advances [pos] by one. *)
Fixpoint string_loop (cs : list ascii) (escape2 : bool) (s : list ascii)
  : option (list ascii) :=
  match cs with
  | [] => None
  | c :: cs' =>
      if escape2 then string_loop cs' false (s ++ [unescape c])
      else if Ascii.eqb c backslash then string_loop cs' true s
      else if Ascii.eqb c dquote then Some s
      else string_loop cs' false (s ++ [c])
  end.

Definition ExtractStringField (obj key : list ascii) : option (list ascii) :=
  match Dispatcharr.FindKeyPos obj key with
  | None => None
  | Some pos =>
      match find_char obj ":" pos with
      | None => None
      | Some pos =>
          let pos := S pos in
          let pos := skip_space (drop pos obj) pos in
          if negb (pos <? length obj)%nat || negb (Ascii.eqb (char_at obj pos) dquote)
          then None
          else string_loop (drop (S pos) obj) false []
      end
  end.

Definition escape_char (c : ascii) : list ascii :=
  if Ascii.eqb c dquote then [backslash; dquote]
  else if Ascii.eqb c backslash then [backslash; backslash]
  else if Ascii.eqb c (chr 8) then [backslash; "b"%char]
  else if Ascii.eqb c (chr 12) then [backslash; "f"%char]
  else if Ascii.eqb c (chr 10) then [backslash; "n"%char]
  else if Ascii.eqb c (chr 13) then [backslash; "r"%char]
  else if Ascii.eqb c (chr 9) then [backslash; "t"%char]
  else [c].

Definition JsonEscape (input : list ascii) : list ascii :=
  concat (List.map escape_char input).

End DispatcharrFields.

(** ** Recurring rules of [dispatcharr_client.cpp] *)

Module DispatcharrRules.

Import DispatcharrFields.

Record RecurringRule : Type := {
  id : Z;
  channelId : Z;
  daysOfWeek : list Z;
  startTime : list ascii;
  endTime : list ascii;
  startDate : list ascii;
  endDate : list ascii;
  name : list ascii;
  enabled : bool
}.

Definition quoted (s : list ascii) : list ascii := [dquote] ++ s ++ [dquote].

(** The loop of [AddRecurringRule] that writes the days, a comma after
    each one but the last. *)
Fixpoint write_days (days : list Z) : list ascii :=
  match days with
  | [] => []
  | d :: rest =>
      Net.chars (to_string d)
      ++ match rest with [] => [] | _ :: _ => Net.chars "," end
      ++ write_days rest
  end.

(** The request body that [AddRecurringRule] posts: an opening brace
    and the members. *)
Definition AddRecurringRule_members (rule : RecurringRule) : list ascii :=
  quoted (Net.chars "channel") ++ Net.chars ":"
  ++ Net.chars (to_string (channelId rule))
  ++ Net.chars "," ++ quoted (Net.chars "name") ++ Net.chars ":"
  ++ quoted (JsonEscape (name rule))
  ++ Net.chars "," ++ quoted (Net.chars "start_time") ++ Net.chars ":"
  ++ quoted (startTime rule)
  ++ Net.chars "," ++ quoted (Net.chars "end_time") ++ Net.chars ":"
  ++ quoted (endTime rule)
  ++ Net.chars "," ++ quoted (Net.chars "start_date") ++ Net.chars ":"
  ++ quoted (startDate rule)
  ++ Net.chars "," ++ quoted (Net.chars "end_date") ++ Net.chars ":"
  ++ quoted (endDate rule)
  ++ Net.chars "," ++ quoted (Net.chars "enabled") ++ Net.chars ":true"
  ++ Net.chars "," ++ quoted (Net.chars "days_of_week") ++ Net.chars ":["
  ++ write_days (daysOfWeek rule)
  ++ Net.chars "]}".

Definition AddRecurringRule_body (rule : RecurringRule) : list ascii :=
  Net.chars "{" ++ AddRecurringRule_members rule.

(** [FindKeyPos], [ParseIntAt] and [ExtractIntField] of this file are
    those of [xtream_client.cpp], character for character. *)
Definition ExtractIntField (obj key : list ascii) : option Z :=
  Xtream.ExtractIntField obj key.

(** The [while] loop over [arrRaw] in the callback of
    [FetchRecurringRules]: every digit character is one day. *)
Fixpoint day_digits (arrRaw : list ascii) : list Z :=
  match arrRaw with
  | [] => []
  | c :: rest => if isdigit c then (code c - 48) :: day_digits rest else day_digits rest
  end.

(** The statements of the callback that fill [r.daysOfWeek]. *)
Definition days_of_week (obj : list ascii) : list Z :=
  match Dispatcharr.FindKeyPos obj (Net.chars "days_of_week") with
  | None => []
  | Some daysPos =>
      match find_char obj "[" daysPos with
      | None => []
      | Some arrStart =>
          match find_char obj "]" arrStart with
          | None => []
          | Some arrEnd =>
              day_digits (substr obj (arrStart + 1) (arrEnd - arrStart - 1))
          end
      end
  end.

(** The callback of [FetchRecurringRules] on the object [obj]: an
    object without an [id] is passed over, for another one the rule
    pushed holds these days. *)
Definition FetchRecurringRules_days (obj : list ascii) : option (list Z) :=
  match ExtractIntField obj (Net.chars "id") with
  | None => None
  | Some _ => Some (days_of_week obj)
  end.

End DispatcharrRules.

(** ** Times of [dispatcharr_client.cpp] *)

Module DispatcharrTime.

(** A directive of a [sscanf] format: [%d], or a character that the
    input has to show. *)
Inductive directive : Type :=
| Conv
| Lit (c : ascii).

(** [%d-%d-%dT%d:%d:%d] *)
Definition iso_format : list directive :=
  [Conv; Lit "-"; Conv; Lit "-"; Conv; Lit "T"; Conv; Lit ":"; Conv; Lit ":"; Conv].

(** [sscanf] with such a format: the values converted before the
    first failure.  A [%d] without a width takes all the digits there
    are; a value that does not fit an [int] is outside this model. *)
Fixpoint sscanf_fmt (fmt : list directive) (s : string) : list Z :=
  match fmt with
  | [] => []
  | Conv :: fmt' =>
      match scan_d (String.length s) s with
      | Some (v, rest) => v :: sscanf_fmt fmt' rest
      | None => []
      end
  | Lit c :: fmt' =>
      match s with
      | String a r => if Ascii.eqb a c then sscanf_fmt fmt' r else []
      | EmptyString => []
      end
  end.

Section ParseIsoTime.
(** libc's [mktime] is outside the repository. *)
Variable mktime : tm -> Z.

(** [struct tm tm = {}] keeps the fields that [sscanf] did not reach
    at 0; the number of conversions is not looked at. *)
Definition ParseIsoTime (iso : string) : Z :=
  if Xtream.is_empty iso then 0
  else if (19 <=? String.length iso)%nat then
    let vals := sscanf_fmt iso_format iso in
    let get i := nth i vals 0 in
    mktime {| tm_sec := get 5%nat; tm_min := get 4%nat; tm_hour := get 3%nat;
              tm_mday := get 2%nat; tm_mon := get 1%nat - 1;
              tm_year := get 0%nat - 1900; tm_isdst := 0 |}
  else 0.
End ParseIsoTime.

End DispatcharrTime.

(** ** Recordings of [dispatcharr_client.cpp] *)

Module DispatcharrRecordings.

Import DispatcharrFields.
Import DispatcharrRules.

(** A field of [strftime] written with two digits. *)
Definition pad2 (v : Z) : list ascii :=
  if v <? 10 then "0"%char :: Net.chars (to_string v) else Net.chars (to_string v).

Section TimeToIso.
(** libc's [gmtime] is outside the repository. *)
Variable gmtime : Z -> tm.

(** [strftime] with the format [%Y-%m-%dT%H:%M:%SZ] on the fields that
    [gmtime] gives. *)
Definition TimeToIso (t : Z) : list ascii :=
  let tm := gmtime t in
  Net.chars (to_string (tm_year tm + 1900))
  ++ Net.chars "-" ++ pad2 (tm_mon tm + 1)
  ++ Net.chars "-" ++ pad2 (tm_mday tm)
  ++ Net.chars "T" ++ pad2 (tm_hour tm)
  ++ Net.chars ":" ++ pad2 (tm_min tm)
  ++ Net.chars ":" ++ pad2 (tm_sec tm)
  ++ Net.chars "Z".

(** The request body that [ScheduleRecording] posts: an opening brace
    and the members. *)
Definition ScheduleRecording_members (channelId startTime endTime : Z) (title : list ascii)
  : list ascii :=
  quoted (Net.chars "channel") ++ Net.chars ":"
  ++ Net.chars (to_string channelId)
  ++ Net.chars "," ++ quoted (Net.chars "start_time") ++ Net.chars ":"
  ++ quoted (TimeToIso startTime)
  ++ Net.chars "," ++ quoted (Net.chars "end_time") ++ Net.chars ":"
  ++ quoted (TimeToIso endTime)
  ++ Net.chars "," ++ quoted (Net.chars "custom_properties") ++ Net.chars ":{"
  ++ quoted (Net.chars "program") ++ Net.chars ":{"
  ++ quoted (Net.chars "title") ++ Net.chars ":" ++ quoted (JsonEscape title)
  ++ Net.chars "}} }".

Definition ScheduleRecording_body (channelId startTime endTime : Z) (title : list ascii)
  : list ascii :=
  Net.chars "{" ++ ScheduleRecording_members channelId startTime endTime title.
End TimeToIso.

(** The statements of the callback of [FetchRecordings] that fill
    [r.title]; a field that is not found leaves it empty. *)
Definition recording_title (obj : list ascii) : list ascii :=
  match Dispatcharr.ExtractRawJsonField obj (Net.chars "custom_properties") with
  | None => []
  | Some customProps =>
      match Dispatcharr.ExtractRawJsonField customProps (Net.chars "program") with
      | None => []
      | Some programObj =>
          match ExtractStringField programObj (Net.chars "title") with
          | Some title => title
          | None => []
          end
      end
  end.

(** The callback of [FetchRecordings] on the object [obj]: an object
    without an [id] is passed over, for another one the recording
    pushed has this title. *)
Definition FetchRecordings_title (obj : list ascii) : option (list ascii) :=
  match ExtractIntField obj (Net.chars "id") with
  | None => None
  | Some _ => Some (recording_title obj)
  end.

End DispatcharrRecordings.

(** ** Writing test inputs *)

(** JSON text with ['] standing for the double quote. *)
Definition json (s : string) : list ascii :=
  List.map (fun c => if Ascii.eqb c "'" then dquote else c) (list_ascii_of_string s).

Definition bytes (l : list Z) : list ascii := List.map chr l.

(** A string literal's body, item by item: a plain character or an
    escaped one. *)
Inductive str_item : Type :=
| SChar (c : ascii)
| SEsc (c : ascii).

Definition render_item (it : str_item) : list ascii :=
  match it with
  | SChar c => [c]
  | SEsc c => [backslash; c]
  end.

Definition render (items : list str_item) : list ascii :=
  concat (List.map render_item items).

(** A plain character is neither the quote nor the backslash. *)
Definition item_ok (it : str_item) : Prop :=
  match it with
  | SChar c => c <> dquote /\ c <> backslash
  | SEsc _ => True
  end.

(** XMLTV documents: the document node holds the root [<tv>]. *)
Definition xml_text (name text : string) : xml_node :=
  Element name [] [PCData text].

Definition xml_channel (id displayName : string) : xml_node :=
  Element "channel" [("id", id)] [xml_text "display-name" displayName].

Definition xml_channel_icon (id displayName src : string) : xml_node :=
  Element "channel" [("id", id)]
          [xml_text "display-name" displayName; Element "icon" [("src", src)] []].

Definition xml_programme (channel start stop title : string) : xml_node :=
  Element "programme" [("start", start); ("stop", stop); ("channel", channel)]
          [xml_text "title" title].

Definition xml_doc (kids : list xml_node) : xml_node :=
  Element "" [] [Element "tv" [] kids].

(** What a [ChannelEpg] holds, with its schedule as a list. *)
Definition summary (epg : Xtream.ChannelEpg.t)
  : string * string * string * list (Z * Xtream.EpgEntry.t) :=
  (Xtream.ChannelEpg.id epg, Xtream.ChannelEpg.displayName epg,
   Xtream.ChannelEpg.iconPath epg, map_to_list (Xtream.ChannelEpg.entries epg)).

(** [ParseXMLTV] on an already parsed document, with the zone at UTC. *)
Definition parse_doc (doc : xml_node) (streams : list Xtream.LiveStream.t)
  : bool * list (string * string * string * list (Z * Xtream.EpgEntry.t)) :=
  let r := Xtream.ParseXMLTV (fun _ => Some doc) mktime_utc "<tv>" streams in
  (fst r, List.map summary (snd r)).

(** A catalog and documents for the examples. *)
Definition stream (id : Z) (name : string) : Xtream.LiveStream.t :=
  Xtream.LiveStream.mk id 0 0 name "".

Definition noon : string := "20260121120000 +0000".
Definition one_pm : string := "20260121130000 +0000".
Definition two_pm : string := "20260121140000 +0000".

Definition entry (channel : string) (start stop : Z) (title : string) : Xtream.EpgEntry.t :=
  Xtream.EpgEntry.mk channel start stop title "" "" "" "".

(** Settings and a transport for the examples: the categories request
    is answered with one category, every other request with an empty
    array. *)
Definition test_settings : Net.Settings :=
  {| Net.server := Net.chars "host"; Net.port := 80;
     Net.username := Net.chars "u"; Net.password := Net.chars "p";
     Net.timeoutSeconds := 30; Net.enableUserAgentSpoofing := false;
     Net.customUserAgent := [] |}.

Definition test_transport (url userAgent : list ascii) (timeoutSeconds : Z)
  : Xtream.HttpResult :=
  {| Xtream.ok := true; Xtream.protocol := "HTTP/1.1 200 OK";
     Xtream.body :=
       if bool_decide
            (url = Net.chars "http://host:80/player_api.php?username=u&password=p&action=get_live_categories")
       then json "[{'category_id':1,'category_name':'A'}]"
       else json "[]" |}.

(** ** Predicates of the statements *)

(** Every record of the channel map sits under its own [id]. *)
Definition keyed (m : gmap string Xtream.ChannelEpg.t) : Prop :=
  forall k v, m !! k = Some v -> Xtream.ChannelEpg.id v = k.

(** Two channel maps with the same keys. *)
Definition same_keys (m m' : gmap string Xtream.ChannelEpg.t) : Prop :=
  forall k, is_Some (m !! k) <-> is_Some (m' !! k).

(** What the validity check of the programme pass lets through. *)
Definition entry_ok (k : string) (t : Z) (e : Xtream.EpgEntry.t) : Prop :=
  Xtream.EpgEntry.channelId e = k
  /\ Xtream.EpgEntry.startTime e = t
  /\ t <> 0
  /\ Xtream.EpgEntry.endTime e <> 0
  /\ t < Xtream.EpgEntry.endTime e.

Definition entries_ok (m : gmap string Xtream.ChannelEpg.t) : Prop :=
  forall k v t e,
    m !! k = Some v -> Xtream.ChannelEpg.entries v !! t = Some e -> entry_ok k t e.

(** The decimal value of a run of digit characters. *)
Definition digits_value (ds : list ascii) : Z :=
  fold_left (fun acc c => acc * 10 + (code c - 48)) ds 0.

Definition all_digits (ds : list ascii) : Prop :=
  Forall (fun c => isdigit c = true) ds.



(** A text that is no array: empty, or beginning with a character that
    is neither white space nor an opening bracket. *)
Definition not_an_array (text : list ascii) : Prop :=
  match text with
  | c :: _ => isspace c = false /\ c <> "["%char
  | [] => True
  end.

(** A text at which a run of digits ends: empty, or beginning with a
    character that is no digit. *)
Definition stops_number (rest : list ascii) : Prop :=
  match rest with
  | c :: _ => isdigit c = false
  | [] => True
  end.

(** What a JSON escape other than a unicode escape stands for. *)
Definition simple_escape (c : ascii) : ascii :=
  if Ascii.eqb c "b" then chr 8
  else if Ascii.eqb c "f" then chr 12
  else if Ascii.eqb c "n" then chr 10
  else if Ascii.eqb c "r" then chr 13
  else if Ascii.eqb c "t" then chr 9
  else c.

(** The text a string body stands for, its escapes being simple ones. *)
Definition decode_items (items : list str_item) : list ascii :=
  List.map (fun it => match it with SChar c => c | SEsc c => simple_escape c end) items.

(** Where a run of digits ends: at the end of the text or before a
    character that is no digit. *)
Definition stops_digits (rest : string) : Prop :=
  match rest with
  | String c _ => isdigit c = false
  | EmptyString => True
  end.

(** A field of a time stamp: one to nine digits. *)
Definition time_field (ds : list ascii) : Prop :=
  all_digits ds /\ ds <> [] /\ (length ds <= 9)%nat.

(** * Theorems *)

(** ** The array scanners *)

Section XtreamScanner.
Context {A : Type} (fn : nat -> nat -> A -> A).


(** Inside a string no character moves the depth, the pending start or
    the callbacks' effect. *)
Lemma xscan_step_in_string (i : nat) (c : ascii) (st : Xtream.scan) :
  Xtream.inString st = true ->
  let st' := Xtream.scan_step fn i c st in
  Xtream.depth st' = Xtream.depth st
  /\ Xtream.objStart st' = Xtream.objStart st
  /\ Xtream.any st' = Xtream.any st
  /\ Xtream.sink st' = Xtream.sink st.
Proof.
  intros Hin. unfold Xtream.scan_step. rewrite Hin.
  destruct (Xtream.escape st); [done|].
  destruct (Ascii.eqb c backslash); [done|].
  by destruct (Ascii.eqb c dquote).
Qed.


End XtreamScanner.



(** The object of the specification's example, with the body a{b}c. *)
Example spans_brace_example :
  Xtream.spans (json "[{'name':'a{b}c'}]") = (true, [(1%nat, 17%nat)]).
Proof. reflexivity. Qed.

Section DispatcharrScanner.
Context {A : Type} (emit : nat -> nat -> A -> A).

(** Once the scan of [pre] is outside strings and objects, a [']']
    ends it: nothing that follows is looked at. *)
Lemma dscan_stops_at_close (pre post : list ascii) (i : nat) (st : Dispatcharr.scan) :
  let st' := Dispatcharr.scan_loop emit pre i st in
  Dispatcharr.inString st' = false ->
  Dispatcharr.depth st' = 0 ->
  Dispatcharr.scan_loop emit (pre ++ "]"%char :: post) i st = st'.
Proof.
  revert i st. induction pre as [|c pre IH]; intros i st; simpl.
  - intros Hs Hd. unfold Dispatcharr.scan_step. rewrite Hs, Hd. reflexivity.
  - destruct (Dispatcharr.scan_step emit i c st) as [st1|]; [apply IH | done].
Qed.
End DispatcharrScanner.

Lemma skip_space_app (ws rest : list ascii) (i : nat) :
  Forall (fun c => isspace c = true) ws ->
  skip_space (ws ++ rest) i = skip_space rest (i + length ws).
Proof.
  intros H. revert i. induction H as [|c ws Hc _ IH]; intros i; simpl.
  - by rewrite Nat.add_0_r.
  - rewrite Hc, IH. f_equal. lia.
Qed.

Lemma char_at_app_r (a b : list ascii) (k : nat) :
  char_at (a ++ b) (length a + k) = char_at b k.
Proof.
  unfold char_at. rewrite app_nth2 by lia. f_equal. lia.
Qed.

(** C5.  On the input [{'a':1}]{'b':2} (with ['] for the double
    quote, as in [json]), whose top-level array closes
    at index 8, [ForEachTopLevelObjectSpan] goes on past the [']'] and
    reports the span [9,16) of the object that follows the array, where
    [ForEachObjectInArray] stops and reports the array's one object. *)
Theorem C5_xtream_scans_past_closing_bracket :
  let input := json "[{'a':1}]{'b':2}" in
  char_at input 8 = "]"%char
  /\ Xtream.spans input = (true, [(1%nat, 8%nat); (9%nat, 16%nat)])
  /\ Dispatcharr.spans input = (true, [(1%nat, 8%nat)]).
Proof. repeat split. Qed.

(** C4.  [ExtractRawJsonField] counts every brace, also one inside a
    string literal: for the key [custom_properties] of
    {'custom_properties':{'a':'}'}} (with ['] for the double quote) it
    returns the seven characters {'a':'} and not the balanced value
    {'a':'}'}, although the array scanner of the same file hands on the
    enclosing object whole. *)
Theorem C4_raw_span_cut_by_brace_in_string :
  Dispatcharr.ExtractRawJsonField (json "{'custom_properties':{'a':'}'}}")
                                  (json "custom_properties")
  = Some (json "{'a':'}")
  /\ snd (Dispatcharr.objects (json "[{'custom_properties':{'a':'}'}}]"))
     = [json "{'custom_properties':{'a':'}'}}"].
Proof. split; reflexivity. Qed.

(** ** The empty array *)

(** C2.  [ForEachTopLevelObjectSpan] answers a well-formed empty
    array [[]], after any leading white space, with no callback and
    the result false, which is its answer to input that is no array:
    the flag [any] that it returns is set only when an object is handed
    on.  [FetchLiveCategories] therefore reports the empty array with
    the failure that the response was not a JSON array, as it does for
    input that is no array, and its branch for an array without
    categories is not reached.  [ForEachObjectInArray] of
    [dispatcharr_client.cpp] tells the two apart: true with no object
    for the empty array, false for input that is no array. *)
Theorem C2_empty_array_taken_for_malformed
        (ws bad : list ascii) (HttpGet HttpGet' : string -> Xtream.HttpResult)
        (url proto : string) :
  Forall (fun c => isspace c = true) ws ->
  not_an_array bad ->
  url <> EmptyString ->
  HttpGet url = {| Xtream.ok := true; Xtream.protocol := proto;
                   Xtream.body := ws ++ json "[]" |} ->
  HttpGet' url = {| Xtream.ok := true; Xtream.protocol := proto;
                    Xtream.body := ws ++ bad |} ->
  Xtream.spans (ws ++ json "[]") = (false, [])
  /\ Xtream.spans (ws ++ bad) = (false, [])
  /\ Xtream.FetchLiveCategories HttpGet url
     = ({| Xtream.fetch_ok := false;
           Xtream.details := "Categories response was not a JSON array" |}, [])
  /\ Xtream.FetchLiveCategories HttpGet' url
     = ({| Xtream.fetch_ok := false;
           Xtream.details := "Categories response was not a JSON array" |}, [])
  /\ Dispatcharr.spans (ws ++ json "[]") = (true, [])
  /\ Dispatcharr.spans (ws ++ bad) = (false, []).
Proof.
  intros Hws Hbad Hurl Hget Hget'.
  assert (Hskip : skip_space (ws ++ json "[]") 0 = length ws)
    by (rewrite skip_space_app by done; reflexivity).
  assert (Hlt : (length ws <? length (ws ++ json "[]"))%nat = true)
    by (apply Nat.ltb_lt; rewrite length_app; simpl; lia).
  assert (Hch : char_at (ws ++ json "[]") (length ws) = "["%char)
    by (generalize (char_at_app_r ws (json "[]") 0); by rewrite Nat.add_0_r).
  assert (Hscan : forall (A : Type) (fn : nat -> nat -> A -> A) (a : A),
             Xtream.ForEachTopLevelObjectSpan fn (ws ++ json "[]") a = (false, a)).
  { intros A fn a. unfold Xtream.ForEachTopLevelObjectSpan.
    rewrite Hskip, Hlt, Hch, drop_app_length. reflexivity. }
  assert (Hskip' : skip_space (ws ++ bad) 0 = length ws).
  { rewrite skip_space_app by done. destruct bad as [|c r]; [done|].
    destruct Hbad as [Hsp _]. simpl. by rewrite Hsp. }
  assert (Hno : (length ws <? length (ws ++ bad))%nat
                && Ascii.eqb (char_at (ws ++ bad) (length ws)) "[" = false).
  { destruct bad as [|c r].
    - rewrite app_nil_r, Nat.ltb_irrefl. reflexivity.
    - destruct Hbad as [_ Hc].
      generalize (char_at_app_r ws (c :: r) 0). rewrite Nat.add_0_r. intros ->.
      apply andb_false_iff. right. by apply Ascii.eqb_neq. }
  assert (Hscan' : forall (A : Type) (fn : nat -> nat -> A -> A) (a : A),
             Xtream.ForEachTopLevelObjectSpan fn (ws ++ bad) a = (false, a)).
  { intros A fn a. unfold Xtream.ForEachTopLevelObjectSpan.
    by rewrite Hskip', Hno. }
  apply String.eqb_neq in Hurl.
  repeat split.
  - apply Hscan.
  - apply Hscan'.
  - unfold Xtream.FetchLiveCategories. rewrite Hurl, Hget. simpl. by rewrite Hscan.
  - unfold Xtream.FetchLiveCategories. rewrite Hurl, Hget'. simpl. by rewrite Hscan'.
  - unfold Dispatcharr.spans, Dispatcharr.scan_array.
    rewrite Hskip, Hlt, Hch, drop_app_length. reflexivity.
  - unfold Dispatcharr.spans, Dispatcharr.scan_array. by rewrite Hskip', Hno.
Qed.

Lemma C2_empty_array_taken_for_malformed_witness :
  let ws := [" "; chr 10]%char in
  let bad := json "{'error':'no such user'}" in
  let failure := ({| Xtream.fetch_ok := false;
                     Xtream.details := "Categories response was not a JSON array" |},
                  @nil Xtream.LiveCategory) in
  let get body := fun _ : string =>
                    {| Xtream.ok := true; Xtream.protocol := "HTTP/1.1 200 OK";
                       Xtream.body := body |} in
  Xtream.spans (ws ++ json "[]") = (false, [])
  /\ Xtream.spans (ws ++ bad) = (false, [])
  /\ Xtream.FetchLiveCategories (get (ws ++ json "[]")) "u" = failure
  /\ Xtream.FetchLiveCategories (get (ws ++ bad)) "u" = failure
  /\ Dispatcharr.spans (ws ++ json "[]") = (true, [])
  /\ Dispatcharr.spans (ws ++ bad) = (false, []).
Proof.
  intros ws bad failure get.
  apply (C2_empty_array_taken_for_malformed ws bad (get (ws ++ json "[]"))
           (get (ws ++ bad)) "u" "HTTP/1.1 200 OK").
  - repeat constructor.
  - split; [reflexivity|discriminate].
  - discriminate.
  - reflexivity.
  - reflexivity.
Defined.

(** ** String extraction *)

Lemma escape_switch_pos (obj : list ascii) (pos : nat) (c : ascii) (s : list ascii) :
  (pos <= snd (Xtream.escape_switch obj pos c s))%nat.
Proof.
  unfold Xtream.escape_switch, Xtream.unicode_escape, Xtream.low_surrogate.
  repeat (case_match; simpl; try lia); simplify_eq; simpl; lia.
Qed.

(** The loop of [ExtractStringField] ends: with more fuel than there
    are characters left it returns or runs off the end. *)
Lemma string_loop_terminates (fuel : nat) (obj : list ascii) (pos : nat)
      (escape2 : bool) (s : list ascii) :
  (length obj - pos < fuel)%nat ->
  Xtream.string_loop fuel obj pos escape2 s <> Xtream.Starved.
Proof.
  revert pos escape2 s. induction fuel as [|fuel IH]; intros pos e s Hf; [lia|].
  simpl. destruct (pos <? length obj)%nat eqn:Hlt; simpl; [|done].
  apply Nat.ltb_lt in Hlt.
  destruct e.
  - pose proof (escape_switch_pos obj pos (char_at obj pos) s) as Hp.
    destruct (Xtream.escape_switch obj pos (char_at obj pos) s) as [s' pos'].
    simpl in Hp. apply IH. lia.
  - destruct (Ascii.eqb (char_at obj pos) backslash); [apply IH; lia|].
    destruct (Ascii.eqb (char_at obj pos) dquote); [done|]. apply IH. lia.
Qed.

Lemma ExtractStringField_loop_total (obj : list ascii) (pos : nat) :
  Xtream.string_loop (S (length obj)) obj pos false [] <> Xtream.Starved.
Proof. apply string_loop_terminates. lia. Qed.

Section UnicodeEscape.
Variables (obj : list ascii) (pos : nat) (s : list ascii).
Variables h1 h2 h3 h4 : ascii.
Hypothesis Hroom : (pos + 4 < length obj)%nat.
Hypothesis H1 : char_at obj (pos + 1) = h1.
Hypothesis H2 : char_at obj (pos + 2) = h2.
Hypothesis H3 : char_at obj (pos + 3) = h3.
Hypothesis H4 : char_at obj (pos + 4) = h4.
Hypothesis Hhex :
  Xtream.all_hex (Xtream.hexVal h1) (Xtream.hexVal h2)
                 (Xtream.hexVal h3) (Xtream.hexVal h4) = true.

Let cu : Z :=
  Xtream.code_unit (Xtream.hexVal h1) (Xtream.hexVal h2)
                   (Xtream.hexVal h3) (Xtream.hexVal h4).

(** A code unit outside the surrogate range is encoded as it is. *)
Lemma unicode_escape_plain :
  ~ (0xD800 <= cu <= 0xDFFF) ->
  Xtream.unicode_escape obj pos s = (Xtream.appendUtf8 s cu, (pos + 4)%nat).
Proof.
  intros Hcu. unfold Xtream.unicode_escape, Xtream.low_surrogate.
  apply Nat.ltb_lt in Hroom. rewrite Hroom, H1, H2, H3, H4, Hhex. fold cu.
  destruct (0xD800 <=? cu) eqn:Ha; destruct (cu <=? 0xDBFF) eqn:Hb;
    destruct (cu <=? 0xDFFF) eqn:Hc; simpl; try reflexivity; exfalso; lia.
Qed.

(** A high surrogate followed by an escaped low surrogate becomes one
    code point, [0x10000 + (hi << 10 | lo)], and both escapes are
    consumed. *)
Lemma unicode_escape_pair (l1 l2 l3 l4 : ascii) :
  (pos + 10 < length obj)%nat ->
  char_at obj (pos + 5) = backslash ->
  char_at obj (pos + 6) = "u"%char ->
  char_at obj (pos + 7) = l1 -> char_at obj (pos + 8) = l2 ->
  char_at obj (pos + 9) = l3 -> char_at obj (pos + 10) = l4 ->
  Xtream.all_hex (Xtream.hexVal l1) (Xtream.hexVal l2)
                 (Xtream.hexVal l3) (Xtream.hexVal l4) = true ->
  let lo := Xtream.code_unit (Xtream.hexVal l1) (Xtream.hexVal l2)
                             (Xtream.hexVal l3) (Xtream.hexVal l4) in
  0xD800 <= cu <= 0xDBFF ->
  0xDC00 <= lo <= 0xDFFF ->
  Xtream.unicode_escape obj pos s
  = (Xtream.appendUtf8 s (0x10000 + Z.lor (Z.shiftl (cu - 0xD800) 10) (lo - 0xDC00)),
     (pos + 10)%nat).
Proof.
  intros Hroom2 Hb Hu L1 L2 L3 L4 Hlhex lo Hcu Hlo.
  unfold Xtream.unicode_escape, Xtream.low_surrogate.
  apply Nat.ltb_lt in Hroom. rewrite Hroom, H1, H2, H3, H4, Hhex. fold cu.
  replace (pos + 4 + 2 + 4)%nat with (pos + 10)%nat by lia.
  replace (pos + 4 + 1)%nat with (pos + 5)%nat by lia.
  replace (pos + 4 + 2)%nat with (pos + 6)%nat by lia.
  replace (pos + 4 + 3)%nat with (pos + 7)%nat by lia.
  replace (pos + 4 + 4)%nat with (pos + 8)%nat by lia.
  replace (pos + 4 + 5)%nat with (pos + 9)%nat by lia.
  replace (pos + 4 + 6)%nat with (pos + 10)%nat by lia.
  apply Nat.ltb_lt in Hroom2. rewrite Hroom2, Hb, Hu, L1, L2, L3, L4, Hlhex.
  fold lo.
  replace (0xD800 <=? cu) with true by (symmetry; apply Z.leb_le; lia).
  replace (cu <=? 0xDBFF) with true by (symmetry; apply Z.leb_le; lia).
  replace (0xDC00 <=? lo) with true by (symmetry; apply Z.leb_le; lia).
  replace (lo <=? 0xDFFF) with true by (symmetry; apply Z.leb_le; lia).
  reflexivity.
Qed.

(** A surrogate that no escaped low surrogate follows becomes U+FFFD;
    only its own escape is consumed. *)
Lemma unicode_escape_lone :
  0xD800 <= cu <= 0xDFFF ->
  char_at obj (pos + 5) <> backslash ->
  Xtream.unicode_escape obj pos s = (Xtream.appendUtf8 s 0xFFFD, (pos + 4)%nat).
Proof.
  intros Hcu Hb. unfold Xtream.unicode_escape, Xtream.low_surrogate.
  apply Nat.ltb_lt in Hroom. rewrite Hroom, H1, H2, H3, H4, Hhex. fold cu.
  replace (pos + 4 + 1)%nat with (pos + 5)%nat by lia.
  apply Ascii.eqb_neq in Hb. rewrite Hb, andb_false_r. simpl.
  replace (0xD800 <=? cu) with true by (symmetry; apply Z.leb_le; lia).
  replace (cu <=? 0xDFFF) with true by (symmetry; apply Z.leb_le; lia).
  by destruct (cu <=? 0xDBFF).
Qed.
End UnicodeEscape.

(** C7.  [ExtractStringField] decodes the escape for U+00E9 to the two
    bytes C3 A9, the surrogate pair D83D DE00 to the code point
    [0x10000 + (hi << 10 | lo)] = U+1F600 and so to the four bytes
    F0 9F 98 80, and a lone D800 (also one followed by an escape that is
    no low surrogate) to EF BF BD, the encoding of U+FFFD. *)
Theorem C7_unicode_escapes :
  Xtream.ExtractStringField (json "{'n':'\u00e9'}") (json "n") = Some (bytes [0xC3; 0xA9])
  /\ Xtream.ExtractStringField (json "{'n':'\uD83D\uDE00'}") (json "n")
     = Some (Xtream.appendUtf8 [] (0x10000 + Z.lor (Z.shiftl (0xD83D - 0xD800) 10)
                                                   (0xDE00 - 0xDC00)))
  /\ 0x10000 + Z.lor (Z.shiftl (0xD83D - 0xD800) 10) (0xDE00 - 0xDC00) = 0x1F600
  /\ Xtream.appendUtf8 [] 0x1F600 = bytes [0xF0; 0x9F; 0x98; 0x80]
  /\ Xtream.ExtractStringField (json "{'n':'\uD800'}") (json "n")
     = Some (bytes [0xEF; 0xBF; 0xBD])
  /\ Xtream.ExtractStringField (json "{'n':'\uD800\u0041'}") (json "n")
     = Some (bytes [0xEF; 0xBF; 0xBD; 0x41])
  /\ Xtream.appendUtf8 [] 0xFFFD = bytes [0xEF; 0xBF; 0xBD].
Proof. repeat split. Qed.

(** ** The two passes of [ParseXMLTV] *)

Lemma foldl_inv {A B : Type} (P : A -> Prop) (f : A -> B -> A) (l : list B) (a : A) :
  P a -> (forall a x, P a -> P (f a x)) -> P (foldl f a l).
Proof.
  intros Ha Hstep. revert a Ha. induction l as [|x l IH]; intros a Ha; simpl; auto.
Qed.

Lemma NoDup_fmap_filter {A B : Type} (f : A -> B) (P : A -> Prop)
      `{!forall x, Decision (P x)} (l : list A) :
  NoDup (f <$> l) -> NoDup (f <$> filter P l).
Proof.
  induction l as [|x l IH]; simpl; [done|].
  rewrite NoDup_cons. intros [Hx Hl]. rewrite filter_cons.
  destruct (decide (P x)); [|by apply IH].
  rewrite fmap_cons. apply NoDup_cons. split; [|by apply IH].
  intros Hin. apply Hx. apply list_elem_of_fmap in Hin as (y & -> & Hy).
  apply list_elem_of_fmap. exists y. split; [done|].
  by apply list_elem_of_filter in Hy as [_ ?].
Qed.

Section Passes.
Variable mktime : tm -> Z.
Variables (idToName : gmap Z string) (nameToId : gmap string Z).

Local Abbreviation channel_step := (Xtream.channel_step idToName nameToId).
Local Abbreviation channel_key := (Xtream.channel_key idToName nameToId).
Local Abbreviation programme_step := (Xtream.programme_step mktime).
Local Abbreviation make_entry := (Xtream.make_entry mktime).

(** *** The channel pass *)

Lemma channel_step_lookup m c k :
  channel_step m c !! k
  = match channel_key c with
    | Some key =>
        if decide (key = k)
        then Some (Xtream.ChannelEpg.mk key (Xtream.channel_displayName c)
                                        (Xtream.icon_src c) ∅)
        else m !! k
    | None => m !! k
    end.
Proof.
  unfold Xtream.channel_step. destruct (channel_key c) as [key|]; [|done].
  by rewrite lookup_insert.
Qed.

Lemma channel_step_keyed m c : keyed m -> keyed (channel_step m c).
Proof.
  intros Hk k v. rewrite channel_step_lookup.
  destruct (channel_key c) as [key|]; [|apply Hk].
  case_decide; [|apply Hk]. intros [= <-]. done.
Qed.

Lemma channel_step_fresh m c :
  (forall k v, m !! k = Some v -> Xtream.ChannelEpg.entries v = ∅) ->
  forall k v, channel_step m c !! k = Some v -> Xtream.ChannelEpg.entries v = ∅.
Proof.
  intros Hf k v. rewrite channel_step_lookup.
  destruct (channel_key c) as [key|]; [|apply Hf].
  case_decide; [|apply Hf]. intros [= <-]. done.
Qed.

Lemma channel_pass_keyed tv : keyed (Xtream.channel_pass idToName nameToId tv).
Proof.
  unfold Xtream.channel_pass. apply (foldl_inv keyed).
  - intros k v. by rewrite lookup_empty.
  - intros a x. apply channel_step_keyed.
Qed.

Lemma channel_pass_entries_ok tv : entries_ok (Xtream.channel_pass idToName nameToId tv).
Proof.
  assert (H : forall k v, Xtream.channel_pass idToName nameToId tv !! k = Some v ->
                          Xtream.ChannelEpg.entries v = ∅).
  { unfold Xtream.channel_pass.
    apply (foldl_inv (fun m => forall k v, m !! k = Some v ->
                                           Xtream.ChannelEpg.entries v = ∅)).
    - intros k v. by rewrite lookup_empty.
    - intros a x. apply channel_step_fresh. }
  intros k v t e Hv He. rewrite (H k v Hv), lookup_empty in He. done.
Qed.

(** The last [<channel>] that resolves to a key is the one stored. *)
Lemma channel_fold_last (pre post : list xml_node) (c : xml_node) (key : string) m0 :
  channel_key c = Some key ->
  (forall c', c' ∈ post -> channel_key c' <> Some key) ->
  foldl channel_step m0 (pre ++ c :: post) !! key
  = Some (Xtream.ChannelEpg.mk key (Xtream.channel_displayName c) (Xtream.icon_src c) ∅).
Proof.
  intros Hc Hpost. rewrite foldl_app. simpl.
  set (m1 := channel_step (foldl channel_step m0 pre) c).
  assert (H1 : m1 !! key = Some (Xtream.ChannelEpg.mk key (Xtream.channel_displayName c)
                                                      (Xtream.icon_src c) ∅)).
  { unfold m1. rewrite channel_step_lookup, Hc. by rewrite decide_True. }
  clearbody m1. revert m1 H1.
  induction post as [|c' post IH]; intros m1 H1; simpl; [done|].
  apply IH.
  - intros c'' Hin. apply Hpost. by right.
  - rewrite channel_step_lookup.
    destruct (channel_key c') as [key'|] eqn:Hk'; [|done].
    rewrite decide_False; [done|]. intros ->.
    by apply (Hpost c'); [left|].
Qed.

(** *** The programme pass *)

Lemma make_entry_same_keys m m' p :
  same_keys m m' -> make_entry m p = make_entry m' p.
Proof.
  intros Hs. unfold Xtream.make_entry.
  destruct (Xtream.is_empty _); [done|].
  specialize (Hs (attribute_value p "channel")). destruct Hs as [H1 H2].
  destruct (m !! _) as [v|] eqn:Hm; destruct (m' !! _) as [v'|] eqn:Hm'; try done.
  - destruct H1 as [? ?]; [by eexists|done].
  - destruct H2 as [? ?]; [by eexists|done].
Qed.

Lemma make_entry_Some m p e :
  make_entry m p = Some e ->
  is_Some (m !! Xtream.EpgEntry.channelId e)
  /\ Xtream.EpgEntry.channelId e = attribute_value p "channel"
  /\ attribute_value p "channel" <> EmptyString
  /\ Xtream.EpgEntry.startTime e = Xtream.parse_time mktime (attribute_value p "start")
  /\ Xtream.EpgEntry.endTime e = Xtream.parse_time mktime (attribute_value p "stop")
  /\ entry_ok (Xtream.EpgEntry.channelId e) (Xtream.EpgEntry.startTime e) e.
Proof.
  unfold Xtream.make_entry, Xtream.is_empty.
  destruct (String.eqb_spec (attribute_value p "channel") EmptyString) as [|Hne]; [done|].
  destruct (m !! attribute_value p "channel") as [v|] eqn:Hm; [|done].
  destruct ((_ =? 0) || (_ =? 0) || (_ <=? _)) eqn:Hchk; [done|].
  intros [= <-]. simpl.
  apply orb_false_iff in Hchk as [Hchk H3]. apply orb_false_iff in Hchk as [H1 H2].
  apply Z.eqb_neq in H1, H2. apply Z.leb_gt in H3.
  unfold entry_ok. simpl. rewrite Hm. eauto 10.
Qed.

Lemma programme_step_lookup m p k :
  programme_step m p !! k
  = match make_entry m p with
    | Some e =>
        if decide (Xtream.EpgEntry.channelId e = k)
        then Xtream.add_entry e <$> m !! k
        else m !! k
    | None => m !! k
    end.
Proof.
  unfold Xtream.programme_step. destruct (make_entry m p) as [e|]; [|done].
  case_decide as Hk.
  - subst k. apply lookup_alter_eq.
  - by apply lookup_alter_ne.
Qed.

Lemma programme_step_same_keys m p : same_keys m (programme_step m p).
Proof.
  intros k. rewrite programme_step_lookup.
  destruct (make_entry m p) as [e|]; [|done].
  case_decide; [|done]. by rewrite fmap_is_Some.
Qed.

Lemma same_keys_trans m1 m2 m3 : same_keys m1 m2 -> same_keys m2 m3 -> same_keys m1 m3.
Proof. intros H1 H2 k. by rewrite (H1 k). Qed.

Lemma programme_fold_same_keys m ps : same_keys m (foldl programme_step m ps).
Proof.
  revert m. induction ps as [|p ps IH]; intros m; simpl; [done|].
  eapply same_keys_trans; [apply programme_step_same_keys | apply IH].
Qed.

Lemma programme_step_keyed m p : keyed m -> keyed (programme_step m p).
Proof.
  intros Hk k v. rewrite programme_step_lookup.
  destruct (make_entry m p) as [e|]; [|apply Hk].
  case_decide; [|apply Hk].
  destruct (m !! k) as [v0|] eqn:Hm; [|done]. intros [= <-]. simpl. by apply Hk.
Qed.

Lemma programme_step_entries_ok m p : entries_ok m -> entries_ok (programme_step m p).
Proof.
  intros Hok k v t e'. rewrite programme_step_lookup.
  destruct (make_entry m p) as [e|] eqn:He; [|apply Hok].
  case_decide as Hk; [|apply Hok].
  destruct (m !! k) as [v0|] eqn:Hm; [|done]. intros [= <-]. simpl.
  rewrite lookup_insert. case_decide as Ht.
  - intros [= <-]. subst. by apply make_entry_Some in He as (_ & _ & _ & _ & _ & ?).
  - by apply Hok.
Qed.

(** The programme pass changes schedules only. *)
Lemma programme_step_meta m p k v :
  m !! k = Some v ->
  exists v', programme_step m p !! k = Some v'
             /\ Xtream.ChannelEpg.id v' = Xtream.ChannelEpg.id v
             /\ Xtream.ChannelEpg.displayName v' = Xtream.ChannelEpg.displayName v
             /\ Xtream.ChannelEpg.iconPath v' = Xtream.ChannelEpg.iconPath v.
Proof.
  intros Hm. rewrite programme_step_lookup, Hm.
  destruct (make_entry m p) as [e|]; [|by eauto].
  case_decide; simpl; eauto.
Qed.

Lemma programme_fold_meta ps m k v :
  m !! k = Some v ->
  exists v', foldl programme_step m ps !! k = Some v'
             /\ Xtream.ChannelEpg.id v' = Xtream.ChannelEpg.id v
             /\ Xtream.ChannelEpg.displayName v' = Xtream.ChannelEpg.displayName v
             /\ Xtream.ChannelEpg.iconPath v' = Xtream.ChannelEpg.iconPath v.
Proof.
  revert m v. induction ps as [|p ps IH]; intros m v Hm; simpl; [by eauto|].
  destruct (programme_step_meta m p k v Hm) as (v1 & H1 & Ha & Hb & Hc).
  destruct (IH _ _ H1) as (v2 & H2 & Ha' & Hb' & Hc').
  exists v2. repeat split; congruence.
Qed.
End Passes.


(** *** Which programmes are kept *)

(** The keys of the channel map are the join keys of the [<channel>]
    elements that carry an id. *)
Lemma channel_fold_keys (idToName : gmap Z string) (nameToId : gmap string Z)
      (cs : list xml_node) (m : gmap string Xtream.ChannelEpg.t) (k : string) :
  is_Some (foldl (Xtream.channel_step idToName nameToId) m cs !! k)
  <-> is_Some (m !! k)
      \/ exists c, c ∈ cs /\ Xtream.channel_key idToName nameToId c = Some k.
Proof.
  revert m. induction cs as [|c cs IH]; intros m; simpl.
  - split; [by left|]. intros [H|(c & Hin & _)]; [done|by apply not_elem_of_nil in Hin].
  - rewrite IH, channel_step_lookup. split.
    + intros [H|(c' & Hin & Hk)].
      * destruct (Xtream.channel_key idToName nameToId c) as [key|] eqn:Hc; [|by left].
        case_decide as Hkey; [|by left]. subst key.
        right. exists c. split; [by left|done].
      * right. exists c'. split; [by right|done].
    + intros [H|(c' & Hin & Hk)].
      * left. destruct (Xtream.channel_key idToName nameToId c) as [key|]; [|done].
        by case_decide.
      * apply elem_of_cons in Hin as [->|Hin].
        -- left. rewrite Hk. by rewrite decide_True.
        -- right. by exists c'.
Qed.


(** *** The output *)

Lemma has_entries_lookup (epg : Xtream.ChannelEpg.t) (t : Z) :
  is_Some (Xtream.ChannelEpg.entries epg !! t) -> Xtream.has_entries epg = true.
Proof.
  intros H. unfold Xtream.has_entries.
  apply map_size_ne_0_lookup_2 in H. apply negb_true_iff. by apply Nat.eqb_neq.
Qed.

Lemma elem_of_assemble (m : gmap string Xtream.ChannelEpg.t) (epg : Xtream.ChannelEpg.t) :
  epg ∈ Xtream.assemble m
  <-> Xtream.has_entries epg = true /\ exists k, m !! k = Some epg.
Proof.
  unfold Xtream.assemble. rewrite list_elem_of_filter, list_elem_of_fmap.
  rewrite Is_true_true. split.
  - intros [He ([k v] & -> & Hin)]. split; [done|].
    exists k. by apply elem_of_map_to_list.
  - intros [He [k Hk]]. split; [done|].
    exists (k, epg). split; [done|]. by apply elem_of_map_to_list.
Qed.

Lemma assemble_NoDup (m : gmap string Xtream.ChannelEpg.t) :
  keyed m -> NoDup (Xtream.ChannelEpg.id <$> Xtream.assemble m).
Proof.
  intros Hk. unfold Xtream.assemble. apply NoDup_fmap_filter.
  rewrite <- list_fmap_compose.
  replace (Xtream.ChannelEpg.id ∘ snd <$> map_to_list m) with ((map_to_list m).*1);
    [apply NoDup_fst_map_to_list|].
  apply Forall_fmap_ext, Forall_forall. intros [k v] Hin. simpl.
  apply elem_of_map_to_list in Hin. symmetry. by apply Hk.
Qed.

Section Output.
Variable load_buffer : string -> option xml_node.
Variable mktime : tm -> Z.
Variables (xmltvData : string) (streams : list Xtream.LiveStream.t).
Variables doc tvNode : xml_node.
Hypothesis Hdata : xmltvData <> EmptyString.
Hypothesis Hload : load_buffer xmltvData = Some doc.
Hypothesis Htv : child doc "tv" = Some tvNode.

Let idToName := Xtream.streamIdToName streams.
Let nameToId := Xtream.streamNameToId streams.
Let channels := Xtream.channel_pass idToName nameToId tvNode.
Let final := Xtream.programme_pass mktime tvNode channels.

Lemma ParseXMLTV_output :
  Xtream.ParseXMLTV load_buffer mktime xmltvData streams
  = (negb (Xtream.is_nil (Xtream.assemble final)), Xtream.assemble final).
Proof.
  unfold Xtream.ParseXMLTV, Xtream.is_empty.
  apply String.eqb_neq in Hdata. by rewrite Hdata, Hload, Htv.
Qed.

Lemma final_keyed : keyed final.
Proof.
  unfold final, Xtream.programme_pass. apply (foldl_inv keyed).
  - apply channel_pass_keyed.
  - intros a x. apply programme_step_keyed.
Qed.

Lemma final_entries_ok : entries_ok final.
Proof.
  unfold final, Xtream.programme_pass. apply (foldl_inv entries_ok).
  - apply channel_pass_entries_ok.
  - intros a x. apply programme_step_entries_ok.
Qed.

(** The entry of an accepted programme is the one of its channel's
    schedule at its start time, unless a later accepted programme of
    the same channel starts at the same time. *)
Lemma final_last_entry (pre post : list xml_node) (p : xml_node) (e : Xtream.EpgEntry.t) :
  children tvNode "programme" = pre ++ p :: post ->
  Xtream.make_entry mktime channels p = Some e ->
  (forall p' e', p' ∈ post -> Xtream.make_entry mktime channels p' = Some e' ->
                 ~ (Xtream.EpgEntry.channelId e' = Xtream.EpgEntry.channelId e
                    /\ Xtream.EpgEntry.startTime e' = Xtream.EpgEntry.startTime e)) ->
  exists epg, final !! Xtream.EpgEntry.channelId e = Some epg
              /\ Xtream.ChannelEpg.entries epg !! Xtream.EpgEntry.startTime e = Some e.
Proof.
  intros Hps He Hpost. unfold final, Xtream.programme_pass.
  rewrite Hps, foldl_app. simpl.
  set (m0 := foldl (Xtream.programme_step mktime) channels pre).
  assert (Hk0 : same_keys channels m0) by apply programme_fold_same_keys.
  set (m1 := Xtream.programme_step mktime m0 p).
  assert (Hk1 : same_keys channels m1).
  { eapply same_keys_trans; [exact Hk0 | apply programme_step_same_keys]. }
  assert (H1 : exists epg, m1 !! Xtream.EpgEntry.channelId e = Some epg
               /\ Xtream.ChannelEpg.entries epg !! Xtream.EpgEntry.startTime e = Some e).
  { unfold m1. rewrite programme_step_lookup.
    rewrite <- (make_entry_same_keys mktime channels m0 p Hk0), He.
    rewrite decide_True by done.
    apply make_entry_Some in He as ([v Hv] & _).
    destruct (proj1 (Hk0 _) (mk_is_Some _ _ Hv)) as [v0 Hv0].
    rewrite Hv0. simpl. eexists. split; [done|]. simpl. apply lookup_insert_eq. }
  clearbody m1. clear m0 Hk0 Hps. revert m1 Hk1 H1.
  induction post as [|p' post IH]; intros m1 Hk1 H1; simpl; [done|].
  apply IH.
  - intros p'' e'' Hin. apply Hpost. by right.
  - eapply same_keys_trans; [exact Hk1 | apply programme_step_same_keys].
  - destruct H1 as (epg & Hepg & Hent). rewrite programme_step_lookup.
    rewrite <- (make_entry_same_keys mktime channels m1 p' Hk1).
    destruct (Xtream.make_entry mktime channels p') as [e'|] eqn:He'; [|by eauto].
    case_decide as Hc; [|by eauto].
    rewrite Hepg. simpl. eexists. split; [done|]. simpl.
    rewrite lookup_insert_ne; [done|].
    intros Ht. apply (Hpost p' e'); [by left | done | done].
Qed.
End Output.

(** ** The schedule *)

(** C9.  In one [ParseXMLTV] call, the entry of an accepted programme is
    what the returned schedule of its channel holds at its start time,
    unless a later accepted programme of the same channel has the same
    start time: of several entries with one start time the last in
    document order is kept, and entries with other start times stay,
    each under its own start time. *)
Theorem C9_last_write_wins
        (load_buffer : string -> option xml_node) (mktime : tm -> Z)
        (xmltvData : string) (streams : list Xtream.LiveStream.t)
        (doc tvNode : xml_node) (pre post : list xml_node) (p : xml_node)
        (e : Xtream.EpgEntry.t) :
  let channels := Xtream.channel_pass (Xtream.streamIdToName streams)
                                      (Xtream.streamNameToId streams) tvNode in
  xmltvData <> EmptyString ->
  load_buffer xmltvData = Some doc ->
  child doc "tv" = Some tvNode ->
  children tvNode "programme" = pre ++ p :: post ->
  Xtream.make_entry mktime channels p = Some e ->
  (forall p' e', p' ∈ post -> Xtream.make_entry mktime channels p' = Some e' ->
                 ~ (Xtream.EpgEntry.channelId e' = Xtream.EpgEntry.channelId e
                    /\ Xtream.EpgEntry.startTime e' = Xtream.EpgEntry.startTime e)) ->
  exists epg,
    epg ∈ snd (Xtream.ParseXMLTV load_buffer mktime xmltvData streams)
    /\ Xtream.ChannelEpg.id epg = Xtream.EpgEntry.channelId e
    /\ Xtream.ChannelEpg.entries epg !! Xtream.EpgEntry.startTime e = Some e.
Proof.
  intros channels Hdata Hload Htv Hps He Hpost.
  rewrite (ParseXMLTV_output load_buffer mktime xmltvData streams doc tvNode) by done.
  simpl.
  destruct (final_last_entry mktime streams tvNode pre post p e Hps He Hpost)
    as (epg & Hepg & Hent).
  exists epg. split; [|split; [|done]].
  - apply elem_of_assemble. split; [|by eauto].
    apply (has_entries_lookup _ (Xtream.EpgEntry.startTime e)). by rewrite Hent.
  - by apply (final_keyed mktime streams tvNode) in Hepg.
Qed.

(** ** One record per join key *)

(** C10.  The records [ParseXMLTV] returns have pairwise distinct ids;
    and when a [<channel>] element resolves to a join key to which no
    later one resolves, the channel pass ends with that key bound to this
    element's record (display name, icon, no entries yet), so that any
    returned record with that id carries the display name and the icon of
    this last element. *)
Theorem C10_one_record_per_join_key
        (load_buffer : string -> option xml_node) (mktime : tm -> Z)
        (xmltvData : string) (streams : list Xtream.LiveStream.t)
        (doc tvNode : xml_node) (pre post : list xml_node) (c : xml_node)
        (key : string) :
  let idToName := Xtream.streamIdToName streams in
  let nameToId := Xtream.streamNameToId streams in
  let out := snd (Xtream.ParseXMLTV load_buffer mktime xmltvData streams) in
  xmltvData <> EmptyString ->
  load_buffer xmltvData = Some doc ->
  child doc "tv" = Some tvNode ->
  children tvNode "channel" = pre ++ c :: post ->
  Xtream.channel_key idToName nameToId c = Some key ->
  (forall c', c' ∈ post -> Xtream.channel_key idToName nameToId c' <> Some key) ->
  NoDup (Xtream.ChannelEpg.id <$> out)
  /\ Xtream.channel_pass idToName nameToId tvNode !! key
     = Some (Xtream.ChannelEpg.mk key (Xtream.channel_displayName c) (Xtream.icon_src c) ∅)
  /\ forall epg, epg ∈ out -> Xtream.ChannelEpg.id epg = key ->
                 Xtream.ChannelEpg.displayName epg = Xtream.channel_displayName c
                 /\ Xtream.ChannelEpg.iconPath epg = Xtream.icon_src c.
Proof.
  intros idToName nameToId out Hdata Hload Htv Hcs Hc Hpost. subst out.
  rewrite (ParseXMLTV_output load_buffer mktime xmltvData streams doc tvNode) by done.
  simpl.
  assert (Hpass : Xtream.channel_pass idToName nameToId tvNode !! key
                  = Some (Xtream.ChannelEpg.mk key (Xtream.channel_displayName c)
                                               (Xtream.icon_src c) ∅)).
  { unfold Xtream.channel_pass. rewrite Hcs. by apply channel_fold_last. }
  split; [|split; [exact Hpass|]].
  - apply assemble_NoDup. apply final_keyed.
  - intros epg Hin Hid. apply elem_of_assemble in Hin as [_ [k Hk]].
    pose proof (final_keyed mktime streams tvNode k epg Hk) as Hkey.
    rewrite Hid in Hkey. subst k.
    destruct (programme_fold_meta mktime (children tvNode "programme") _ key _ Hpass)
      as (v' & Hv' & _ & Hd & Hi).
    unfold Xtream.programme_pass in Hk. fold idToName nameToId in Hk.
    rewrite Hk in Hv'. injection Hv' as <-. by rewrite Hd, Hi.
Qed.

Lemma C9_last_write_wins_witness :
  let p1 := xml_programme "10" noon one_pm "Old" in
  let p2 := xml_programme "10" noon one_pm "News" in
  let p3 := xml_programme "10" one_pm two_pm "Weather" in
  let doc := xml_doc [xml_channel "10" "BBC One"; p1; p2; p3] in
  let e := entry "10" 1768996800 1769000400 "News" in
  exists epg,
    epg ∈ snd (Xtream.ParseXMLTV (fun _ => Some doc) mktime_utc "<tv>" [stream 10 "BBC1"])
    /\ Xtream.ChannelEpg.id epg = Xtream.EpgEntry.channelId e
    /\ Xtream.ChannelEpg.entries epg !! Xtream.EpgEntry.startTime e = Some e.
Proof.
  intros p1 p2 p3 doc e.
  apply (C9_last_write_wins (fun _ => Some doc) mktime_utc "<tv>" [stream 10 "BBC1"] doc
           (Element "tv" [] [xml_channel "10" "BBC One"; p1; p2; p3]) [p1] [p3] p2 e).
  - discriminate.
  - reflexivity.
  - reflexivity.
  - reflexivity.
  - vm_compute. reflexivity.
  - intros p' e' Hin. apply list_elem_of_singleton in Hin. subst p'.
    vm_compute. intros [= <-] [_ Ht]. discriminate Ht.
Defined.

Lemma C10_one_record_per_join_key_witness :
  let streams := [stream 10 "BBC1"] in
  let c1 := xml_channel "10" "First" in
  let c2 := xml_channel_icon "ten" "bbc1" "logo.png" in
  let doc := xml_doc [c1; c2; xml_programme "10" noon one_pm "News"] in
  let out := snd (Xtream.ParseXMLTV (fun _ => Some doc) mktime_utc "<tv>" streams) in
  NoDup (Xtream.ChannelEpg.id <$> out)
  /\ Xtream.channel_pass (Xtream.streamIdToName streams) (Xtream.streamNameToId streams)
                         (Element "tv" [] [c1; c2; xml_programme "10" noon one_pm "News"])
     !! "10"
     = Some (Xtream.ChannelEpg.mk "10" (Xtream.channel_displayName c2) (Xtream.icon_src c2) ∅)
  /\ forall epg, epg ∈ out -> Xtream.ChannelEpg.id epg = "10" ->
                 Xtream.ChannelEpg.displayName epg = Xtream.channel_displayName c2
                 /\ Xtream.ChannelEpg.iconPath epg = Xtream.icon_src c2.
Proof.
  intros streams c1 c2 doc out.
  apply (C10_one_record_per_join_key (fun _ => Some doc) mktime_utc "<tv>" streams doc
           (Element "tv" [] [c1; c2; xml_programme "10" noon one_pm "News"]) [c1] [] c2 "10").
  - discriminate.
  - reflexivity.
  - reflexivity.
  - reflexivity.
  - vm_compute. reflexivity.
  - intros c' Hin. by apply not_elem_of_nil in Hin.
Defined.

(** Two channels with one join key: the later one, matched by name,
    replaces the earlier one, matched by id. *)
Example replaced_channel :
  parse_doc (xml_doc [xml_channel "10" "First";
                      xml_channel_icon "ten" "bbc1" "logo.png";
                      xml_programme "10" noon one_pm "News"])
            [stream 10 "BBC1"]
  = (true, [("10", "bbc1", "logo.png",
             [(1768996800, entry "10" 1768996800 1769000400 "News")])]).
Proof. vm_compute. reflexivity. Qed.

(** The end-to-end example of the specification. *)
Example end_to_end :
  parse_doc (xml_doc [xml_channel "10" "BBC One"; xml_programme "10" noon one_pm "News"])
            [stream 10 "BBC1"]
  = (true, [("10", "BBC One", "",
             [(1768996800, entry "10" 1768996800 1769000400 "News")])]).
Proof. vm_compute. reflexivity. Qed.

(** ** Programmes and the join key *)

(** C1.  The programme pass looks the [channel] attribute up among the
    join keys, not among the ids of the [<channel>] elements: when the
    channel bbc1 is matched by its display name to stream 10, a programme
    of channel bbc1 with valid times is skipped and [ParseXMLTV] returns
    nothing, although bbc1 was seen in the channel pass.  With an empty
    catalog the same document yields the entry. *)
Theorem C1_name_matched_channel_loses_programmes :
  let streams := [stream 10 "BBC One"] in
  let c := xml_channel "bbc1" "BBC One" in
  let p := xml_programme "bbc1" noon one_pm "News" in
  let tvNode := Element "tv" [] [c; p] in
  let channels := Xtream.channel_pass (Xtream.streamIdToName streams)
                                      (Xtream.streamNameToId streams) tvNode in
  attribute_value p "channel" = attribute_value c "id"
  /\ Xtream.parse_time mktime_utc (attribute_value p "start") = 1768996800
  /\ Xtream.parse_time mktime_utc (attribute_value p "stop") = 1769000400
  /\ Xtream.channel_key (Xtream.streamIdToName streams) (Xtream.streamNameToId streams) c
     = Some "10"%string
  /\ channels !! "bbc1" = None
  /\ Xtream.make_entry mktime_utc channels p = None
  /\ Xtream.ParseXMLTV (fun _ => Some (xml_doc [c; p])) mktime_utc "<tv>" streams
     = (false, [])
  /\ parse_doc (xml_doc [c; p]) []
     = (true, [("bbc1", "BBC One", "",
                [(1768996800, entry "bbc1" 1768996800 1769000400 "News")])]).
Proof. vm_compute. repeat split. Qed.

(** *** The matcher *)

Lemma streamIdToName_fold (streams : list Xtream.LiveStream.t) (m : gmap Z string) (k : Z) :
  is_Some (foldl (fun m stream =>
                    if 0 <? Xtream.LiveStream.id stream
                    then <[Xtream.LiveStream.id stream := Xtream.LiveStream.name stream]> m
                    else m) m streams !! k)
  <-> is_Some (m !! k)
      \/ (0 < k /\ exists s, s ∈ streams /\ Xtream.LiveStream.id s = k).
Proof.
  revert m. induction streams as [|s streams IH]; intros m; simpl.
  - split; [by left|]. intros [H|(_ & s & Hin & _)]; [done|].
    by apply not_elem_of_nil in Hin.
  - rewrite IH. destruct (0 <? Xtream.LiveStream.id s) eqn:Hpos.
    + apply Z.ltb_lt in Hpos. rewrite lookup_insert_is_Some. split.
      * intros [[Heq|[_ H]]|(Hk & s' & Hin & Hid)].
        -- right. subst k. split; [done|]. exists s. split; [by left|done].
        -- by left.
        -- right. split; [done|]. exists s'. split; [by right|done].
      * intros [H|(Hk & s' & Hin & Hid)].
        -- destruct (decide (Xtream.LiveStream.id s = k)); left; [by left|by right].
        -- apply elem_of_cons in Hin as [->|Hin].
           ++ left. by left.
           ++ right. split; [done|]. by exists s'.
    + apply Z.ltb_ge in Hpos. split.
      * intros [H|(Hk & s' & Hin & Hid)]; [by left|].
        right. split; [done|]. exists s'. split; [by right|done].
      * intros [H|(Hk & s' & Hin & Hid)]; [by left|].
        apply elem_of_cons in Hin as [->|Hin]; [lia|].
        right. split; [done|]. by exists s'.
Qed.

(** The id map holds the positive stream ids of the catalog. *)
Lemma streamIdToName_lookup (streams : list Xtream.LiveStream.t) (k : Z) :
  is_Some (Xtream.streamIdToName streams !! k)
  <-> 0 < k /\ exists s, s ∈ streams /\ Xtream.LiveStream.id s = k.
Proof.
  unfold Xtream.streamIdToName. rewrite streamIdToName_fold, lookup_empty.
  split; [intros [[? H]|H]; [done|exact H] | by right].
Qed.

Lemma wrap_32_id (n : Z) : - 2 ^ 31 <= n < 2 ^ 31 -> wrap 32 n = n.
Proof.
  intros H. unfold wrap. change (32 - 1) with 31.
  rewrite Z.mod_small; lia.
Qed.

Section Matcher.
Variables (idToName : gmap Z string) (nameToId : gmap string Z).
Variables xmltvId displayName : string.

(** First branch: an id that is all number, positive, within [int] and
    among the stream ids wins, whatever the display name matches. *)
Lemma join_key_exact (n : Z) :
  strtol xmltvId = (n, EmptyString) ->
  0 < n < 2 ^ 31 ->
  is_Some (idToName !! n) ->
  Xtream.resolve idToName nameToId xmltvId displayName = Xtream.ExactId n
  /\ Xtream.join_key idToName nameToId xmltvId displayName = to_string n.
Proof.
  intros Hs Hn Hin.
  assert (He : Xtream.exact_id idToName xmltvId = Some n).
  { unfold Xtream.exact_id. rewrite Hs. simpl.
    replace (0 <? n) with true by (symmetry; apply Z.ltb_lt; lia).
    rewrite wrap_32_id by lia. by rewrite bool_decide_eq_true_2. }
  unfold Xtream.join_key, Xtream.resolve. by rewrite He.
Qed.

(** Second branch: the lower-cased display name among the lower-cased
    stream names. *)
Lemma join_key_name (i : Z) :
  Xtream.exact_id idToName xmltvId = None ->
  displayName <> EmptyString ->
  nameToId !! Xtream.ToLower displayName = Some i ->
  Xtream.resolve idToName nameToId xmltvId displayName = Xtream.NameFallback i
  /\ Xtream.join_key idToName nameToId xmltvId displayName = to_string i.
Proof.
  intros He Hd Hi. unfold Xtream.join_key, Xtream.resolve, Xtream.is_empty.
  apply String.eqb_neq in Hd. by rewrite He, Hd, Hi.
Qed.

(** Third branch: the id as it stands. *)
Lemma join_key_unmatched :
  Xtream.exact_id idToName xmltvId = None ->
  displayName = EmptyString \/ nameToId !! Xtream.ToLower displayName = None ->
  Xtream.resolve idToName nameToId xmltvId displayName = Xtream.Unmatched
  /\ Xtream.join_key idToName nameToId xmltvId displayName = xmltvId.
Proof.
  intros He Hd. unfold Xtream.join_key, Xtream.resolve, Xtream.is_empty. rewrite He.
  destruct Hd as [->|Hn]; [done|].
  destruct (String.eqb displayName EmptyString); [done|]. by rewrite Hn.
Qed.
End Matcher.

(** C8.  The numeric branch of the matcher narrows the parsed [long] to
    [int] before the lookup: the id 4294967397 (2^32 + 101) parses
    entirely as a positive integer that is no stream's id, and yet
    resolves as an exact id match to stream 101, so that the join key is
    neither the id verbatim nor the result of a name match.  The
    precedence itself holds: the id 101 resolves to the key 101 although
    another stream bears the channel's display name. *)
Theorem C8_wide_id_taken_for_stream_id :
  let streams := [stream 101 "BBC"; stream 7 "News"] in
  let idToName := Xtream.streamIdToName streams in
  let nameToId := Xtream.streamNameToId streams in
  strtol "4294967397" = (4294967397, EmptyString)
  /\ Forall (fun s => Xtream.LiveStream.id s <> 4294967397) streams
  /\ Xtream.resolve idToName nameToId "4294967397" "" = Xtream.ExactId 101
  /\ Xtream.join_key idToName nameToId "4294967397" "" = "101"%string
  /\ Xtream.join_key idToName nameToId "101" "NEWS" = "101"%string
  /\ Xtream.join_key idToName nameToId "guide-7" "NEWS" = "7"%string
  /\ Xtream.join_key idToName nameToId "guide-8" "Sport" = "guide-8"%string.
Proof.
  vm_compute. repeat split; repeat constructor; discriminate.
Qed.

(** ** Timestamps *)

Lemma isdigit_plain (c : ascii) :
  isdigit c = true ->
  isspace c = false /\ Ascii.eqb c "-" = false /\ Ascii.eqb c "+" = false.
Proof.
  destruct c as [[] [] [] [] [] [] [] []]; vm_compute; intros H;
    repeat split; congruence.
Qed.

Lemma append_empty_r (s : string) : s +:+ EmptyString = s.
Proof.
  induction s as [|c s IH]; [done|].
  change (String c (s +:+ EmptyString) = String c s). by rewrite IH.
Qed.

Lemma read_digits_run (w : nat) (ds : list ascii) (rest : string) (acc : Z) (anyd : bool) :
  all_digits ds ->
  (w <= length ds)%nat \/ rest = EmptyString ->
  read_digits w (string_of_list_ascii ds +:+ rest) acc anyd
  = (fold_left (fun a c => a * 10 + (code c - 48)) (take w ds) acc,
     anyd || negb (Nat.eqb (Nat.min w (length ds)) 0),
     string_of_list_ascii (drop w ds) +:+ rest).
Proof.
  intros Hds. revert w acc anyd.
  induction Hds as [|c ds Hc Hds IH]; intros w acc anyd Hw.
  - destruct Hw as [Hw| ->].
    + assert (w = 0%nat) as -> by (simpl in Hw; lia).
      simpl. by rewrite orb_false_r.
    + destruct w; simpl; by rewrite orb_false_r.
  - destruct w as [|w]; simpl; [by rewrite orb_false_r|].
    rewrite Hc, IH.
    + by rewrite orb_true_r.
    + destruct Hw as [Hw|Hw]; [left; simpl in Hw; lia | by right].
Qed.







Section ParseTime.
Variable mktime : tm -> Z.




End ParseTime.

(** *** Accepted programmes are kept *)

Section Verdict.
Variable mktime : tm -> Z.
Variable m0 : gmap string Xtream.ChannelEpg.t.

Local Abbreviation programme_step := (Xtream.programme_step mktime).
Local Abbreviation make_entry := (Xtream.make_entry mktime).

(** An entry once stored stays: later programmes overwrite it at most. *)
Lemma programme_fold_keeps (ps : list xml_node) (m : gmap string Xtream.ChannelEpg.t)
      (k : string) (v : Xtream.ChannelEpg.t) (t : Z) :
  m !! k = Some v -> is_Some (Xtream.ChannelEpg.entries v !! t) ->
  exists v', foldl programme_step m ps !! k = Some v'
             /\ is_Some (Xtream.ChannelEpg.entries v' !! t).
Proof.
  revert m v. induction ps as [|p ps IH]; intros m v Hv Ht; simpl; [by eauto|].
  pose proof (programme_step_lookup mktime m p k) as Hstep.
  destruct (Xtream.make_entry mktime m p) as [e|]; [|by apply (IH _ v); [rewrite Hstep|]].
  case_decide; [|by apply (IH _ v); [rewrite Hstep|]].
  rewrite Hv in Hstep. apply (IH _ _ Hstep). simpl.
  destruct (decide (Xtream.EpgEntry.startTime e = t)) as [->|Hne].
  - rewrite lookup_insert_eq. by eauto.
  - by rewrite lookup_insert_ne.
Qed.

Lemma programme_fold_accepts (ps : list xml_node) (m : gmap string Xtream.ChannelEpg.t)
      (p : xml_node) (e : Xtream.EpgEntry.t) :
  same_keys m0 m -> p ∈ ps -> make_entry m0 p = Some e ->
  exists v, foldl programme_step m ps !! Xtream.EpgEntry.channelId e = Some v
            /\ is_Some (Xtream.ChannelEpg.entries v !! Xtream.EpgEntry.startTime e).
Proof.
  revert m. induction ps as [|a ps IH]; intros m Hs Hin He; [by inversion Hin|].
  assert (Hs' : same_keys m0 (programme_step m a)).
  { intros k. rewrite (Hs k). apply programme_step_same_keys. }
  apply elem_of_cons in Hin as [<-|Hin]; [|by apply IH].
  simpl. rewrite (make_entry_same_keys mktime m0 m) in He by done.
  destruct (make_entry_Some mktime m p e He) as ([v Hv] & _).
  apply (programme_fold_keeps ps _ _ (Xtream.add_entry e v)).
  - by rewrite programme_step_lookup, He, decide_True, Hv.
  - simpl. rewrite lookup_insert_eq. by eauto.
Qed.

Lemma programme_fold_sources (ps : list xml_node) (m : gmap string Xtream.ChannelEpg.t)
      (k : string) (v : Xtream.ChannelEpg.t) (t : Z) (e : Xtream.EpgEntry.t) :
  same_keys m0 m ->
  foldl programme_step m ps !! k = Some v ->
  Xtream.ChannelEpg.entries v !! t = Some e ->
  (exists v', m !! k = Some v' /\ Xtream.ChannelEpg.entries v' !! t = Some e)
  \/ exists p, p ∈ ps /\ make_entry m0 p = Some e.
Proof.
  revert m. induction ps as [|a ps IH]; intros m Hs Hv He; simpl in Hv; [by left; eauto|].
  assert (Hs' : same_keys m0 (programme_step m a)).
  { intros k'. rewrite (Hs k'). apply programme_step_same_keys. }
  destruct (IH _ Hs' Hv He) as [(v' & Hv' & He')|(p & Hp & Hm)];
    [|by right; exists p; split; [apply elem_of_cons; right|]].
  rewrite programme_step_lookup in Hv'.
  destruct (Xtream.make_entry mktime m a) as [e0|] eqn:Ha; [|by left; eauto].
  case_decide; [|by left; eauto].
  destruct (m !! k) as [v0|] eqn:Hk; [|done]. injection Hv' as <-.
  simpl in He'. destruct (decide (Xtream.EpgEntry.startTime e0 = t)) as [Heq|Hne].
  - rewrite Heq, lookup_insert_eq in He'. injection He' as <-.
    right. exists a. split; [by apply elem_of_cons; left|].
    by rewrite (make_entry_same_keys mktime m0 m).
  - rewrite lookup_insert_ne in He' by done. left. by eauto.
Qed.
End Verdict.


(** Twelve digits and a zone: the sixth field is read from the zone. *)
Example twelve_digits_and_zone :
  sscanf_d Xtream.time_format "202601211200 +0000" = [2026; 1; 21; 12; 0; 0].
Proof. reflexivity. Qed.



(** *** Ids that come back unchanged *)

Lemma digit_char_spec (k : Z) :
  0 <= k < 10 -> isdigit (digit_char k) = true /\ code (digit_char k) - 48 = k.
Proof.
  intros Hk.
  assert (k = 0 \/ k = 1 \/ k = 2 \/ k = 3 \/ k = 4 \/ k = 5 \/ k = 6 \/ k = 7
          \/ k = 8 \/ k = 9) as Hcases by lia.
  repeat (destruct Hcases as [->|Hcases]; [by vm_compute|]). by subst.
Qed.

Lemma string_of_list_ascii_snoc (ds : list ascii) (c : ascii) :
  string_of_list_ascii (ds ++ [c]) = string_of_list_ascii ds +:+ String c EmptyString.
Proof.
  induction ds as [|d ds IH]; [done|].
  change (String d (string_of_list_ascii (ds ++ [c]))
          = String d (string_of_list_ascii ds +:+ String c EmptyString)).
  by rewrite IH.
Qed.

(** [decimal] writes digits, and their value is the number written. *)
Lemma decimal_digits (fuel : nat) (n : Z) :
  (0 < fuel)%nat ->
  0 <= n < 10 ^ Z.of_nat fuel ->
  exists ds, ds <> [] /\ all_digits ds
             /\ decimal fuel n = string_of_list_ascii ds /\ digits_value ds = n.
Proof.
  revert n. induction fuel as [|fuel IH]; intros n Hf Hn; [lia|].
  simpl decimal. destruct (n <? 10) eqn:Hlt.
    + apply Z.ltb_lt in Hlt. destruct (digit_char_spec n) as [Hd Hv]; [lia|].
      exists [digit_char n]. repeat split; [done|by repeat constructor|].
      unfold digits_value. simpl. lia.
    + apply Z.ltb_ge in Hlt.
      rewrite Nat2Z.inj_succ, Z.pow_succ_r in Hn by lia.
      destruct (IH (n / 10)) as (ds & Hne & Hds & Hdec & Hval).
      { destruct fuel; [simpl in Hn; lia | lia]. }
      { split; [apply Z.div_pos; lia | apply Z.div_lt_upper_bound; lia]. }
      destruct (digit_char_spec (n mod 10)) as [Hd Hv];
        [apply Z.mod_pos_bound; lia|].
      exists (ds ++ [digit_char (n mod 10)]). repeat split.
      * by destruct ds.
      * apply Forall_app. split; [done|by repeat constructor].
      * by rewrite string_of_list_ascii_snoc, Hdec.
      * unfold digits_value in *. rewrite fold_left_app. simpl. rewrite Hval, Hv.
        pose proof (Z.div_mod n 10). lia.
Qed.

(** [strtol] reads a run of digits back as its value, up to [LONG_MAX]. *)
Lemma strtol_digits (ds : list ascii) :
  ds <> [] -> all_digits ds ->
  strtol (string_of_list_ascii ds)
  = (Z.max LONG_MIN (Z.min LONG_MAX (digits_value ds)), EmptyString).
Proof.
  intros Hne Hds. unfold strtol.
  destruct ds as [|c ds]; [done|].
  pose proof (Forall_inv Hds) as Hc. apply isdigit_plain in Hc as (Hsp & Hm & Hp).
  assert (Hskip : skip_space_str (string_of_list_ascii (c :: ds))
                  = string_of_list_ascii (c :: ds)) by (simpl; by rewrite Hsp).
  rewrite Hskip.
  assert (Hsign : read_sign (string_of_list_ascii (c :: ds))
                  = (false, false, string_of_list_ascii (c :: ds)))
    by (unfold read_sign; simpl; by rewrite Hm, Hp).
  rewrite Hsign.
  generalize (read_digits_run (String.length (string_of_list_ascii (c :: ds)))
                              (c :: ds) EmptyString 0 false Hds (or_intror eq_refl)).
  rewrite !append_empty_r. intros ->.
  assert (Hl : String.length (string_of_list_ascii (c :: ds)) = length (c :: ds)).
  { generalize (c :: ds). intros l. induction l as [|x l IH]; simpl; congruence. }
  rewrite Hl, firstn_all, drop_all. simpl Nat.min. rewrite Nat.min_id. simpl. reflexivity.
Qed.

(** A positive [int] rendered by [std::to_string] is read back whole by
    [strtol]. *)
Lemma strtol_to_string (n : Z) :
  0 < n < 2 ^ 31 -> strtol (to_string n) = (n, EmptyString).
Proof.
  intros Hn. unfold to_string.
  replace (n <? 0) with false by (symmetry; apply Z.ltb_ge; lia).
  destruct (decimal_digits 10 n) as (ds & Hne & Hds & Hdec & Hval).
  { lia. }
  { change (10 ^ Z.of_nat 10) with 10000000000. lia. }
  rewrite Hdec, strtol_digits by done. rewrite Hval.
  unfold LONG_MIN, LONG_MAX. f_equal. lia.
Qed.

Lemma streamNameToId_fold (streams : list Xtream.LiveStream.t) (m : gmap string Z)
      (k : string) (i : Z) :
  foldl (fun m stream =>
           if 0 <? Xtream.LiveStream.id stream
           then <[Xtream.ToLower (Xtream.LiveStream.name stream)
                  := Xtream.LiveStream.id stream]> m
           else m) m streams !! k = Some i ->
  m !! k = Some i
  \/ (0 < i /\ exists s, s ∈ streams /\ Xtream.LiveStream.id s = i
                         /\ Xtream.ToLower (Xtream.LiveStream.name s) = k).
Proof.
  revert m. induction streams as [|s streams IH]; intros m; simpl; [by left|].
  intros H. apply IH in H as [H|(Hi & s' & Hin & Hid & Hname)].
  - destruct (0 <? Xtream.LiveStream.id s) eqn:Hpos; [|by left].
    apply Z.ltb_lt in Hpos. rewrite lookup_insert in H.
    case_decide as Hk; [|by left]. injection H as <-.
    right. split; [done|]. exists s. split; [by left|done].
  - right. split; [done|]. exists s'. split; [by right|done].
Qed.

(** The name map sends lower-cased stream names to positive stream ids. *)
Lemma streamNameToId_lookup (streams : list Xtream.LiveStream.t) (k : string) (i : Z) :
  Xtream.streamNameToId streams !! k = Some i ->
  0 < i /\ exists s, s ∈ streams /\ Xtream.LiveStream.id s = i
                     /\ Xtream.ToLower (Xtream.LiveStream.name s) = k.
Proof.
  intros H. apply streamNameToId_fold in H as [H|H]; [|done].
  by rewrite lookup_empty in H.
Qed.

(** A key obtained by the name match is never the guide id itself: when
    the stream-derived key equals the id text, the numeric branch fired.
    Stream ids are [int]s. *)
Lemma name_match_changes_id (streams : list Xtream.LiveStream.t)
      (xmltvId displayName : string) (i : Z) :
  Forall (fun s => Xtream.LiveStream.id s < 2 ^ 31) streams ->
  Xtream.resolve (Xtream.streamIdToName streams) (Xtream.streamNameToId streams)
                 xmltvId displayName = Xtream.NameFallback i ->
  Xtream.join_key (Xtream.streamIdToName streams) (Xtream.streamNameToId streams)
                  xmltvId displayName <> xmltvId.
Proof.
  intros Hint Hres. unfold Xtream.join_key. rewrite Hres. intros Heq.
  unfold Xtream.resolve in Hres.
  destruct (Xtream.exact_id _ xmltvId) as [?|] eqn:He; [done|].
  destruct (negb (Xtream.is_empty displayName)); [|done].
  destruct (Xtream.streamNameToId streams !! _) as [j|] eqn:Hj; [|done].
  injection Hres as ->.
  apply streamNameToId_lookup in Hj as (Hpos & s & Hin & Hid & _).
  assert (Hlt : i < 2 ^ 31).
  { rewrite Forall_forall in Hint. specialize (Hint s Hin). lia. }
  assert (Hsome : is_Some (Xtream.streamIdToName streams !! i)).
  { apply streamIdToName_lookup. split; [done|]. by exists s. }
  destruct (join_key_exact (Xtream.streamIdToName streams) (Xtream.streamNameToId streams)
              xmltvId displayName i) as [Hex _]; [|lia|done|].
  - rewrite <- Heq. apply strtol_to_string. lia.
  - unfold Xtream.resolve in Hex. rewrite He in Hex.
    repeat case_match; discriminate.
Qed.

(** * Further properties of the code *)

(** ** Searching *)

Lemma is_prefix_app (p r : list ascii) : is_prefix p (p ++ r) = true.
Proof.
  induction p as [|a p IH]; simpl; [done|].
  by rewrite Ascii.eqb_refl, IH.
Qed.

Lemma is_prefix_true (p s : list ascii) :
  is_prefix p s = true -> s = p ++ drop (length p) s.
Proof.
  revert s. induction p as [|a p IH]; intros s; simpl; [by rewrite drop_0|].
  destruct s as [|b s]; [done|].
  intros H. apply andb_true_iff in H as [Hab Hp].
  apply Ascii.eqb_eq in Hab. subst b. simpl. f_equal. by apply IH.
Qed.

(** The first occurrence of a character that the text before it lacks. *)
Lemma find_sub_char (c : ascii) (pre rest : list ascii) (i : nat) :
  c ∉ pre -> find_sub [c] (pre ++ c :: rest) i = Some (i + length pre)%nat.
Proof.
  revert i. induction pre as [|a pre IH]; intros i Hc; simpl.
  - rewrite Ascii.eqb_refl. simpl. f_equal. lia.
  - apply not_elem_of_cons in Hc as [Hne Hc].
    assert (Ascii.eqb c a = false) as -> by (apply Ascii.eqb_neq; congruence).
    simpl. rewrite IH by done. f_equal. lia.
Qed.

Lemma find_sub_char_none (c : ascii) (s : list ascii) (i : nat) :
  c ∉ s -> find_sub [c] s i = None.
Proof.
  revert i. induction s as [|a s IH]; intros i Hc; simpl; [done|].
  apply not_elem_of_cons in Hc as [Hne Hc].
  assert (Ascii.eqb c a = false) as -> by (apply Ascii.eqb_neq; congruence).
  simpl. by apply IH.
Qed.

(** The first occurrence of a text whose first character the text
    before it lacks. *)
Lemma find_sub_head (h : ascii) (t pre rest : list ascii) (i : nat) :
  h ∉ pre ->
  find_sub (h :: t) (pre ++ (h :: t) ++ rest) i = Some (i + length pre)%nat.
Proof.
  revert i. induction pre as [|a pre IH]; intros i Hh.
  - simpl. rewrite Ascii.eqb_refl, is_prefix_app. simpl. f_equal. lia.
  - apply not_elem_of_cons in Hh as [Hne Hh].
    change ((a :: pre) ++ (h :: t) ++ rest) with (a :: (pre ++ (h :: t) ++ rest)).
    cbn [find_sub is_prefix length].
    assert (Ascii.eqb h a = false) as -> by (apply Ascii.eqb_neq; congruence).
    cbn [andb]. rewrite IH by done. f_equal. lia.
Qed.

(** ** [Trim] *)

Lemma trim_front_spec (s : list ascii) :
  exists l, s = l ++ Net.trim_front s
            /\ Forall (fun c => isspace c = true) l
            /\ (forall c r, Net.trim_front s = c :: r -> isspace c = false).
Proof.
  induction s as [|a s (l & Hs & Hl & Hh)]; simpl.
  - exists []. by repeat split.
  - destruct (isspace a) eqn:Ha.
    + exists (a :: l). repeat split; [by rewrite Hs at 1 | by constructor | done].
    + exists []. repeat split; [done|]. by intros c r [= <- _].
Qed.

(** X1.  [Trim] removes white space from both ends and nothing else:
    the input is white space, then the result, then white space, and
    the result neither begins nor ends with white space. *)
Theorem Trim_spec (s : list ascii) :
  exists l r,
    s = l ++ Net.Trim s ++ r
    /\ Forall (fun c => isspace c = true) l
    /\ Forall (fun c => isspace c = true) r
    /\ (forall c, head (Net.Trim s) = Some c -> isspace c = false)
    /\ (forall c, last (Net.Trim s) = Some c -> isspace c = false).
Proof.
  destruct (trim_front_spec s) as (l & Hs & Hl & Hhead).
  set (t := Net.trim_front s) in *.
  destruct (trim_front_spec (rev t)) as (w & Hrev & Hw & Hlast).
  set (u := Net.trim_front (rev t)) in *.
  assert (Ht : t = rev u ++ rev w).
  { rewrite <- rev_app_distr, <- Hrev. by rewrite rev_involutive. }
  exists l, (rev w). unfold Net.Trim, Net.trim_back. fold t. fold u.
  repeat split.
  - by rewrite <- Ht.
  - done.
  - apply Forall_forall. intros c Hc. rewrite Forall_forall in Hw.
    apply Hw. apply list_elem_of_In. apply in_rev. by apply list_elem_of_In.
  - intros c Hc. destruct (rev u) as [|c' ru] eqn:Hru; [done|].
    simpl in Hc. injection Hc as ->. by apply (Hhead c (ru ++ rev w)); rewrite Ht.
  - intros c Hc. destruct u as [|c' u'] eqn:Hu; [done|].
    simpl in Hc. rewrite last_snoc in Hc. injection Hc as ->.
    by apply (Hlast c u').
Qed.

(** ** [UrlEncode] *)

Lemma encode_char_safe_b (c : ascii) :
  forallb (fun x => Net.IsUnreserved x || Ascii.eqb x "%") (Net.encode_char c) = true.
Proof. destruct c as [[] [] [] [] [] [] [] []]; vm_compute; reflexivity. Qed.

Lemma encode_char_safe (c : ascii) :
  Forall (fun x => Net.IsUnreserved x = true \/ x = "%"%char) (Net.encode_char c).
Proof.
  pose proof (encode_char_safe_b c) as H. rewrite forallb_forall in H.
  apply Forall_forall. intros x Hx. apply list_elem_of_In, H in Hx.
  apply orb_true_iff in Hx as [Hx|Hx]; [by left|right]. by apply Ascii.eqb_eq in Hx.
Qed.

(** X2.  The output of [UrlEncode] holds unreserved characters and
    ['%'] only; none of the characters that structure a URL or a query
    string occurs in it. *)
Theorem UrlEncode_safe (s : list ascii) (x : ascii) :
  x ∈ Net.UrlEncode s ->
  (Net.IsUnreserved x = true \/ x = "%"%char)
  /\ x <> "&"%char /\ x <> "="%char /\ x <> "/"%char /\ x <> "?"%char
  /\ x <> "#"%char /\ x <> ":"%char /\ x <> " "%char.
Proof.
  intros Hx.
  assert (H : Net.IsUnreserved x = true \/ x = "%"%char).
  { unfold Net.UrlEncode in Hx. apply list_elem_of_In, in_concat in Hx as (l & Hl & Hxl).
    apply in_map_iff in Hl as (c & <- & _).
    pose proof (encode_char_safe c) as Hs. rewrite Forall_forall in Hs.
    by apply Hs, list_elem_of_In. }
  split; [done|].
  repeat split; intros ->; by destruct H.
Qed.

Lemma kHex_hexVal (c : ascii) :
  chr (16 * Xtream.hexVal (Net.kHex (Z.land (Z.shiftr (code c) 4) 0xF))
       + Xtream.hexVal (Net.kHex (Z.land (code c) 0xF))) = c.
Proof. destruct c as [[] [] [] [] [] [] [] []]; vm_compute; reflexivity. Qed.

Lemma encode_char_cases (c : ascii) :
  (Net.IsUnreserved c = true /\ Net.encode_char c = [c])
  \/ (exists a b, Net.encode_char c = ["%"%char; a; b]
                  /\ chr (16 * Xtream.hexVal a + Xtream.hexVal b) = c).
Proof.
  unfold Net.encode_char. destruct (Net.IsUnreserved c); [by left|right].
  do 2 eexists. split; [reflexivity|apply kHex_hexVal].
Qed.

(** X3.  [UrlEncode] is injective: different texts have different
    encodings, so an encoded user name or password stands for one text
    only. *)
Theorem UrlEncode_injective (s1 s2 : list ascii) :
  s1 <> s2 -> Net.UrlEncode s1 <> Net.UrlEncode s2.
Proof.
  intros Hne Heq. apply Hne. clear Hne. revert s2 Heq. unfold Net.UrlEncode.
  induction s1 as [|c1 s1 IH]; intros [|c2 s2]; simpl.
  - done.
  - destruct (encode_char_cases c2) as [[_ ->]|(a & b & -> & _)]; done.
  - destruct (encode_char_cases c1) as [[_ ->]|(a & b & -> & _)]; done.
  - destruct (encode_char_cases c1) as [[Hu1 ->]|(a1 & b1 & -> & H1)];
      destruct (encode_char_cases c2) as [[Hu2 ->]|(a2 & b2 & -> & H2)]; simpl.
    + intros [= -> H]. f_equal. by apply IH.
    + intros [= -> H]. done.
    + intros [= <- H]. done.
    + intros [= -> -> H]. f_equal; [congruence | by apply IH].
Qed.

Lemma UrlEncode_injective_witness :
  Net.chars "a/b" <> Net.chars "a%2Fb"
  /\ Net.UrlEncode (Net.chars "a/b") <> Net.UrlEncode (Net.chars "a%2Fb").
Proof.
  assert (H : Net.chars "a/b" <> Net.chars "a%2Fb") by discriminate.
  split; [exact H | exact (UrlEncode_injective _ _ H)].
Defined.

Lemma UrlEncode_safe_witness :
  "%"%char ∈ Net.UrlEncode (Net.chars "p&w=1")
  /\ ((Net.IsUnreserved "%" = true \/ "%"%char = "%"%char)
      /\ "%"%char <> "&"%char /\ "%"%char <> "="%char /\ "%"%char <> "/"%char
      /\ "%"%char <> "?"%char /\ "%"%char <> "#"%char /\ "%"%char <> ":"%char
      /\ "%"%char <> " "%char).
Proof.
  assert (H : "%"%char ∈ Net.UrlEncode (Net.chars "p&w=1"))
    by (apply list_elem_of_In; vm_compute; tauto).
  split; [exact H | exact (UrlEncode_safe _ _ H)].
Defined.

(** The encoding of a text with reserved characters. *)
Example UrlEncode_example :
  Net.UrlEncode (Net.chars "p&w=1 /x") = Net.chars "p%26w%3D1%20%2Fx".
Proof. reflexivity. Qed.

(** ** Integer fields *)

(** Where the value of the first key of an object begins. *)
Lemma locate_value (key value : list ascii) :
  let obj := json "{'" ++ key ++ json "':" ++ value in
  ":"%char ∉ key ->
  Xtream.FindKeyPos obj key = Some 1%nat
  /\ find_char obj ":" 1 = Some (length key + 3)%nat
  /\ drop (length key + 4) obj = value
  /\ length obj = (length key + 4 + length value)%nat.
Proof.
  intros obj Hkey. subst obj.
  change (json "{'") with ["{"%char; dquote].
  change (json "':") with [dquote; ":"%char].
  repeat split.
  - unfold Xtream.FindKeyPos, find.
    change (["{"%char; dquote] ++ key ++ [dquote; ":"%char] ++ value)
      with (["{"%char] ++ (dquote :: key ++ [dquote] ++ ":"%char :: value)).
    replace (dquote :: key ++ [dquote] ++ ":"%char :: value)
      with ((dquote :: key ++ [dquote]) ++ ":"%char :: value)
      by (simpl; by rewrite <- app_assoc).
    change ([dquote] ++ key ++ [dquote]) with (dquote :: key ++ [dquote]).
    rewrite find_sub_head; [done|]. apply not_elem_of_cons. split; [done|].
    apply not_elem_of_nil.
  - unfold find_char.
    change (drop 1 (["{"%char; dquote] ++ key ++ [dquote; ":"%char] ++ value))
      with (dquote :: key ++ [dquote] ++ ":"%char :: value).
    replace (dquote :: key ++ [dquote] ++ ":"%char :: value)
      with ((dquote :: key ++ [dquote]) ++ ":"%char :: value)
      by (simpl; by rewrite <- app_assoc).
    rewrite find_sub_char.
    + f_equal. simpl. rewrite length_app. simpl. lia.
    + apply not_elem_of_cons. split; [done|]. apply not_elem_of_app. split; [done|].
      apply not_elem_of_cons. split; [done|]. apply not_elem_of_nil.
  - replace (["{"%char; dquote] ++ key ++ [dquote; ":"%char] ++ value)
      with ((["{"%char; dquote] ++ key ++ [dquote; ":"%char]) ++ value)
      by (by rewrite <- !app_assoc).
    replace (length key + 4)%nat
      with (length (["{"%char; dquote] ++ key ++ [dquote; ":"%char]))
      by (simpl; rewrite length_app; simpl; lia).
    apply drop_app_length.
  - simpl. rewrite !length_app. simpl. lia.
Qed.

Lemma char_at_drop (s : list ascii) (i k : nat) :
  char_at s (i + k) = char_at (drop i s) k.
Proof.
  unfold char_at. revert s. induction i as [|i IH]; intros s; [by rewrite drop_0|].
  destruct s as [|a s]; simpl; [by destruct k|]. apply IH.
Qed.

Lemma fold_digits_ge (ds : list ascii) (v : Z) :
  all_digits ds -> 0 <= v ->
  v <= fold_left (fun a c => a * 10 + (code c - 48)) ds v.
Proof.
  intros Hds. revert v. induction Hds as [|c ds Hc _ IH]; intros v Hv; simpl; [lia|].
  unfold isdigit in Hc. apply andb_true_iff in Hc as [H1 H2].
  apply Z.leb_le in H1, H2.
  etransitivity; [|apply IH]; lia.
Qed.

(** The digit loop of [ParseIntAt] on a run of digits whose value fits
    in a [long long]. *)
Lemma digits_loop_run (ds rest : list ascii) (v : Z) (anyd : bool) :
  all_digits ds -> stops_number rest -> 0 <= v ->
  fold_left (fun a c => a * 10 + (code c - 48)) ds v < 2 ^ 63 ->
  Xtream.digits_loop (ds ++ rest) v anyd
  = (fold_left (fun a c => a * 10 + (code c - 48)) ds v,
     anyd || negb (Xtream.is_nil ds)).
Proof.
  intros Hds Hrest. revert v anyd.
  induction Hds as [|c ds Hc Hds IH]; intros v anyd Hv Hlt; simpl.
  - rewrite orb_false_r. destruct rest as [|c r]; [done|]. simpl in Hrest |- *.
    by rewrite Hrest.
  - rewrite Hc.
    pose proof Hc as Hc'. unfold isdigit in Hc'. apply andb_true_iff in Hc' as [H1 H2].
    apply Z.leb_le in H1, H2.
    simpl in Hlt.
    pose proof (fold_digits_ge ds (v * 10 + (code c - 48)) Hds ltac:(lia)) as Hge.
    assert (Hw : wrap 64 (v * 10 + (code c - 48)) = v * 10 + (code c - 48)).
    { unfold wrap. change (64 - 1) with 63. rewrite Z.mod_small; lia. }
    rewrite Hw, IH by lia. by rewrite orb_true_r.
Qed.

Lemma chars_string_of (l : list ascii) : Net.chars (string_of_list_ascii l) = l.
Proof. apply list_ascii_of_string_of_list_ascii. Qed.

(** [ParseIntAt]'s sign and digit part reads back what
    [std::to_string] writes for an [int]. *)
Lemma signed_digits_to_string (n : Z) (rest : list ascii) :
  Net.INT_MIN <= n <= Net.INT_MAX -> stops_number rest ->
  Xtream.signed_digits (Net.chars (to_string n) ++ rest) = Some n.
Proof.
  unfold Net.INT_MIN, Net.INT_MAX. intros Hn Hrest. unfold to_string.
  destruct (n <? 0) eqn:Hneg.
  - apply Z.ltb_lt in Hneg.
    destruct (decimal_digits 10 (- n)) as (ds & Hne & Hds & Hdec & Hval); [lia| |].
    { change (10 ^ Z.of_nat 10) with 10000000000. lia. }
    rewrite Hdec.
    change (Net.chars (String "-" (string_of_list_ascii ds)))
      with ("-"%char :: Net.chars (string_of_list_ascii ds)).
    rewrite chars_string_of. unfold Xtream.signed_digits. simpl.
    rewrite digits_loop_run; [|done|done|lia|fold (digits_value ds); lia].
    fold (digits_value ds). rewrite Hval.
    destruct ds; [done|]. simpl. f_equal.
    unfold wrap. change (64 - 1) with 63. change (32 - 1) with 31.
    rewrite (Z.mod_small (- - n + 2 ^ 63)) by lia.
    rewrite Z.mod_small; lia.
  - apply Z.ltb_ge in Hneg.
    destruct (decimal_digits 10 n) as (ds & Hne & Hds & Hdec & Hval); [lia| |].
    { change (10 ^ Z.of_nat 10) with 10000000000. lia. }
    rewrite Hdec, chars_string_of. unfold Xtream.signed_digits.
    destruct ds as [|c ds]; [done|].
    pose proof (Forall_inv Hds) as Hc. apply isdigit_plain in Hc as (_ & Hm & _).
    change ((c :: ds) ++ rest) with (c :: (ds ++ rest)). cbv beta iota. rewrite Hm.
    change (c :: (ds ++ rest)) with ((c :: ds) ++ rest).
    rewrite digits_loop_run; [|done|done|lia|fold (digits_value (c :: ds)); lia].
    fold (digits_value (c :: ds)). rewrite Hval. simpl. f_equal.
    unfold wrap. change (32 - 1) with 31. rewrite Z.mod_small; lia.
Qed.

(** [ParseIntAt] at the value of the first key, when the value does not
    begin with white space. *)
Lemma ParseIntAt_value (key value : list ascii) (c : ascii) (r : list ascii) :
  ":"%char ∉ key -> value = c :: r -> isspace c = false ->
  Xtream.ExtractIntField (json "{'" ++ key ++ json "':" ++ value) key
  = if Ascii.eqb c dquote then Xtream.signed_digits r else Xtream.signed_digits value.
Proof.
  intros Hkey Hv Hsp.
  destruct (locate_value key value Hkey) as (Hfind & Hcolon & Hdrop & Hlen).
  unfold Xtream.ExtractIntField. rewrite Hfind, Hcolon.
  unfold Xtream.ParseIntAt.
  replace (S (length key + 3)) with (length key + 4)%nat by lia.
  rewrite Hdrop.
  assert (Hskip : skip_space value (length key + 4) = (length key + 4)%nat)
    by (subst value; simpl; by rewrite Hsp).
  rewrite Hskip.
  assert (Hlt : (length key + 4 <? length (json "{'" ++ key ++ json "':" ++ value))%nat = true)
    by (apply Nat.ltb_lt; rewrite Hlen; subst value; simpl; lia).
  rewrite Hlt. simpl negb. cbv iota.
  generalize (char_at_drop (json "{'" ++ key ++ json "':" ++ value) (length key + 4) 0).
  rewrite Nat.add_0_r, Hdrop. intros ->.
  replace (drop (S (length key + 4)) (json "{'" ++ key ++ json "':" ++ value)) with r.
  - by subst value.
  - change (S (length key + 4)) with (1 + (length key + 4))%nat.
    rewrite Nat.add_comm, <- drop_drop, Hdrop. by subst value.
Qed.

Lemma isdigit_not_dquote (c : ascii) : isdigit c = true -> Ascii.eqb c dquote = false.
Proof.
  destruct c as [[] [] [] [] [] [] [] []]; vm_compute; congruence.
Qed.

Lemma to_string_head (n : Z) :
  Net.INT_MIN <= n <= Net.INT_MAX ->
  exists c r, Net.chars (to_string n) = c :: r
              /\ isspace c = false /\ Ascii.eqb c dquote = false.
Proof.
  unfold Net.INT_MIN, Net.INT_MAX. intros Hn. unfold to_string.
  destruct (n <? 0) eqn:Hneg.
  - exists "-"%char. eexists. by repeat split.
  - apply Z.ltb_ge in Hneg.
    destruct (decimal_digits 10 n) as (ds & Hne & Hds & Hdec & _); [lia| |].
    { change (10 ^ Z.of_nat 10) with 10000000000. lia. }
    rewrite Hdec, chars_string_of. destruct ds as [|c ds]; [done|].
    pose proof (Forall_inv Hds) as Hc. exists c, ds. repeat split.
    + by apply isdigit_plain in Hc as (? & _).
    + by apply isdigit_not_dquote.
Qed.

(** X4.  [ExtractIntField] reads back every [int] that
    [std::to_string] writes as the value of the first key, whether the
    number stands bare or after an opening quote, and whatever follows
    its last digit. *)
Theorem ExtractIntField_round_trip (key rest : list ascii) (n : Z) :
  ":"%char ∉ key ->
  Net.INT_MIN <= n <= Net.INT_MAX ->
  stops_number rest ->
  Xtream.ExtractIntField (json "{'" ++ key ++ json "':" ++ Net.chars (to_string n) ++ rest)
                         key = Some n
  /\ Xtream.ExtractIntField
       (json "{'" ++ key ++ json "':'" ++ Net.chars (to_string n) ++ rest) key = Some n.
Proof.
  intros Hkey Hn Hrest.
  destruct (to_string_head n Hn) as (c & r & Hrepr & Hsp & Hq).
  split.
  - rewrite (ParseIntAt_value key _ c (r ++ rest)); [|done|by rewrite Hrepr|done].
    rewrite Hq. by apply signed_digits_to_string.
  - change (json "':'" ++ Net.chars (to_string n) ++ rest)
      with (json "':" ++ dquote :: Net.chars (to_string n) ++ rest).
    rewrite (ParseIntAt_value key _ dquote (Net.chars (to_string n) ++ rest));
      [|done|done|done].
    rewrite Ascii.eqb_refl. by apply signed_digits_to_string.
Qed.

Lemma ExtractIntField_round_trip_witness :
  Xtream.ExtractIntField (json "{'stream_id':" ++ Net.chars (to_string (-42)) ++ json ",'num':7}")
                         (json "stream_id") = Some (-42)
  /\ Xtream.ExtractIntField
       (json "{'stream_id':'" ++ Net.chars (to_string (-42)) ++ json ",'num':7}")
       (json "stream_id") = Some (-42).
Proof.
  apply (ExtractIntField_round_trip (json "stream_id") (json ",'num':7}") (-42)).
  - intros H. by apply list_elem_of_In in H; vm_compute in H; intuition discriminate.
  - unfold Net.INT_MIN, Net.INT_MAX. lia.
  - reflexivity.
Defined.

(** X5.  No digit, no value: when what stands at the value of the
    first key (bare, or after an opening quote) is neither white space,
    a minus sign nor a digit, [ExtractIntField] yields nothing. *)
Theorem ExtractIntField_no_digit (key r : list ascii) (c : ascii) :
  ":"%char ∉ key ->
  isdigit c = false -> isspace c = false -> c <> "-"%char -> c <> dquote ->
  Xtream.ExtractIntField (json "{'" ++ key ++ json "':" ++ c :: r) key = None
  /\ Xtream.ExtractIntField (json "{'" ++ key ++ json "':'" ++ c :: r) key = None.
Proof.
  intros Hkey Hd Hsp Hm Hq.
  assert (Hsd : Xtream.signed_digits (c :: r) = None).
  { unfold Xtream.signed_digits.
    assert (Ascii.eqb c "-" = false) as -> by by apply Ascii.eqb_neq.
    simpl. by rewrite Hd. }
  split.
  - rewrite (ParseIntAt_value key _ c r); [|done|done|done].
    assert (Ascii.eqb c dquote = false) as -> by by apply Ascii.eqb_neq. done.
  - change (json "':'" ++ c :: r) with (json "':" ++ dquote :: c :: r).
    rewrite (ParseIntAt_value key _ dquote (c :: r)); [|done|done|done].
    by rewrite Ascii.eqb_refl.
Qed.

Lemma ExtractIntField_no_digit_witness :
  Xtream.ExtractIntField (json "{'id':abc}") (json "id") = None
  /\ Xtream.ExtractIntField (json "{'id':'abc'}") (json "id") = None.
Proof.
  apply (ExtractIntField_no_digit (json "id") (json "bc}") "a"%char);
    try reflexivity; try discriminate.
  intros H. by apply list_elem_of_In in H; vm_compute in H; intuition discriminate.
Defined.

(** ** [ReadAll] *)

Lemma ReadAll_loop_spec (reads : list (list ascii)) (maxBytes : nat) (out0 : list ascii) :
  Forall (fun buf => length buf <= Net.buf_size)%nat reads ->
  (length out0 <= maxBytes)%nat ->
  let '(ok, out) := Net.ReadAll_loop reads maxBytes out0 in
  (exists k, out = out0 ++ concat (take k reads))
  /\ (length out <= maxBytes + Net.buf_size)%nat
  /\ (ok = true -> (length out <= maxBytes)%nat)
  /\ (ok = false -> (maxBytes < length out)%nat).
Proof.
  intros Hreads. revert out0.
  induction Hreads as [|buf reads Hbuf _ IH]; intros out0 Hout; simpl.
  - repeat split; try done; try lia. exists 0%nat. by rewrite app_nil_r.
  - destruct (Nat.eqb (length buf) 0) eqn:Hz.
    { repeat split; try done; try lia. exists 0%nat. by rewrite app_nil_r. }
    destruct (maxBytes <? length (out0 ++ buf))%nat eqn:Hmax.
    + apply Nat.ltb_lt in Hmax. repeat split; try done.
      * exists 1%nat. simpl. by rewrite app_nil_r.
      * rewrite length_app in *. lia.
    + apply Nat.ltb_ge in Hmax. specialize (IH (out0 ++ buf) Hmax).
      destruct (Net.ReadAll_loop reads maxBytes (out0 ++ buf)) as [ok out].
      destruct IH as ((k & Hk) & Hb & Ht & Hf). repeat split; try done.
      exists (S k). simpl. by rewrite Hk, <- app_assoc.
Qed.

(** X6.  [ReadAll] holds the buffers read so far and nothing else; it
    never holds more than the cap and one buffer, it answers true only
    with a text within the cap, and false only once the cap is
    exceeded. *)
Theorem ReadAll_bounded (reads : list (list ascii)) (maxBytes : nat) :
  Forall (fun buf => length buf <= Net.buf_size)%nat reads ->
  (exists k, snd (Net.ReadAll reads maxBytes) = concat (take k reads))
  /\ (length (snd (Net.ReadAll reads maxBytes)) <= maxBytes + Net.buf_size)%nat
  /\ (fst (Net.ReadAll reads maxBytes) = true ->
      (length (snd (Net.ReadAll reads maxBytes)) <= maxBytes)%nat)
  /\ (fst (Net.ReadAll reads maxBytes) = false ->
      (maxBytes < length (snd (Net.ReadAll reads maxBytes)))%nat).
Proof.
  intros Hreads. unfold Net.ReadAll.
  pose proof (ReadAll_loop_spec reads maxBytes [] Hreads ltac:(simpl; lia)) as H.
  destruct (Net.ReadAll_loop reads maxBytes []) as [ok out]. exact H.
Qed.

Lemma ReadAll_bounded_witness :
  let reads := [Net.chars "abc"; Net.chars "de"; Net.chars "f"] in
  (exists k, snd (Net.ReadAll reads 4) = concat (take k reads))
  /\ (length (snd (Net.ReadAll reads 4)) <= 4 + Net.buf_size)%nat
  /\ (fst (Net.ReadAll reads 4) = true -> (length (snd (Net.ReadAll reads 4)) <= 4)%nat)
  /\ (fst (Net.ReadAll reads 4) = false -> (4 < length (snd (Net.ReadAll reads 4)))%nat).
Proof.
  intros reads. apply (ReadAll_bounded reads 4).
  subst reads.
  repeat (apply List.Forall_cons;
          [cbn [length Net.chars list_ascii_of_string]; unfold Net.buf_size; lia|]).
  apply List.Forall_nil.
Defined.

(** ** [IsHttpStatusOk] *)

Lemma digits_value_nonneg (ds : list ascii) : all_digits ds -> 0 <= digits_value ds.
Proof. intros Hds. by apply (fold_digits_ge ds 0). Qed.

Lemma stoi_digits (ds : list ascii) :
  ds <> [] -> all_digits ds ->
  Net.stoi (string_of_list_ascii ds)
  = if digits_value ds <=? Net.INT_MAX then Some (digits_value ds) else None.
Proof.
  intros Hne Hds. unfold Net.stoi. rewrite strtol_digits by done.
  pose proof (digits_value_nonneg ds Hds) as Hpos.
  assert (Hlen : Nat.eqb (String.length EmptyString)
                         (String.length (string_of_list_ascii ds)) = false).
  { destruct ds; [done|]. reflexivity. }
  rewrite Hlen. unfold Net.INT_MIN, Net.INT_MAX, LONG_MIN, LONG_MAX.
  destruct (digits_value ds <=? 2 ^ 31 - 1) eqn:Hle.
  - apply Z.leb_le in Hle.
    rewrite Z.min_r, Z.max_r by lia.
    replace (digits_value ds <? - 2 ^ 31) with false by (symmetry; apply Z.ltb_ge; lia).
    replace (2 ^ 31 - 1 <? digits_value ds) with false by (symmetry; apply Z.ltb_ge; lia).
    done.
  - apply Z.leb_gt in Hle.
    replace (2 ^ 31 - 1 <? Z.max (- 2 ^ 63) (Z.min (2 ^ 63 - 1) (digits_value ds)))
      with true by (symmetry; apply Z.ltb_lt; lia).
    by rewrite orb_true_r.
Qed.

Lemma isdigit_not_space_char (ds : list ascii) : all_digits ds -> " "%char ∉ ds.
Proof.
  intros Hds Hin. unfold all_digits in Hds. rewrite Forall_forall in Hds.
  by apply Hds in Hin.
Qed.

(** X7.  On a status line of the shape version, space, digits, space,
    reason, [IsHttpStatusOk] answers whether the number is within 200
    to 299; a line with no second space (a status without a reason
    phrase) is never accepted. *)
Theorem IsHttpStatusOk_spec (version ds reason : list ascii) :
  " "%char ∉ version -> all_digits ds -> ds <> [] ->
  Net.IsHttpStatusOk (version ++ " "%char :: ds ++ " "%char :: reason)
  = (200 <=? digits_value ds) && (digits_value ds <? 300)
  /\ Net.IsHttpStatusOk (version ++ " "%char :: ds) = false
  /\ Net.IsHttpStatusOk version = false.
Proof.
  intros Hv Hds Hne.
  pose proof (isdigit_not_space_char ds Hds) as Hsp.
  repeat split.
  - unfold Net.IsHttpStatusOk, find_char. rewrite drop_0.
    rewrite find_sub_char by done. simpl Nat.add.
    replace (drop (length version + 1) (version ++ " "%char :: ds ++ " "%char :: reason))
      with (ds ++ " "%char :: reason).
    2:{ replace (version ++ " "%char :: ds ++ " "%char :: reason)
          with ((version ++ [" "%char]) ++ ds ++ " "%char :: reason)
          by (by rewrite <- app_assoc).
        replace (length version + 1)%nat with (length (version ++ [" "%char]))
          by (rewrite length_app; simpl; lia).
        by rewrite drop_app_length. }
    rewrite find_sub_char by done.
    assert (Hlen : (0 < length ds)%nat) by (destruct ds; [done|simpl; lia]).
    replace (length version + 1 + length ds <=? length version + 1)%nat with false
      by (symmetry; apply Nat.leb_gt; lia).
    replace (substr (version ++ " "%char :: ds ++ " "%char :: reason)
                    (length version + 1)
                    (length version + 1 + length ds - length version - 1))
      with ds.
    2:{ unfold substr.
        replace (version ++ " "%char :: ds ++ " "%char :: reason)
          with ((version ++ [" "%char]) ++ ds ++ " "%char :: reason)
          by (by rewrite <- app_assoc).
        replace (length version + 1)%nat with (length (version ++ [" "%char]))
          by (rewrite length_app; simpl; lia).
        rewrite drop_app_length.
        replace (length (version ++ [" "%char]) + length ds
                 - length version - 1)%nat with (length ds)
          by (rewrite length_app; simpl; lia).
        by rewrite take_app_length. }
    rewrite stoi_digits by done.
    destruct (digits_value ds <=? Net.INT_MAX) eqn:Hle; [done|].
    apply Z.leb_gt in Hle. unfold Net.INT_MAX in Hle.
    symmetry. apply andb_false_iff. right. apply Z.ltb_ge. lia.
  - unfold Net.IsHttpStatusOk, find_char. rewrite drop_0.
    rewrite find_sub_char by done. simpl Nat.add.
    replace (drop (length version + 1) (version ++ " "%char :: ds)) with ds.
    2:{ replace (version ++ " "%char :: ds) with ((version ++ [" "%char]) ++ ds)
          by (by rewrite <- app_assoc).
        replace (length version + 1)%nat with (length (version ++ [" "%char]))
          by (rewrite length_app; simpl; lia).
        by rewrite drop_app_length. }
    by rewrite find_sub_char_none.
  - unfold Net.IsHttpStatusOk, find_char. rewrite drop_0.
    by rewrite find_sub_char_none.
Qed.

Lemma IsHttpStatusOk_spec_witness :
  Net.IsHttpStatusOk (Net.chars "HTTP/1.1" ++ " "%char :: Net.chars "204"
                                 ++ " "%char :: Net.chars "No Content")
  = (200 <=? digits_value (Net.chars "204")) && (digits_value (Net.chars "204") <? 300)
  /\ Net.IsHttpStatusOk (Net.chars "HTTP/1.1" ++ " "%char :: Net.chars "204") = false
  /\ Net.IsHttpStatusOk (Net.chars "HTTP/1.1") = false.
Proof.
  apply (IsHttpStatusOk_spec (Net.chars "HTTP/1.1") (Net.chars "204") (Net.chars "No Content")).
  - intros H. by apply list_elem_of_In in H; vm_compute in H; intuition discriminate.
  - repeat constructor.
  - discriminate.
Defined.

(** ** String fields of [dispatcharr_client.cpp] and [JsonEscape] *)

Lemma dstring_loop_escape_char (c : ascii) (tl acc : list ascii) :
  c <> chr 8 -> c <> chr 12 ->
  DispatcharrFields.string_loop (DispatcharrFields.escape_char c ++ tl) false acc
  = DispatcharrFields.string_loop tl false (acc ++ [c]).
Proof.
  destruct c as [[] [] [] [] [] [] [] []]; intros H8 H12;
    first [ reflexivity
          | exfalso; apply H8; reflexivity
          | exfalso; apply H12; reflexivity ].
Qed.

Lemma dstring_loop_JsonEscape (s tl acc : list ascii) :
  chr 8 ∉ s -> chr 12 ∉ s ->
  DispatcharrFields.string_loop (DispatcharrFields.JsonEscape s ++ tl) false acc
  = DispatcharrFields.string_loop tl false (acc ++ s).
Proof.
  revert acc. induction s as [|c s IH]; intros acc H8 H12.
  - simpl. by rewrite app_nil_r.
  - apply not_elem_of_cons in H8 as [Hc8 H8]. apply not_elem_of_cons in H12 as [Hc12 H12].
    unfold DispatcharrFields.JsonEscape. simpl. rewrite <- app_assoc.
    rewrite dstring_loop_escape_char by congruence.
    fold (DispatcharrFields.JsonEscape s). rewrite IH by done.
    by rewrite <- app_assoc.
Qed.

(** A quoted value written by [JsonEscape] that follows the colon
    after the first occurrence of the key, as [ExtractStringField]
    reads it. *)
Lemma dExtractStringField_at (obj key s rest : list ascii) (p q : nat) :
  Dispatcharr.FindKeyPos obj key = Some p ->
  find_char obj ":" p = Some q ->
  drop (S q) obj = dquote :: DispatcharrFields.JsonEscape s ++ dquote :: rest ->
  chr 8 ∉ s -> chr 12 ∉ s ->
  DispatcharrFields.ExtractStringField obj key = Some s.
Proof.
  intros Hfind Hcolon Hdrop H8 H12. unfold DispatcharrFields.ExtractStringField.
  rewrite Hfind, Hcolon, Hdrop.
  set (value := dquote :: DispatcharrFields.JsonEscape s ++ dquote :: rest) in *.
  assert (Hskip : skip_space value (S q) = S q) by done.
  rewrite Hskip.
  assert (Hlt : (S q <? length obj)%nat = true).
  { apply Nat.ltb_lt. apply (f_equal length) in Hdrop.
    rewrite length_drop in Hdrop. simpl in Hdrop. lia. }
  rewrite Hlt.
  generalize (char_at_drop obj (S q) 0). rewrite Nat.add_0_r, Hdrop. intros ->.
  change (char_at value 0) with dquote. rewrite Ascii.eqb_refl. simpl negb. simpl orb.
  cbv iota.
  replace (drop (S (S q)) obj) with (DispatcharrFields.JsonEscape s ++ dquote :: rest).
  2:{ change (S (S q)) with (1 + S q)%nat.
      by rewrite Nat.add_comm, <- drop_drop, Hdrop. }
  rewrite dstring_loop_JsonEscape by done. reflexivity.
Qed.

(** X8.  What [JsonEscape] writes, [ExtractStringField] of the same
    file reads back: for a text without backspace and form feed, stored
    as the quoted value of the first key, the field is the text. *)
Theorem JsonEscape_round_trip (key s rest : list ascii) :
  ":"%char ∉ key -> chr 8 ∉ s -> chr 12 ∉ s ->
  DispatcharrFields.ExtractStringField
    (json "{'" ++ key ++ json "':'" ++ DispatcharrFields.JsonEscape s ++ dquote :: rest) key
  = Some s.
Proof.
  intros Hkey H8 H12.
  change (json "':'" ++ DispatcharrFields.JsonEscape s ++ dquote :: rest)
    with (json "':" ++ dquote :: DispatcharrFields.JsonEscape s ++ dquote :: rest).
  set (value := dquote :: DispatcharrFields.JsonEscape s ++ dquote :: rest).
  destruct (locate_value key value Hkey) as (Hfind & Hcolon & Hdrop & _).
  apply (dExtractStringField_at _ key s rest 1 (length key + 3)); try done.
  by replace (S (length key + 3)) with (length key + 4)%nat by lia.
Qed.

Lemma JsonEscape_round_trip_witness :
  let s := json "He said 'a\b' {" ++ [chr 10] in
  DispatcharrFields.ExtractStringField
    (json "{'" ++ json "title" ++ json "':'" ++ DispatcharrFields.JsonEscape s
          ++ dquote :: json "}") (json "title")
  = Some s.
Proof.
  intros s. apply (JsonEscape_round_trip (json "title") s (json "}")).
  - intros H. by apply list_elem_of_In in H; vm_compute in H; intuition discriminate.
  - intros H. by apply list_elem_of_In in H; vm_compute in H; intuition discriminate.
  - intros H. by apply list_elem_of_In in H; vm_compute in H; intuition discriminate.
Defined.

(** The precondition is needed: the escape [JsonEscape] writes for a
    backspace is read back as the letter b. *)
Example backspace_not_read_back :
  DispatcharrFields.ExtractStringField
    (json "{'t':'" ++ DispatcharrFields.JsonEscape [chr 8] ++ json "'}") (json "t")
  = Some ["b"%char].
Proof. reflexivity. Qed.

Lemma escape_char_item (c : ascii) :
  exists it, DispatcharrFields.escape_char c = render_item it /\ item_ok it.
Proof.
  unfold DispatcharrFields.escape_char.
  destruct (Ascii.eqb_spec c dquote) as [|Hq]; [by exists (SEsc dquote)|].
  destruct (Ascii.eqb_spec c backslash) as [|Hb]; [by exists (SEsc backslash)|].
  destruct (Ascii.eqb c (chr 8)); [by exists (SEsc "b")|].
  destruct (Ascii.eqb c (chr 12)); [by exists (SEsc "f")|].
  destruct (Ascii.eqb c (chr 10)); [by exists (SEsc "n")|].
  destruct (Ascii.eqb c (chr 13)); [by exists (SEsc "r")|].
  destruct (Ascii.eqb c (chr 9)); [by exists (SEsc "t")|].
  by exists (SChar c).
Qed.

(** [JsonEscape] writes a well-formed string body. *)
Lemma JsonEscape_items (s : list ascii) :
  exists items, DispatcharrFields.JsonEscape s = render items /\ Forall item_ok items.
Proof.
  induction s as [|c s (items & Hs & Hok)].
  - by exists [].
  - destruct (escape_char_item c) as (it & Hit & Hitok).
    exists (it :: items). split; [|by constructor].
    unfold DispatcharrFields.JsonEscape, render in *. simpl. by rewrite Hit, Hs.
Qed.

Section DispatcharrBody.
Context {A : Type} (emit : nat -> nat -> A -> A).

Lemma dscan_body (items : list str_item) (post : list ascii) (i : nat) d o a :
  Forall item_ok items ->
  Dispatcharr.scan_loop emit (render items ++ post) i (Dispatcharr.Scan d o true false a)
  = Dispatcharr.scan_loop emit post (i + length (render items))
                          (Dispatcharr.Scan d o true false a).
Proof.
  intros H. revert i. induction H as [|it items Hit _ IH]; intros i.
  - simpl. by rewrite Nat.add_0_r.
  - unfold render. simpl. fold (render items). rewrite <- app_assoc.
    destruct it as [c|c]; simpl in *.
    + destruct Hit as [Hq Hb].
      unfold Dispatcharr.scan_step. simpl.
      apply Ascii.eqb_neq in Hq, Hb. rewrite Hq, Hb.
      rewrite IH. f_equal. lia.
    + rewrite IH. f_equal. lia.
Qed.
End DispatcharrBody.

(** X9.  An object whose string value was written by [JsonEscape] is
    handed on whole by [ForEachObjectInArray], whatever the text holds:
    braces, brackets and quotes in it are no boundaries. *)
Theorem escaped_value_scanned_whole (s : list ascii) :
  Dispatcharr.objects (json "[{'title':'" ++ DispatcharrFields.JsonEscape s ++ json "'}]")
  = (true, [json "{'title':'" ++ DispatcharrFields.JsonEscape s ++ json "'}"]).
Proof.
  destruct (JsonEscape_items s) as (items & -> & Hok).
  unfold Dispatcharr.objects, Dispatcharr.ForEachObjectInArray, Dispatcharr.scan_array.
  set (arr := json "[{'title':'" ++ render items ++ json "'}]").
  assert (Hlen : (0 <? length arr)%nat = true) by (apply Nat.ltb_lt; subst arr; simpl; lia).
  change (skip_space arr 0) with 0%nat. rewrite Hlen.
  change (char_at arr 0) with "["%char. simpl Ascii.eqb. simpl andb. cbv iota.
  rewrite drop_0. f_equal.
  set (fn := fun (start len : nat) => (fun obj acc => acc ++ [obj]) (substr arr start len)).
  change (Dispatcharr.scan_loop fn arr 0 (Dispatcharr.Scan 0 None false false []))
    with (Dispatcharr.scan_loop fn (render items ++ json "'}]") 11
            (Dispatcharr.Scan 1 (Some 1%nat) true false [])).
  rewrite dscan_body by done. simpl.
  set (obj := json "{'title':'" ++ render items ++ json "'}").
  assert (Harr : arr = "["%char :: obj ++ json "]")
    by (subst arr obj; by rewrite <- !app_assoc).
  match goal with
  | |- fn 1%nat ?n [] = _ =>
      replace n with (length obj) by (subst obj; rewrite !length_app; simpl; lia)
  end.
  subst fn. cbv beta. unfold substr. rewrite Harr.
  change (drop 1 ("["%char :: obj ++ json "]")) with (obj ++ json "]").
  by rewrite take_app_length.
Qed.

(** ** String fields of [xtream_client.cpp] *)

Lemma escape_switch_simple (obj : list ascii) (pos : nat) (c : ascii) (s : list ascii) :
  c <> "u"%char ->
  Xtream.escape_switch obj pos c s = (s ++ [simple_escape c], pos).
Proof.
  intros Hu. unfold Xtream.escape_switch, simple_escape.
  destruct (Ascii.eqb_spec c dquote) as [->|_]; [done|].
  destruct (Ascii.eqb_spec c backslash) as [->|_]; [done|].
  destruct (Ascii.eqb_spec c "/") as [->|_]; [done|]. simpl.
  destruct (Ascii.eqb c "b"); [done|]. destruct (Ascii.eqb c "f"); [done|].
  destruct (Ascii.eqb c "n"); [done|]. destruct (Ascii.eqb c "r"); [done|].
  destruct (Ascii.eqb c "t"); [done|].
  by destruct (Ascii.eqb_spec c "u").
Qed.

Lemma char_at_middle (pre post : list ascii) (c : ascii) :
  char_at (pre ++ c :: post) (length pre) = c.
Proof.
  generalize (char_at_app_r pre (c :: post) 0). by rewrite Nat.add_0_r.
Qed.

(** The loop of [ExtractStringField] over a string body without
    unicode escapes: one iteration per character, the decoded text
    appended. *)
Lemma xstring_loop_items (items : list str_item) (pre post : list ascii)
      (fuel : nat) (s : list ascii) :
  Forall item_ok items ->
  Forall (fun it => it <> SEsc "u") items ->
  Xtream.string_loop (length (render items) + fuel) (pre ++ render items ++ post)
                     (length pre) false s
  = Xtream.string_loop fuel (pre ++ render items ++ post)
                       (length pre + length (render items)) false (s ++ decode_items items).
Proof.
  intros Hok. revert pre s. induction Hok as [|it items Hit _ IH]; intros pre s Hu.
  - simpl. by rewrite Nat.add_0_r, app_nil_r.
  - apply Forall_cons in Hu as [Hitu Hu].
    unfold render. simpl concat. fold (render items).
    destruct it as [c|c]; simpl render_item.
    + destruct Hit as [Hq Hb]. apply Ascii.eqb_neq in Hq, Hb.
      change (([c] ++ render items) ++ post) with (c :: render items ++ post).
      change (length ([c] ++ render items)) with (S (length (render items))).
      cbn [Nat.add Xtream.string_loop].
      assert (Hlt : (length pre <? length (pre ++ c :: render items ++ post))%nat = true)
        by (apply Nat.ltb_lt; rewrite length_app; simpl; lia).
      rewrite Hlt, char_at_middle, Hb, Hq. simpl negb. cbv iota.
      replace (pre ++ c :: render items ++ post)
        with ((pre ++ [c]) ++ render items ++ post) by (by rewrite <- app_assoc).
      replace (S (length pre)) with (length (pre ++ [c]))
        by (rewrite length_app; simpl; lia).
      rewrite IH by done. rewrite <- !app_assoc.
      f_equal; try reflexivity. rewrite length_app. simpl. lia.
    + change (([backslash; c] ++ render items) ++ post)
        with (backslash :: c :: render items ++ post).
      change (length ([backslash; c] ++ render items)) with (S (S (length (render items)))).
      cbn [Nat.add Xtream.string_loop].
      assert (Hlt : (length pre <? length (pre ++ backslash :: c :: render items ++ post))%nat
                    = true)
        by (apply Nat.ltb_lt; rewrite length_app; simpl; lia).
      rewrite Hlt, char_at_middle. simpl negb. cbv iota.
      change (Ascii.eqb backslash backslash) with true. cbv iota.
      assert (Hlt2 : (S (length pre) <? length (pre ++ backslash :: c :: render items ++ post))%nat
                     = true)
        by (apply Nat.ltb_lt; rewrite length_app; simpl; lia).
      rewrite Hlt2. simpl negb. cbv iota.
      replace (char_at (pre ++ backslash :: c :: render items ++ post) (S (length pre)))
        with c.
      2:{ replace (pre ++ backslash :: c :: render items ++ post)
            with ((pre ++ [backslash]) ++ c :: render items ++ post)
            by (by rewrite <- app_assoc).
          replace (S (length pre)) with (length (pre ++ [backslash]))
            by (rewrite length_app; simpl; lia).
          by rewrite char_at_middle. }
      rewrite escape_switch_simple by congruence.
      replace (pre ++ backslash :: c :: render items ++ post)
        with ((pre ++ [backslash; c]) ++ render items ++ post) by (by rewrite <- app_assoc).
      replace (S (S (length pre))) with (length (pre ++ [backslash; c]))
        by (rewrite length_app; simpl; lia).
      rewrite IH by done. rewrite <- !app_assoc.
      f_equal; try reflexivity. rewrite length_app. simpl. lia.
Qed.

(** X10.  For a string value whose body holds plain characters and
    simple escapes, [ExtractStringField] yields the decoded text when
    the closing quote is there, and nothing when the text ends before
    it. *)
Theorem ExtractStringField_decodes (key rest : list ascii) (items : list str_item) :
  ":"%char ∉ key ->
  Forall item_ok items ->
  Forall (fun it => it <> SEsc "u") items ->
  Xtream.ExtractStringField
    (json "{'" ++ key ++ json "':'" ++ render items ++ dquote :: rest) key
  = Some (decode_items items)
  /\ Xtream.ExtractStringField (json "{'" ++ key ++ json "':'" ++ render items) key = None.
Proof.
  intros Hkey Hok Hu.
  assert (Hgen : forall post,
    Xtream.ExtractStringField (json "{'" ++ key ++ json "':'" ++ render items ++ post) key
    = match Xtream.string_loop
              (S (length (json "{'" ++ key ++ json "':'" ++ render items ++ post))
               - length (render items))
              (json "{'" ++ key ++ json "':'" ++ render items ++ post)
              (length key + 5 + length (render items)) false (decode_items items) with
      | Xtream.Returned out => Some out
      | _ => None
      end).
  { intros post.
    change (json "':'" ++ render items ++ post)
      with (json "':" ++ dquote :: render items ++ post).
    set (value := dquote :: render items ++ post).
    destruct (locate_value key value Hkey) as (Hfind & Hcolon & Hdrop & Hlen).
    set (obj := json "{'" ++ key ++ json "':" ++ value) in *.
    unfold Xtream.ExtractStringField. rewrite Hfind, Hcolon.
    replace (S (length key + 3)) with (length key + 4)%nat by lia.
    rewrite Hdrop.
    assert (Hskip : skip_space value (length key + 4) = (length key + 4)%nat) by done.
    rewrite Hskip.
    assert (Hlt : (length key + 4 <? length obj)%nat = true)
      by (apply Nat.ltb_lt; rewrite Hlen; simpl; lia).
    rewrite Hlt.
    generalize (char_at_drop obj (length key + 4) 0).
    rewrite Nat.add_0_r, Hdrop. intros ->.
    change (char_at value 0) with dquote. rewrite Ascii.eqb_refl. simpl negb. simpl orb.
    cbv iota.
    assert (Hobj : obj = (json "{'" ++ key ++ json "':'") ++ render items ++ post).
    { subst obj value. rewrite <- !app_assoc. reflexivity. }
    assert (Hpre : length (json "{'" ++ key ++ json "':'") = S (length key + 4)).
    { simpl. rewrite length_app. simpl. lia. }
    set (F := (S (length obj) - length (render items))%nat).
    replace (S (length obj)) with (length (render items) + F)%nat
      by (subst F; rewrite Hobj, !length_app; lia).
    rewrite Hobj at 1. rewrite <- Hpre.
    rewrite xstring_loop_items by done.
    rewrite <- Hobj, Hpre.
    replace (S (length key + 4) + length (render items))%nat
      with (length key + 5 + length (render items))%nat by lia.
    reflexivity. }
  split.
  - rewrite Hgen.
    set (obj := json "{'" ++ key ++ json "':'" ++ render items ++ dquote :: rest).
    assert (Hobj : obj = (json "{'" ++ key ++ json "':'" ++ render items) ++ dquote :: rest).
    { subst obj. by rewrite <- !app_assoc. }
    assert (Hpre : length (json "{'" ++ key ++ json "':'" ++ render items)
                   = (length key + 5 + length (render items))%nat).
    { simpl. rewrite !length_app. simpl. lia. }
    assert (Hfuel : exists f, (S (length obj) - length (render items))%nat = S f).
    { exists (length obj - length (render items))%nat.
      rewrite Hobj, length_app, Hpre. lia. }
    destruct Hfuel as [f ->]. cbn [Xtream.string_loop].
    assert (Hlt : (length key + 5 + length (render items) <? length obj)%nat = true).
    { apply Nat.ltb_lt. rewrite Hobj, length_app, Hpre. simpl. lia. }
    assert (Hch : char_at obj (length key + 5 + length (render items)) = dquote)
      by (rewrite <- Hpre, Hobj; apply char_at_middle).
    rewrite Hlt, Hch. reflexivity.
  - rewrite <- (app_nil_r (render items)) at 1. rewrite Hgen.
    rewrite app_nil_r.
    set (obj := json "{'" ++ key ++ json "':'" ++ render items).
    assert (Hlen : length obj = (length key + 5 + length (render items))%nat).
    { subst obj. simpl. rewrite !length_app. simpl. lia. }
    assert (Hfuel : exists f, (S (length obj) - length (render items))%nat = S f).
    { exists (length obj - length (render items))%nat. lia. }
    destruct Hfuel as [f ->]. cbn [Xtream.string_loop].
    rewrite <- Hlen. by rewrite Nat.ltb_irrefl.
Qed.

Lemma ExtractStringField_decodes_witness :
  let items := [SChar "a"; SEsc "n"; SEsc dquote; SChar "}"; SEsc "/"]%char in
  Xtream.ExtractStringField
    (json "{'" ++ json "name" ++ json "':'" ++ render items ++ dquote :: json ",'x':1}")
    (json "name")
  = Some (decode_items items)
  /\ Xtream.ExtractStringField (json "{'" ++ json "name" ++ json "':'" ++ render items)
                               (json "name") = None.
Proof.
  intros items.
  apply (ExtractStringField_decodes (json "name") (json ",'x':1}") items).
  - intros H. by apply list_elem_of_In in H; vm_compute in H; intuition discriminate.
  - repeat constructor; discriminate.
  - repeat constructor; discriminate.
Defined.

(** ** [BuildBaseUrl] *)

Lemma last_rev_head (l : list ascii) : last (rev l) = head l.
Proof. destruct l as [|a l]; [done|]. simpl. by rewrite last_snoc. Qed.

Lemma strip_slashes_front_head (l : list ascii) :
  head (Net.strip_slashes_front l) <> Some "/"%char.
Proof.
  induction l as [|a l IH]; simpl; [done|].
  destruct (Ascii.eqb_spec a "/") as [->|Hne]; [done|]. simpl. congruence.
Qed.

Lemma NormalizeServer_last (raw : list ascii) :
  last (Net.NormalizeServer raw) <> Some "/"%char.
Proof.
  unfold Net.NormalizeServer. rewrite last_rev_head. apply strip_slashes_front_head.
Qed.

Lemma is_prefix_weaken (p s t : list ascii) :
  is_prefix p s = true -> is_prefix p (s ++ t) = true.
Proof.
  revert s. induction p as [|a p IH]; intros s; simpl; [done|].
  destruct s as [|b s]; [done|]. simpl. intros H.
  apply andb_true_iff in H as [-> Hp]. simpl. by apply IH.
Qed.

Lemma to_string_port (p : Z) :
  0 < p < 2 ^ 31 ->
  exists ds, Net.chars (to_string p) = ds /\ ds <> [] /\ all_digits ds.
Proof.
  intros Hp. unfold to_string.
  replace (p <? 0) with false by (symmetry; apply Z.ltb_ge; lia).
  destruct (decimal_digits 10 p) as (ds & Hne & Hds & Hdec & _); [lia| |].
  { change (10 ^ Z.of_nat 10) with 10000000000. lia. }
  exists ds. by rewrite Hdec, chars_string_of.
Qed.

Lemma with_port_last (out : list ascii) (p : Z) :
  p < 2 ^ 31 -> last out <> Some "/"%char ->
  last (Net.with_port out p) <> Some "/"%char.
Proof.
  intros Hp Hout. unfold Net.with_port. destruct (0 <? p) eqn:Hpos; [|done].
  apply Z.ltb_lt in Hpos.
  destruct (to_string_port p) as (ds & -> & Hne & Hds); [lia|].
  rewrite app_assoc, last_app.
  destruct (last ds) as [d|] eqn:Hd; [|by apply last_None in Hd].
  intros [= ->]. apply last_Some in Hd as [l' ->].
  unfold all_digits in Hds. rewrite Forall_app in Hds. destruct Hds as [_ Hd].
  by apply Forall_inv in Hd.
Qed.

Lemma with_port_prefix (pre out : list ascii) (p : Z) :
  is_prefix pre out = true -> is_prefix pre (Net.with_port out p) = true.
Proof.
  intros H. unfold Net.with_port. destruct (0 <? p); [|done]. by apply is_prefix_weaken.
Qed.

Lemma with_port_nonempty (out : list ascii) (p : Z) :
  out <> [] -> Net.with_port out p <> [].
Proof.
  intros H. unfold Net.with_port. destruct (0 <? p); [|done]. by destruct out.
Qed.

(** X11.  [BuildBaseUrl] is empty exactly when the server setting is
    blank (white space and slashes only); otherwise it begins with
    [http://] or [https://] and does not end with a slash, so that the
    paths appended to it start with the only slash at the seam. *)
Theorem BuildBaseUrl_shape (settings : Net.Settings) :
  Net.port settings < 2 ^ 31 ->
  (Net.BuildBaseUrl settings = [] <-> Net.NormalizeServer (Net.server settings) = [])
  /\ (Net.BuildBaseUrl settings <> [] ->
      (is_prefix (Net.chars "http://") (Net.BuildBaseUrl settings) = true
       \/ is_prefix (Net.chars "https://") (Net.BuildBaseUrl settings) = true)
      /\ last (Net.BuildBaseUrl settings) <> Some "/"%char).
Proof.
  intros Hport. unfold Net.BuildBaseUrl.
  pose proof (NormalizeServer_last (Net.server settings)) as Hlast.
  destruct (Net.NormalizeServer (Net.server settings)) as [|c srv] eqn:Hsrv; [done|].
  set (server := c :: srv) in *. simpl Xtream.is_nil. cbv iota.
  assert (Hne : server <> []) by done.
  destruct (is_prefix (Net.chars "http://") server) eqn:Hhttp.
  - simpl orb. cbv iota.
    destruct (bool_decide _).
    + split; [done|]. intros _. split; [by left|done].
    + split.
      * split; [|done]. intros H. by apply with_port_nonempty in H.
      * intros _. split; [left; by apply with_port_prefix|by apply with_port_last].
  - destruct (is_prefix (Net.chars "https://") server) eqn:Hhttps.
    + simpl orb. cbv iota.
      destruct (bool_decide _).
      * split; [done|]. intros _. split; [by right|done].
      * split.
        -- split; [|done]. intros H. by apply with_port_nonempty in H.
        -- intros _. split; [right; by apply with_port_prefix|by apply with_port_last].
    + simpl orb. cbv iota. split.
      * split; [|done]. intros H. by apply with_port_nonempty in H.
      * intros _. split.
        -- left. apply with_port_prefix. apply (is_prefix_app (Net.chars "http://") server).
        -- apply with_port_last; [done|].
           rewrite last_app. destruct (last server) eqn:Hl; [done|].
           by apply last_None in Hl.
Qed.

Lemma BuildBaseUrl_shape_witness :
  let settings := {| Net.server := Net.chars " example.com// "; Net.port := 8080;
                     Net.username := Net.chars "u"; Net.password := Net.chars "p";
                     Net.timeoutSeconds := 30; Net.enableUserAgentSpoofing := false;
                     Net.customUserAgent := [] |} in
  (Net.BuildBaseUrl settings = [] <-> Net.NormalizeServer (Net.server settings) = [])
  /\ (Net.BuildBaseUrl settings <> [] ->
      (is_prefix (Net.chars "http://") (Net.BuildBaseUrl settings) = true
       \/ is_prefix (Net.chars "https://") (Net.BuildBaseUrl settings) = true)
      /\ last (Net.BuildBaseUrl settings) <> Some "/"%char).
Proof.
  intros settings. apply (BuildBaseUrl_shape settings). simpl. lia.
Defined.

Example BuildBaseUrl_examples :
  let mk srv p := {| Net.server := Net.chars srv; Net.port := p;
                     Net.username := []; Net.password := [];
                     Net.timeoutSeconds := 30; Net.enableUserAgentSpoofing := false;
                     Net.customUserAgent := [] |} in
  Net.BuildBaseUrl (mk " example.com// " 8080) = Net.chars "http://example.com:8080"
  /\ Net.BuildBaseUrl (mk "https://example.com" 443) = Net.chars "https://example.com:443"
  /\ Net.BuildBaseUrl (mk "http://example.com:81/" 8080) = Net.chars "http://example.com:81"
  /\ Net.BuildBaseUrl (mk " / " 8080) = [].
Proof. repeat split. Qed.

(** ** The fetch operations *)

Section ScannerSink.
Context {A : Type} (fn : nat -> nat -> A -> A) (a0 : A).

Lemma xscan_step_untouched (i : nat) (c : ascii) (st : Xtream.scan) :
  (Xtream.any st = false -> Xtream.sink st = a0) ->
  Xtream.any (Xtream.scan_step fn i c st) = false ->
  Xtream.sink (Xtream.scan_step fn i c st) = a0.
Proof.
  intros Hst. unfold Xtream.scan_step.
  repeat (case_match; simpl; try done); intros H; by apply Hst.
Qed.

Lemma xscan_loop_untouched (cs : list ascii) (i : nat) (st : Xtream.scan) :
  (Xtream.any st = false -> Xtream.sink st = a0) ->
  Xtream.any (Xtream.scan_loop fn cs i st) = false ->
  Xtream.sink (Xtream.scan_loop fn cs i st) = a0.
Proof.
  revert i st. induction cs as [|c cs IH]; intros i st Hst; simpl; [done|].
  apply IH. by apply xscan_step_untouched.
Qed.

(** When [ForEachTopLevelObjectSpan] returns false, the callback was
    not invoked. *)
Lemma xscan_false_untouched (json_text : list ascii) (out : A) :
  Xtream.ForEachTopLevelObjectSpan fn json_text a0 = (false, out) -> out = a0.
Proof.
  unfold Xtream.ForEachTopLevelObjectSpan.
  destruct (_ && _); [|by intros [= <-]].
  intros [= Hany <-]. by apply xscan_loop_untouched.
Qed.

Lemma xscan_empty_array (ws : list ascii) :
  Forall (fun c => isspace c = true) ws ->
  Xtream.ForEachTopLevelObjectSpan fn (ws ++ json "[]") a0 = (false, a0).
Proof.
  intros Hws. unfold Xtream.ForEachTopLevelObjectSpan.
  assert (Hskip : skip_space (ws ++ json "[]") 0 = length ws)
    by (rewrite skip_space_app by done; reflexivity).
  assert (Hlt : (length ws <? length (ws ++ json "[]"))%nat = true)
    by (apply Nat.ltb_lt; rewrite length_app; simpl; lia).
  rewrite Hskip, Hlt. change (json "[]") with ["["%char; "]"%char].
  rewrite char_at_middle, drop_app_length. reflexivity.
Qed.
End ScannerSink.

Section FetchAll.
Variable HttpGet : list ascii -> list ascii -> Z -> Xtream.HttpResult.
Variable blank : Xtream.LiveStream.t.
Variable settings : Net.Settings.

Local Abbreviation FetchLiveStreams := (Fetch.FetchLiveStreams HttpGet blank settings).
Local Abbreviation FetchLiveCategories := (Fetch.FetchLiveCategories HttpGet settings).

(** A failed [FetchLiveStreams] leaves no stream behind, a successful
    one at least one. *)
Lemma FetchLiveStreams_out (categoryId : Z) :
  if Xtream.fetch_ok (fst (FetchLiveStreams categoryId))
  then snd (FetchLiveStreams categoryId) <> []
  else snd (FetchLiveStreams categoryId) = [].
Proof.
  unfold Fetch.FetchLiveStreams.
  destruct (Xtream.is_nil (Net.BuildPlayerApiUrlWithAction _ _)); [done|].
  destruct (negb (Xtream.ok _)); [done|].
  destruct (Xtream.ForEachTopLevelObjectSpan _ _ _) as [found out] eqn:Hscan.
  destruct found; simpl.
  - destruct out; simpl; done.
  - by apply xscan_false_untouched in Hscan.
Qed.

Lemma FetchLiveCategories_out :
  if Xtream.fetch_ok (fst FetchLiveCategories)
  then snd FetchLiveCategories <> []
  else snd FetchLiveCategories = [].
Proof.
  unfold Fetch.FetchLiveCategories, Xtream.FetchLiveCategories.
  destruct (String.eqb _ _); [done|].
  destruct (negb (Xtream.ok _)); [done|].
  destruct (Xtream.ForEachTopLevelObjectSpan _ _ _) as [found out] eqn:Hscan.
  destruct found; simpl.
  - destruct out; simpl; done.
  - by apply xscan_false_untouched in Hscan.
Qed.

Lemma per_category_inl (cats : list Xtream.LiveCategory) all r :
  Fetch.per_category HttpGet blank settings cats all = inl r ->
  Xtream.fetch_ok r = false.
Proof.
  revert all. induction cats as [|c cats IH]; intros all; simpl; [done|].
  destruct (FetchLiveStreams (Xtream.cat_id c)) as [r' s].
  destruct (Xtream.fetch_ok r') eqn:Hok; simpl; [apply IH|]. by intros [= <-].
Qed.

Lemma per_category_inr (cats : list Xtream.LiveCategory) all res :
  Fetch.per_category HttpGet blank settings cats all = inr res ->
  (exists tail, res = all ++ tail) /\ (cats <> [] -> res <> []).
Proof.
  revert all. induction cats as [|c cats IH]; intros all; simpl.
  - intros [= <-]. split; [exists []; by rewrite app_nil_r|done].
  - pose proof (FetchLiveStreams_out (Xtream.cat_id c)) as Hout.
    destruct (FetchLiveStreams (Xtream.cat_id c)) as [r' s]. simpl in Hout.
    destruct (Xtream.fetch_ok r'); simpl; [|done].
    intros H. apply IH in H as [[tail ->] _]. split.
    + exists (s ++ tail). by rewrite app_assoc.
    + intros _. destruct all; destruct s; done.
Qed.

(** The fallback stops at the first category whose fetch fails. *)
Lemma per_category_fails (cats : list Xtream.LiveCategory) all c :
  c ∈ cats ->
  Xtream.fetch_ok (fst (FetchLiveStreams (Xtream.cat_id c))) = false ->
  exists r, Fetch.per_category HttpGet blank settings cats all = inl r.
Proof.
  intros Hin Hc. revert all. induction cats as [|c' cats IH]; intros all.
  - by apply not_elem_of_nil in Hin.
  - simpl. destruct (FetchLiveStreams (Xtream.cat_id c')) as [r' s] eqn:Hr.
    destruct (Xtream.fetch_ok r') eqn:Hok; simpl; [|by eexists].
    apply elem_of_cons in Hin as [->|Hin]; [|by apply IH].
    rewrite Hr in Hc. simpl in Hc. congruence.
Qed.

(** X12.  [FetchAllLiveStreams] is all or nothing: when it fails both
    output vectors are empty, and when it succeeds both hold at least
    one record. *)
Theorem FetchAllLiveStreams_all_or_nothing :
  let '(r, categories, streams) := Fetch.FetchAllLiveStreams HttpGet blank settings in
  if Xtream.fetch_ok r
  then categories <> [] /\ streams <> []
  else categories = [] /\ streams = [].
Proof.
  unfold Fetch.FetchAllLiveStreams.
  pose proof FetchLiveCategories_out as Hcats.
  destruct FetchLiveCategories as [catsRes cats]. simpl in Hcats.
  destruct (Xtream.fetch_ok catsRes) eqn:Hc; simpl; [|by rewrite Hc].
  pose proof (FetchLiveStreams_out 0) as Hall.
  destruct (FetchLiveStreams 0) as [allRes streamsAll]. simpl in Hall.
  destruct (Xtream.fetch_ok allRes) eqn:Ha; [done|].
  destruct (Fetch.per_category HttpGet blank settings cats []) as [r|all] eqn:Hper.
  - apply per_category_inl in Hper. by rewrite Hper.
  - apply per_category_inr in Hper as [_ Hne]. simpl. split; [done|by apply Hne].
Qed.

(** X13.  In the per-category fallback one category whose answer is an
    empty array makes the whole of [FetchAllLiveStreams] fail, with
    nothing returned for the other categories. *)
Theorem FetchAllLiveStreams_empty_category (c : Xtream.LiveCategory) (ws : list ascii) :
  Xtream.fetch_ok (fst FetchLiveCategories) = true ->
  Xtream.fetch_ok (fst (FetchLiveStreams 0)) = false ->
  c ∈ snd FetchLiveCategories ->
  Forall (fun c => isspace c = true) ws ->
  Xtream.body (HttpGet (Fetch.streams_url settings (Xtream.cat_id c))
                       (Net.EffectiveUserAgent settings) (Net.timeoutSeconds settings))
  = ws ++ json "[]" ->
  exists r, Fetch.FetchAllLiveStreams HttpGet blank settings = (r, [], [])
            /\ Xtream.fetch_ok r = false.
Proof.
  intros Hcats Hall Hin Hws Hbody.
  assert (Hc : Xtream.fetch_ok (fst (FetchLiveStreams (Xtream.cat_id c))) = false).
  { unfold Fetch.FetchLiveStreams.
    destruct (Xtream.is_nil (Net.BuildPlayerApiUrlWithAction _ _)); [done|].
    destruct (negb (Xtream.ok _)); [done|].
    rewrite Hbody, xscan_empty_array by done. done. }
  unfold Fetch.FetchAllLiveStreams.
  destruct FetchLiveCategories as [catsRes cats]. simpl in Hcats, Hin.
  rewrite Hcats. simpl negb. cbv iota.
  destruct (FetchLiveStreams 0) as [allRes streamsAll]. simpl in Hall.
  rewrite Hall.
  destruct (per_category_fails cats [] c Hin Hc) as [r Hr]. rewrite Hr.
  exists r. split; [done|]. by apply per_category_inl in Hr.
Qed.
End FetchAll.

Lemma FetchAllLiveStreams_empty_category_witness :
  exists r, Fetch.FetchAllLiveStreams test_transport (stream 0 "") test_settings = (r, [], [])
            /\ Xtream.fetch_ok r = false.
Proof.
  apply (FetchAllLiveStreams_empty_category test_transport (stream 0 "") test_settings
           {| Xtream.cat_id := 1; Xtream.cat_name := Net.chars "A" |} []).
  - vm_compute. reflexivity.
  - vm_compute. reflexivity.
  - apply list_elem_of_In. vm_compute. left. reflexivity.
  - constructor.
  - vm_compute. reflexivity.
Defined.

(** ** The settings file *)

Lemma find_sub_Some (needle cs : list ascii) (i p : nat) :
  find_sub needle cs i = Some p ->
  exists k, p = (i + k)%nat /\ is_prefix needle (drop k cs) = true.
Proof.
  revert i. induction cs as [|a cs IH]; intros i; simpl.
  - destruct (is_prefix needle []) eqn:Hp; [|done].
    intros [= <-]. exists 0%nat. split; [lia|done].
  - destruct (is_prefix needle (a :: cs)) eqn:Hp.
    + intros [= <-]. exists 0%nat. split; [lia|done].
    + intros H. apply IH in H as (k & -> & Hk). exists (S k). split; [lia|done].
Qed.

(** Where [find] answers, the character is. *)
Lemma find_char_at (s : list ascii) (c : ascii) (pos q : nat) :
  find_char s c pos = Some q -> (pos <= q)%nat /\ char_at s q = c.
Proof.
  unfold find_char. intros H. apply find_sub_Some in H as (k & -> & Hk).
  split; [lia|]. rewrite char_at_drop.
  apply is_prefix_true in Hk.
  rewrite <- (Nat.add_0_r k), (char_at_drop (drop pos s) k 0), Hk. reflexivity.
Qed.

(** X14.  [ExtractSettingValue] yields a value only from text that a
    closing tag ends: its test for a self-closing element never holds,
    the character before the position being the ['>'] just found, so
    that such an element is given the text up to the next closing tag,
    or nothing when there is none. *)
Theorem ExtractSettingValue_needs_closing_tag (xml id v : list ascii) :
  Net.ExtractSettingValue xml id = Some v ->
  exists q e,
    find_sub (Net.chars "</setting>") (drop q xml) q = Some e
    /\ char_at xml (q - 1) = ">"%char
    /\ v = Net.Trim (substr xml q (e - q)).
Proof.
  unfold Net.ExtractSettingValue.
  destruct (find xml _) as [p|]; [|done].
  destruct (find_char xml ">" p) as [q|] eqn:Hq; [|done].
  apply find_char_at in Hq as [_ Hch].
  replace (char_at xml (S q - 1)) with ">"%char
    by (replace (S q - 1)%nat with q by lia; done).
  change (Ascii.eqb ">" "/") with false. rewrite andb_false_r. simpl andb. cbv iota.
  destruct (find_sub _ (drop (S q) xml) (S q)) as [e|] eqn:He; [|done].
  intros [= <-]. exists (S q), e. repeat split; [done|].
  by replace (S q - 1)%nat with q by lia.
Qed.

Lemma ExtractSettingValue_needs_closing_tag_witness :
  let xml := json "<setting id='a' default='true' /><setting id='b'>val</setting>" in
  exists q e,
    find_sub (Net.chars "</setting>") (drop q xml) q = Some e
    /\ char_at xml (q - 1) = ">"%char
    /\ json "<setting id='b'>val" = Net.Trim (substr xml q (e - q)).
Proof.
  intros xml.
  apply (ExtractSettingValue_needs_closing_tag xml (json "a") (json "<setting id='b'>val")).
  vm_compute. reflexivity.
Defined.

(** X15.  The value of the first [<setting>] element with the given id
    is its text up to the closing tag, trimmed, whatever attributes
    follow the id and whatever surrounds the element. *)
Theorem ExtractSettingValue_first (xml id attrs value post : list ascii) (p : nat) :
  let needle := Net.chars "<setting id=" ++ [dquote] ++ id ++ [dquote] in
  find xml needle = Some p ->
  drop (p + length needle) xml = attrs ++ ">"%char :: value ++ Net.chars "</setting>" ++ post ->
  ">"%char ∉ id -> ">"%char ∉ attrs -> "<"%char ∉ value ->
  Net.ExtractSettingValue xml id = Some (Net.Trim value).
Proof.
  intros needle Hfind Hdrop Hid Hattrs Hvalue.
  unfold Net.ExtractSettingValue. fold needle. rewrite Hfind.
  pose proof Hfind as Hp. unfold find in Hp.
  apply find_sub_Some in Hp as (k & Hk & Hpre). simpl in Hk. subst k.
  apply is_prefix_true in Hpre. rewrite drop_drop, Hdrop in Hpre.
  assert (Hn : ">"%char ∉ needle ++ attrs).
  { subst needle. rewrite !not_elem_of_app. repeat split; try done;
      intros H; apply list_elem_of_In in H; vm_compute in H; intuition discriminate. }
  set (tail := value ++ Net.chars "</setting>" ++ post) in *.
  assert (Hdp : drop p xml = (needle ++ attrs) ++ ">"%char :: tail)
    by (by rewrite Hpre, <- app_assoc).
  assert (Hq : find_char xml ">" p = Some (p + length (needle ++ attrs))%nat)
    by (unfold find_char; rewrite Hdp; by apply find_sub_char).
  rewrite Hq. set (q := (p + length (needle ++ attrs))%nat).
  assert (Hch : char_at xml q = ">"%char)
    by (unfold q; rewrite char_at_drop, Hdp; apply char_at_middle).
  replace (char_at xml (S q - 1)) with ">"%char
    by (replace (S q - 1)%nat with q by lia; done).
  change (Ascii.eqb ">" "/") with false. rewrite andb_false_r. simpl andb. cbv iota.
  assert (Hdq : drop (S q) xml = tail).
  { unfold q. replace (S (p + length (needle ++ attrs)))
      with (p + S (length (needle ++ attrs)))%nat by lia.
    rewrite <- drop_drop, Hdp.
    replace (S (length (needle ++ attrs)))
      with (length ((needle ++ attrs) ++ [">"%char]))
      by (rewrite (length_app (needle ++ attrs)); simpl; lia).
    replace ((needle ++ attrs) ++ ">"%char :: tail)
      with (((needle ++ attrs) ++ [">"%char]) ++ tail) by (by rewrite <- app_assoc).
    apply drop_app_length. }
  rewrite Hdq. unfold tail at 1.
  change (Net.chars "</setting>") with ("<"%char :: Net.chars "/setting>").
  rewrite find_sub_head by done.
  unfold substr. rewrite Hdq. unfold tail.
  replace (S q + length value - S q)%nat with (length value) by lia.
  by rewrite take_app_length.
Qed.

Lemma ExtractSettingValue_first_witness :
  let xml := json "<settings><setting id='port' default='true'> 8080 </setting></settings>" in
  Net.ExtractSettingValue xml (json "port") = Some (Net.Trim (json " 8080 ")).
Proof.
  intros xml.
  apply (ExtractSettingValue_first xml (json "port") (json " default='true'")
           (json " 8080 ") (json "</settings>") 10).
  - vm_compute. reflexivity.
  - vm_compute. reflexivity.
  - intros H. by apply list_elem_of_In in H; vm_compute in H; intuition discriminate.
  - intros H. by apply list_elem_of_In in H; vm_compute in H; intuition discriminate.
  - intros H. by apply list_elem_of_In in H; vm_compute in H; intuition discriminate.
Defined.

(** ** What [ParseXMLTV] answers *)


Lemma channel_pass_fresh (idToName : gmap Z string) (nameToId : gmap string Z)
      (tv : xml_node) (k : string) (v : Xtream.ChannelEpg.t) :
  Xtream.channel_pass idToName nameToId tv !! k = Some v ->
  Xtream.ChannelEpg.entries v = ∅.
Proof.
  revert k v. unfold Xtream.channel_pass.
  apply (foldl_inv (fun m => forall k v, m !! k = Some v ->
                                         Xtream.ChannelEpg.entries v = ∅)).
  - intros k v. by rewrite lookup_empty.
  - intros a x. apply channel_step_fresh.
Qed.

(** X16.  For a document that parses and has a [tv] element,
    [ParseXMLTV] answers true exactly when some [programme] element is
    accepted against the channels of the first pass.  The channels
    it returns are those with an accepted programme: each returned
    record holds the entry of one, at its start time and under its
    channel id, and the channel of each accepted programme is
    returned with an entry at the start time of the programme.
    Channels without accepted programmes are not returned. *)
Theorem ParseXMLTV_true_iff_accepted
        (load_buffer : string -> option xml_node) (mktime : tm -> Z)
        (xmltvData : string) (streams : list Xtream.LiveStream.t)
        (doc tvNode : xml_node) :
  let channels := Xtream.channel_pass (Xtream.streamIdToName streams)
                                      (Xtream.streamNameToId streams) tvNode in
  let accepted p e := p ∈ children tvNode "programme"
                      /\ Xtream.make_entry mktime channels p = Some e in
  let r := Xtream.ParseXMLTV load_buffer mktime xmltvData streams in
  xmltvData <> EmptyString ->
  load_buffer xmltvData = Some doc ->
  child doc "tv" = Some tvNode ->
  (fst r = true <-> exists p e, accepted p e)
  /\ (forall epg, epg ∈ snd r ->
        exists p e, accepted p e
                    /\ Xtream.EpgEntry.channelId e = Xtream.ChannelEpg.id epg
                    /\ Xtream.ChannelEpg.entries epg !! Xtream.EpgEntry.startTime e = Some e)
  /\ (forall p e, accepted p e ->
        exists epg, epg ∈ snd r
                    /\ Xtream.ChannelEpg.id epg = Xtream.EpgEntry.channelId e
                    /\ is_Some (Xtream.ChannelEpg.entries epg !! Xtream.EpgEntry.startTime e)).
Proof.
  intros channels accepted r Hdata Hload Htv. subst r.
  rewrite (ParseXMLTV_output load_buffer mktime xmltvData streams doc tvNode) by done.
  simpl. fold channels.
  set (final := Xtream.programme_pass mktime tvNode channels).
  assert (Hkeys : same_keys channels channels) by (by intros k).
  assert (Hout : forall epg, epg ∈ Xtream.assemble final ->
            exists p e, accepted p e
                        /\ Xtream.EpgEntry.channelId e = Xtream.ChannelEpg.id epg
                        /\ Xtream.ChannelEpg.entries epg !! Xtream.EpgEntry.startTime e
                           = Some e).
  { intros epg Hin. apply elem_of_assemble in Hin as [Hhas [k Hk]].
    unfold Xtream.has_entries in Hhas. apply negb_true_iff, Nat.eqb_neq in Hhas.
    apply map_size_ne_0_lookup_1 in Hhas as [t [e He]].
    pose proof (final_entries_ok mktime streams tvNode k epg t e Hk He)
      as (Hch & Hst & _).
    pose proof (final_keyed mktime streams tvNode k epg Hk) as Hid.
    destruct (programme_fold_sources mktime channels _ _ _ _ _ _ Hkeys Hk He)
      as [(v' & Hv' & He')|(p & Hp & Hm)].
    - apply channel_pass_fresh in Hv'. by rewrite Hv', lookup_empty in He'.
    - exists p, e. repeat split; [done|done|congruence|by rewrite Hst]. }
  assert (Hin : forall p e, accepted p e ->
            exists epg, epg ∈ Xtream.assemble final
                        /\ Xtream.ChannelEpg.id epg = Xtream.EpgEntry.channelId e
                        /\ is_Some (Xtream.ChannelEpg.entries epg
                                      !! Xtream.EpgEntry.startTime e)).
  { intros p e [Hp He].
    destruct (programme_fold_accepts mktime channels _ channels p e Hkeys Hp He)
      as (v & Hv & Hsome).
    exists v. split; [|split; [|done]].
    - apply elem_of_assemble. split; [by eapply has_entries_lookup|by eauto].
    - by apply (final_keyed mktime streams tvNode _ v). }
  split; [|by split].
  split.
  - intros Hnil. destruct (Xtream.assemble final) as [|epg rest] eqn:Hasm; [done|].
    destruct (Hout epg) as (p & e & Hacc & _); [by left|by eauto].
  - intros (p & e & Hacc). destruct (Hin p e Hacc) as (epg & Hepg & _).
    by destruct (Xtream.assemble final); [inversion Hepg|].
Qed.

Lemma ParseXMLTV_true_iff_accepted_witness :
  let tvNode := Element "tv" [] [xml_channel "10" "BBC One"; xml_channel "11" "BBC Two";
                                 xml_programme "10" noon one_pm "News";
                                 xml_programme "12" noon one_pm "Film"] in
  let channels := Xtream.channel_pass (Xtream.streamIdToName [])
                                      (Xtream.streamNameToId []) tvNode in
  let accepted p e := p ∈ children tvNode "programme"
                      /\ Xtream.make_entry mktime_utc channels p = Some e in
  let r := Xtream.ParseXMLTV (fun _ => Some (Element "" [] [tvNode])) mktime_utc "<tv>" [] in
  (fst r = true <-> exists p e, accepted p e)
  /\ (forall epg, epg ∈ snd r ->
        exists p e, accepted p e
                    /\ Xtream.EpgEntry.channelId e = Xtream.ChannelEpg.id epg
                    /\ Xtream.ChannelEpg.entries epg !! Xtream.EpgEntry.startTime e = Some e)
  /\ (forall p e, accepted p e ->
        exists epg, epg ∈ snd r
                    /\ Xtream.ChannelEpg.id epg = Xtream.EpgEntry.channelId e
                    /\ is_Some (Xtream.ChannelEpg.entries epg !! Xtream.EpgEntry.startTime e)).
Proof.
  intros tvNode channels accepted r.
  apply (ParseXMLTV_true_iff_accepted (fun _ => Some (Element "" [] [tvNode])) mktime_utc
           "<tv>" [] (Element "" [] [tvNode]) tvNode).
  - discriminate.
  - reflexivity.
  - reflexivity.
Defined.

(** The document of the example: of two channels and two programmes,
    one programme names a channel of the document; its channel alone is
    returned. *)
Example ParseXMLTV_accepted_example :
  parse_doc (xml_doc [xml_channel "10" "BBC One"; xml_channel "11" "BBC Two";
                      xml_programme "10" noon one_pm "News";
                      xml_programme "12" noon one_pm "Film"]) []
  = (true, [("10", "BBC One", "",
             [(1768996800, entry "10" 1768996800 1769000400 "News")])]).
Proof. vm_compute. reflexivity. Qed.

(** ** Streams of the same name *)

Lemma streamNameToId_last (pre post : list Xtream.LiveStream.t) (s : Xtream.LiveStream.t) :
  0 < Xtream.LiveStream.id s ->
  (forall s', s' ∈ post -> 0 < Xtream.LiveStream.id s' ->
              Xtream.ToLower (Xtream.LiveStream.name s')
              <> Xtream.ToLower (Xtream.LiveStream.name s)) ->
  Xtream.streamNameToId (pre ++ s :: post) !! Xtream.ToLower (Xtream.LiveStream.name s)
  = Some (Xtream.LiveStream.id s).
Proof.
  intros Hpos Hpost. unfold Xtream.streamNameToId. rewrite foldl_app. simpl.
  apply Z.ltb_lt in Hpos. rewrite Hpos.
  set (m := <[_ := _]> _).
  assert (Hm : m !! Xtream.ToLower (Xtream.LiveStream.name s)
               = Some (Xtream.LiveStream.id s)) by apply lookup_insert_eq.
  clearbody m. revert m Hm. induction post as [|a post IH]; intros m Hm; [done|].
  simpl. apply IH.
  - intros s' Hin. apply Hpost, elem_of_cons. by right.
  - destruct (0 <? Xtream.LiveStream.id a) eqn:Ha; [|done].
    rewrite lookup_insert_ne; [done|].
    apply Hpost; [by apply elem_of_cons; left|by apply Z.ltb_lt].
Qed.

(** X17.  The match by name ignores case, and among the streams of
    the catalog with a positive id that bear the same name up to case
    the last one gives the join key: a channel whose id is not the id
    of a stream and whose display name is, up to case, the name of
    the stream [s] is joined under the id of [s] when no later stream
    of the catalog has that name. *)
Theorem name_match_last_stream (pre post : list Xtream.LiveStream.t)
        (s : Xtream.LiveStream.t) (xmltvId displayName : string) :
  let idToName := Xtream.streamIdToName (pre ++ s :: post) in
  let nameToId := Xtream.streamNameToId (pre ++ s :: post) in
  0 < Xtream.LiveStream.id s ->
  (forall s', s' ∈ post -> 0 < Xtream.LiveStream.id s' ->
              Xtream.ToLower (Xtream.LiveStream.name s')
              <> Xtream.ToLower (Xtream.LiveStream.name s)) ->
  Xtream.exact_id idToName xmltvId = None ->
  displayName <> EmptyString ->
  Xtream.ToLower displayName = Xtream.ToLower (Xtream.LiveStream.name s) ->
  Xtream.resolve idToName nameToId xmltvId displayName
  = Xtream.NameFallback (Xtream.LiveStream.id s)
  /\ Xtream.join_key idToName nameToId xmltvId displayName
     = to_string (Xtream.LiveStream.id s).
Proof.
  intros idToName nameToId Hpos Hpost Hexact Hname Hlower.
  apply join_key_name; [done|done|].
  rewrite Hlower. by apply streamNameToId_last.
Qed.

Lemma name_match_last_stream_witness :
  let streams := [stream 5 "bbc one"; stream 0 "BBC ONE"; stream 7 "BBC One";
                  stream (-3) "Bbc One"; stream 9 "ITV"] in
  Xtream.resolve (Xtream.streamIdToName streams) (Xtream.streamNameToId streams)
                 "bbc1.uk" "BBC ONE" = Xtream.NameFallback 7
  /\ Xtream.join_key (Xtream.streamIdToName streams) (Xtream.streamNameToId streams)
                     "bbc1.uk" "BBC ONE" = to_string 7.
Proof.
  intros streams.
  apply (name_match_last_stream [stream 5 "bbc one"; stream 0 "BBC ONE"]
           [stream (-3) "Bbc One"; stream 9 "ITV"] (stream 7 "BBC One") "bbc1.uk" "BBC ONE").
  - reflexivity.
  - intros s' Hin Hpos. apply list_elem_of_In in Hin.
    destruct Hin as [<-|[<-|[]]]; [discriminate Hpos|vm_compute; discriminate].
  - vm_compute. reflexivity.
  - discriminate.
  - vm_compute. reflexivity.
Defined.

(** ** Credentials in logged URLs *)

Lemma find_sub_hit (needle cs : list ascii) (i : nat) :
  is_prefix needle cs = true -> find_sub needle cs i = Some i.
Proof. intros H. destruct cs; simpl; by rewrite H. Qed.

Lemma find_sub_miss (needle cs : list ascii) (a : ascii) (i : nat) :
  is_prefix needle (a :: cs) = false ->
  find_sub needle (a :: cs) i = find_sub needle cs (S i).
Proof. intros H. simpl find_sub. by rewrite H. Qed.

Lemma is_prefix_elem (p s : list ascii) (x : ascii) :
  is_prefix p s = true -> x ∈ p -> x ∈ s.
Proof.
  intros H Hx. apply is_prefix_true in H. rewrite H. apply elem_of_app. by left.
Qed.

(** A needle matches at a character which the text before it lacks
    only where that text is the part of the needle before the
    character. *)
Lemma is_prefix_last (body tl pre rest : list ascii) (c : ascii) :
  c ∉ pre -> c ∉ body ->
  is_prefix (body ++ c :: tl) (pre ++ c :: rest) = true -> pre = body.
Proof.
  revert pre. induction body as [|b body IH]; intros pre Hpre Hbody H.
  - destruct pre as [|a pre]; [done|]. simpl in H.
    apply andb_true_iff in H as [H _]. apply Ascii.eqb_eq in H. subst a.
    by apply not_elem_of_cons in Hpre as [? _].
  - apply not_elem_of_cons in Hbody as [Hcb Hbody].
    destruct pre as [|a pre]; simpl in H; apply andb_true_iff in H as [Hab H];
      apply Ascii.eqb_eq in Hab.
    + by subst b.
    + apply not_elem_of_cons in Hpre as [_ Hpre]. subst a. f_equal. by apply IH.
Qed.

Lemma find_sub_at (body tl front rest : list ascii) (c : ascii) (i : nat) :
  c ∉ front -> c ∉ body ->
  find_sub (body ++ c :: tl) (front ++ (body ++ c :: tl) ++ rest) i
  = Some (i + length front)%nat.
Proof.
  intros Hfront Hbody. revert i. induction front as [|a front IH]; intros i.
  - simpl. rewrite Nat.add_0_r. apply find_sub_hit, is_prefix_app.
  - change ((a :: front) ++ (body ++ c :: tl) ++ rest)
      with (a :: (front ++ (body ++ c :: tl) ++ rest)).
    rewrite find_sub_miss.
    + apply not_elem_of_cons in Hfront as [_ Hfront].
      rewrite IH by done. f_equal. simpl. lia.
    + destruct (is_prefix (body ++ c :: tl) _) eqn:Hp; [|done].
      change (a :: front ++ (body ++ c :: tl) ++ rest)
        with ((a :: front) ++ (body ++ c :: tl) ++ rest) in Hp.
      rewrite <- (app_assoc body), (app_assoc (a :: front)) in Hp.
      apply is_prefix_last in Hp; [| |done].
      * apply (f_equal length) in Hp. rewrite length_app in Hp. simpl in Hp. lia.
      * apply not_elem_of_app. by split.
Qed.

Lemma find_sub_past (body pre rest : list ascii) (c : ascii) (i : nat) :
  c ∉ pre -> c ∉ body ->
  is_prefix (rev body) (rev pre) = false ->
  find_sub (body ++ [c]) (pre ++ c :: rest) i
  = find_sub (body ++ [c]) rest (i + S (length pre))%nat.
Proof.
  intros Hpre Hbody. revert i. induction pre as [|a pre IH]; intros i Hsuf.
  - simpl app. rewrite find_sub_miss; [f_equal; simpl; lia|].
    destruct (is_prefix (body ++ [c]) _) eqn:Hp; [|done].
    apply (is_prefix_last body [] [] rest c) in Hp; [|done|done]. subst body.
    by simpl in Hsuf.
  - change ((a :: pre) ++ c :: rest) with (a :: (pre ++ c :: rest)).
    rewrite find_sub_miss.
    + apply not_elem_of_cons in Hpre as [_ Hpre]. rewrite IH.
      * f_equal. simpl. lia.
      * done.
      * destruct (is_prefix (rev body) (rev pre)) eqn:Hp; [|done].
        apply (is_prefix_weaken _ _ [a]) in Hp. simpl in Hsuf. congruence.
    + destruct (is_prefix (body ++ [c]) _) eqn:Hp; [|done].
      apply (is_prefix_last body [] (a :: pre) rest c) in Hp; [|done|done]. subst body.
      rewrite <- (app_nil_r (rev (a :: pre))) in Hsuf at 2.
      by rewrite is_prefix_app in Hsuf.
Qed.

Lemma find_sub_absent (body s : list ascii) (c : ascii) (i : nat) :
  c ∉ s -> find_sub (body ++ [c]) s i = None.
Proof.
  revert i. induction s as [|a s IH]; intros i Hc.
  - simpl. by destruct body.
  - rewrite find_sub_miss.
    + apply IH. by apply not_elem_of_cons in Hc as [_ ?].
    + destruct (is_prefix (body ++ [c]) _) eqn:Hp; [|done].
      exfalso. apply Hc, (is_prefix_elem _ _ c Hp), elem_of_app. right. by left.
Qed.

(** The loop of [redactParam] does not depend on the fuel once the
    fuel exceeds what is left of the buffer: [S (length out)] rounds
    are enough. *)
Lemma redactParam_loop_stable (needle : list ascii) (fuel fuel' : nat)
      (out : list ascii) (pos : nat) :
  needle <> [] ->
  (length out - pos < fuel)%nat -> (length out - pos < fuel')%nat ->
  Net.redactParam_loop fuel needle out pos = Net.redactParam_loop fuel' needle out pos.
Proof.
  intros Hne. revert fuel' out pos.
  induction fuel as [|fuel IH]; intros fuel' out pos H1 H2; [lia|].
  destruct fuel' as [|fuel']; [lia|]. simpl.
  destruct (find_sub needle (drop pos out) pos) as [p|] eqn:Hf; [|done].
  apply find_sub_Some in Hf as (k & -> & Hk).
  apply is_prefix_true, (f_equal length) in Hk.
  rewrite length_app, !length_drop in Hk.
  assert (0 < length needle)%nat by (destruct needle; [done|simpl; lia]).
  set (vs := (pos + k + length needle)%nat) in *.
  set (ve := match find_char out "&" vs with Some e => e | None => length out end).
  assert (Hve : (vs <= ve)%nat).
  { unfold ve. destruct (find_char out "&" vs) as [e|] eqn:He.
    - by apply find_char_at in He as [? _].
    - unfold vs. lia. }
  match goal with
  | |- Net.redactParam_loop _ _ ?o _ = _ =>
      assert (Hlen : (length o - (vs + 3) <= length out - ve)%nat)
  end.
  { rewrite length_app, length_take. simpl. rewrite length_drop. lia. }
  apply IH; lia.
Qed.

(** One round on a buffer in which the needle is found before a value
    that ends at a ['&'] or at the end of the buffer. *)
Lemma redactParam_loop_round (fuel : nat) (needle front value tail : list ascii)
      (pos : nat) :
  let out := front ++ needle ++ value ++ tail in
  find_sub needle (drop pos out) pos = Some (length front) ->
  "&"%char ∉ value ->
  tail = [] \/ (exists r, tail = "&"%char :: r) ->
  Net.redactParam_loop (S fuel) needle out pos
  = Net.redactParam_loop fuel needle (front ++ needle ++ Net.chars "***" ++ tail)
                         (length front + length needle + 3).
Proof.
  intros out Hfind Hvalue Htail. simpl. rewrite Hfind.
  set (vs := (length front + length needle)%nat).
  assert (Hvs : vs = length (front ++ needle)) by (by rewrite length_app).
  assert (Hout : out = (front ++ needle) ++ value ++ tail)
    by (unfold out; by rewrite <- app_assoc).
  assert (Hve : match find_char out "&" vs with Some e => e | None => length out end
                = (vs + length value)%nat).
  { unfold find_char. rewrite Hout, Hvs, drop_app_length.
    destruct Htail as [->|[r ->]].
    - rewrite app_nil_r, find_sub_char_none by done.
      rewrite !length_app. lia.
    - by rewrite find_sub_char. }
  rewrite Hve. f_equal.
  rewrite Hout, Hvs, take_app_length.
  replace (length (front ++ needle) + length value)%nat
    with (length ((front ++ needle) ++ value)) by (by rewrite (length_app (front ++ needle))).
  rewrite (app_assoc (front ++ needle)), drop_app_length.
  by rewrite <- app_assoc.
Qed.

(** [redactParam] on a buffer with one occurrence of the parameter. *)
Lemma redactParam_single (key front value tail : list ascii) :
  let needle := key ++ Net.chars "=" in
  find (front ++ needle ++ value ++ tail) needle = Some (length front) ->
  "&"%char ∉ value ->
  tail = [] \/ (exists r, tail = "&"%char :: r) ->
  (forall i, find_sub needle tail i = None) ->
  Net.redactParam key (front ++ needle ++ value ++ tail)
  = front ++ needle ++ Net.chars "***" ++ tail.
Proof.
  intros needle Hfind Hvalue Htail Hnone. unfold Net.redactParam. fold needle.
  set (out := front ++ needle ++ value ++ tail).
  assert (Hlen : exists f, length out = S f).
  { unfold out, needle. rewrite !length_app. simpl. eexists.
    rewrite Nat.add_comm. simpl. rewrite <- plus_n_Sm. reflexivity. }
  destruct Hlen as [f ->].
  unfold out. rewrite redactParam_loop_round; [| |done|done].
  - cbn [Net.redactParam_loop].
    set (out' := front ++ needle ++ Net.chars "***" ++ tail).
    replace (drop (length front + length needle + 3) out') with tail; [by rewrite Hnone|].
    unfold out'. rewrite !app_assoc.
    replace (length front + length needle + 3)%nat
      with (length ((front ++ needle) ++ Net.chars "***"))
      by (rewrite !length_app; reflexivity).
    by rewrite drop_app_length.
  - by rewrite drop_0.
Qed.

Lemma UrlEncode_chars (s : list ascii) (x : ascii) :
  x ∈ Net.UrlEncode s -> Net.IsUnreserved x = true \/ x = "%"%char.
Proof.
  intros Hx. unfold Net.UrlEncode in Hx.
  apply list_elem_of_In, in_concat in Hx as (l & Hl & Hxl).
  apply in_map_iff in Hl as (c & <- & _).
  pose proof (encode_char_safe c) as Hs. rewrite Forall_forall in Hs.
  by apply Hs, list_elem_of_In.
Qed.

Lemma UrlEncode_no_eq (s : list ascii) : "="%char ∉ Net.UrlEncode s.
Proof. intros H. by apply UrlEncode_chars in H as [H|H]. Qed.

Lemma UrlEncode_no_amp (s : list ascii) : "&"%char ∉ Net.UrlEncode s.
Proof. intros H. by apply UrlEncode_chars in H as [H|H]. Qed.

(** X18.  What [HttpGet] logs for a request of the player API shows
    neither the user name nor the password: on the URL that
    [BuildPlayerApiUrlWithAction] builds, [RedactUrlCredentials] puts
    three stars in place of both values and leaves the rest as it is,
    when the base URL has no ['='] in it. *)
Theorem RedactUrlCredentials_api_url (settings : Net.Settings) (action : list ascii) :
  Net.BuildBaseUrl settings <> [] ->
  "="%char ∉ Net.BuildBaseUrl settings ->
  Net.RedactUrlCredentials (Net.BuildPlayerApiUrlWithAction settings action)
  = Net.BuildBaseUrl settings
    ++ Net.chars "/player_api.php?username=***&password=***&action="
    ++ Net.UrlEncode action.
Proof.
  intros Hbase Heq.
  unfold Net.BuildPlayerApiUrlWithAction, Net.BuildPlayerApiUrl.
  set (base := Net.BuildBaseUrl settings) in *.
  set (u := Net.UrlEncode (Net.username settings)).
  set (p := Net.UrlEncode (Net.password settings)).
  set (a := Net.UrlEncode action).
  assert (Hnil : forall t, Xtream.is_nil (base ++ t) = false)
    by (intros t; by destruct base).
  assert (Hnil0 : Xtream.is_nil base = false) by (by destruct base).
  rewrite Hnil0, Hnil.
  pose proof (UrlEncode_no_eq (Net.password settings)) as Hp_eq. fold p in Hp_eq.
  pose proof (UrlEncode_no_eq action) as Ha_eq. fold a in Ha_eq.
  pose proof (UrlEncode_no_amp (Net.username settings)) as Hu_amp. fold u in Hu_amp.
  pose proof (UrlEncode_no_amp (Net.password settings)) as Hp_amp. fold p in Hp_amp.
  unfold Net.RedactUrlCredentials.
  set (key1 := Net.chars "username"). set (key2 := Net.chars "password").
  set (front1 := base ++ Net.chars "/player_api.php?").
  set (tail1 := Net.chars "&password=" ++ p ++ Net.chars "&action=" ++ a).
  set (front2 := front1 ++ Net.chars "username=***&").
  set (tail2 := Net.chars "&action=" ++ a).
  assert (Hfront1 : "="%char ∉ front1).
  { apply not_elem_of_app. split; [done|].
    intros H. apply list_elem_of_In in H. vm_compute in H. intuition discriminate. }
  assert (Hkey1 : "="%char ∉ key1).
  { intros H. apply list_elem_of_In in H. vm_compute in H. intuition discriminate. }
  assert (Hkey2 : "="%char ∉ key2).
  { intros H. apply list_elem_of_In in H. vm_compute in H. intuition discriminate. }
  assert (Htail2 : forall body q i,
            "="%char ∉ body -> "="%char ∉ q ->
            (forall t, is_prefix (rev body) (rev (Net.chars "&action") ++ t) = false) ->
            find_sub (body ++ ["="%char]) (q ++ tail2) i = None).
  { intros body q i Hbody Hq Hsuf.
    replace (q ++ tail2) with ((q ++ Net.chars "&action") ++ "="%char :: a)
      by (unfold tail2; rewrite <- app_assoc; reflexivity).
    rewrite find_sub_past; [by apply find_sub_absent| |done|].
    - apply not_elem_of_app. split; [done|].
      intros H. apply list_elem_of_In in H. vm_compute in H. intuition discriminate.
    - rewrite rev_app_distr. apply Hsuf. }
  match goal with
  | |- Net.redactParam _ (Net.redactParam _ ?url) = _ =>
      replace url with (front1 ++ (key1 ++ Net.chars "=") ++ u ++ tail1)
        by (unfold front1, tail1, tail2; rewrite <- !app_assoc; reflexivity)
  end.
  rewrite redactParam_single.
  - replace (front1 ++ (key1 ++ Net.chars "=") ++ Net.chars "***" ++ tail1)
      with (front2 ++ (key2 ++ Net.chars "=") ++ p ++ tail2)
      by (unfold front2, tail1, tail2; rewrite <- !app_assoc; reflexivity).
    rewrite redactParam_single.
    + unfold front2, front1, tail2. rewrite <- !app_assoc. reflexivity.
    + unfold find.
      replace (front2 ++ (key2 ++ Net.chars "=") ++ p ++ tail2)
        with ((front1 ++ key1) ++ "="%char
                :: (Net.chars "***&" ++ (key2 ++ ["="%char]) ++ p ++ tail2))
        by (unfold front2; rewrite <- !app_assoc; reflexivity).
      change (key2 ++ Net.chars "=") with (key2 ++ ["="%char]).
      rewrite find_sub_past, find_sub_at.
      * f_equal. unfold front2. rewrite !length_app. simpl. lia.
      * intros H. apply list_elem_of_In in H. vm_compute in H. intuition discriminate.
      * done.
      * apply not_elem_of_app. by split.
      * done.
      * by rewrite rev_app_distr.
    + done.
    + right. by eexists.
    + intros i. apply (Htail2 key2 [] i); [done|apply not_elem_of_nil|reflexivity].
  - unfold find.
    change (key1 ++ Net.chars "=") with (key1 ++ ["="%char]).
    by rewrite find_sub_at.
  - done.
  - right. by eexists.
  - intros i.
    change (key1 ++ Net.chars "=") with (key1 ++ ["="%char]).
    change tail1 with (Net.chars "&password" ++ "="%char :: (p ++ tail2)).
    rewrite find_sub_past; [by apply (Htail2 key1)| |done|reflexivity].
    intros H. apply list_elem_of_In in H. vm_compute in H. intuition discriminate.
Qed.

Lemma RedactUrlCredentials_api_url_witness :
  Net.RedactUrlCredentials
    (Net.chars "http://host:80/player_api.php?username=u%40x&password=p%26q&action=get_live_streams")
  = Net.chars "http://host:80/player_api.php?username=***&password=***&action=get_live_streams".
Proof.
  apply (RedactUrlCredentials_api_url
           {| Net.server := Net.chars "host"; Net.port := 80;
              Net.username := Net.chars "u@x"; Net.password := Net.chars "p&q";
              Net.timeoutSeconds := 30; Net.enableUserAgentSpoofing := false;
              Net.customUserAgent := [] |} (Net.chars "get_live_streams")).
  - vm_compute. discriminate.
  - intros H. apply list_elem_of_In in H. vm_compute in H. intuition discriminate.
Defined.

(** ** The connection test *)

Section ConnectionTest.
Variable HttpGet : list ascii -> list ascii -> Z -> Xtream.HttpResult.

Lemma or_default_nonempty (protocol fallback : string) :
  fallback <> EmptyString -> Fetch.or_default protocol fallback <> EmptyString.
Proof.
  intros H. unfold Fetch.or_default, Xtream.is_empty.
  destruct (String.eqb protocol EmptyString) eqn:He; [done|].
  by apply String.eqb_neq in He.
Qed.

Lemma MakeSimpleGetAndSniffJson_details (url userAgent : list ascii) (timeoutSeconds : Z) :
  Fetch.test_details (Fetch.MakeSimpleGetAndSniffJson HttpGet url userAgent timeoutSeconds)
  <> EmptyString.
Proof.
  unfold Fetch.MakeSimpleGetAndSniffJson.
  destruct (negb (Xtream.ok _)); [by apply or_default_nonempty|].
  destruct (_ || _); [by apply or_default_nonempty|]. simpl.
  unfold Xtream.is_empty.
  destruct (String.eqb (Xtream.protocol _) EmptyString) eqn:He; simpl.
  - by destruct (negb (Xtream.is_nil _)).
  - by apply String.eqb_neq in He.
Qed.

(** X19.  [TestConnection] always gives a message, and it reports
    success exactly when the server, user name and password are not
    blank, the port lies in 1..65535, the URL of the player API could
    be built, the request to that URL was answered, and the answer
    looks right: its body mentions [user_info], [server_info] or
    ['auth':1] in any case of letters, or its status line holds
    [ 200 ] or [ 201 ].  The body is not examined further, so that an
    answer with status 200 passes whatever it says. *)
Theorem TestConnection_verdict (settings : Net.Settings) :
  let http := HttpGet (Net.BuildPlayerApiUrl settings) (Net.EffectiveUserAgent settings)
                      (Net.timeoutSeconds settings) in
  let bodyLower := Net.ToLower (Xtream.body http) in
  let protocol := Net.chars (Xtream.protocol http) in
  let r := Fetch.TestConnection HttpGet settings in
  Fetch.test_details r <> EmptyString
  /\ (Fetch.test_ok r = true <->
      Net.Trim (Net.server settings) <> []
      /\ 0 < Net.port settings <= 65535
      /\ Net.Trim (Net.username settings) <> []
      /\ Net.Trim (Net.password settings) <> []
      /\ Net.BuildPlayerApiUrl settings <> []
      /\ Xtream.ok http = true
      /\ (Fetch.contains bodyLower ([dquote] ++ Net.chars "user_info" ++ [dquote]) = true
          \/ Fetch.contains bodyLower ([dquote] ++ Net.chars "server_info" ++ [dquote]) = true
          \/ Fetch.contains bodyLower ([dquote] ++ Net.chars "auth" ++ [dquote] ++ Net.chars ":1")
             = true
          \/ Fetch.contains protocol (Net.chars " 200 ") = true
          \/ Fetch.contains protocol (Net.chars " 201 ") = true)).
Proof.
  intros http bodyLower protocol r. subst r. unfold Fetch.TestConnection.
  destruct (Net.Trim (Net.server settings)) as [|s0 srv] eqn:Hs;
    [split; [done|]; split; [done|tauto]|].
  simpl Xtream.is_nil. cbv iota.
  destruct ((Net.port settings <=? 0) || (65535 <? Net.port settings)) eqn:Hport.
  { split; [done|]. split; [done|]. intros (_ & Hp & _).
    apply orb_true_iff in Hport as [H|H]; [apply Z.leb_le in H|apply Z.ltb_lt in H]; lia. }
  apply orb_false_iff in Hport as [Hp1 Hp2].
  apply Z.leb_gt in Hp1. apply Z.ltb_ge in Hp2.
  destruct (Net.Trim (Net.username settings)) as [|u0 usr] eqn:Hu;
    [split; [done|]; split; [done|tauto]|].
  simpl Xtream.is_nil. cbv iota.
  destruct (Net.Trim (Net.password settings)) as [|p0 pwd] eqn:Hpw;
    [split; [done|]; split; [done|tauto]|].
  simpl Xtream.is_nil. cbv iota.
  destruct (Net.BuildPlayerApiUrl settings) as [|c0 url] eqn:Hurl;
    [split; [done|]; split; [done|tauto]|].
  simpl Xtream.is_nil. cbv iota.
  split; [apply MakeSimpleGetAndSniffJson_details|].
  unfold Fetch.MakeSimpleGetAndSniffJson. fold http. fold bodyLower. fold protocol.
  destruct (Xtream.ok http); simpl negb; cbv iota.
  - set (x1 := Fetch.contains bodyLower _).
    set (x2 := Fetch.contains bodyLower _).
    set (x3 := Fetch.contains bodyLower _).
    set (y1 := Fetch.contains protocol _).
    set (y2 := Fetch.contains protocol _).
    destruct x1, x2, x3, y1, y2; simpl;
      (split;
       [intros H; try discriminate H; repeat split; try done; try lia; tauto
       |intros (_ & _ & _ & _ & _ & _ & H); try reflexivity; intuition discriminate]).
  - simpl. split; [done|]. intros (_ & _ & _ & _ & _ & H & _). discriminate.
Qed.
End ConnectionTest.

(** A server that answers the test request with status 200 and a body
    that reports a failed login passes the test. *)
Example TestConnection_failed_login_passes :
  Fetch.TestConnection
    (fun _ _ _ => {| Xtream.ok := true; Xtream.protocol := "HTTP/1.1 200 OK";
                     Xtream.body := json "{'user_info':{'auth':0}}" |})
    test_settings
  = {| Fetch.test_ok := true; Fetch.test_details := "HTTP/1.1 200 OK" |}.
Proof. vm_compute. reflexivity. Qed.

(** ** The days of a recurring rule *)

Lemma find_sub_le (needle cs : list ascii) (k i : nat) :
  is_prefix needle (drop k cs) = true ->
  exists p, (p <= k)%nat /\ find_sub needle cs i = Some (i + p)%nat.
Proof.
  revert cs i. induction k as [|k IH]; intros cs i H.
  - exists 0%nat. rewrite drop_0 in H. rewrite Nat.add_0_r. by split; [|apply find_sub_hit].
  - destruct cs as [|a cs].
    + exists 0%nat. rewrite Nat.add_0_r. split; [lia|by apply find_sub_hit].
    + destruct (is_prefix needle (a :: cs)) eqn:Hp.
      * exists 0%nat. rewrite Nat.add_0_r. split; [lia|by apply find_sub_hit].
      * destruct (IH cs (S i) H) as (p & Hle & Hf). exists (S p). split; [lia|].
        rewrite find_sub_miss, Hf by done. f_equal. lia.
Qed.

Lemma days_of_week_located (A W post : list ascii) :
  "["%char ∉ A -> "]"%char ∉ W ->
  DispatcharrRules.days_of_week
    (A ++ DispatcharrRules.quoted (Net.chars "days_of_week") ++ Net.chars ":["
       ++ W ++ "]"%char :: post)
  = DispatcharrRules.day_digits W.
Proof.
  intros HA HW. unfold DispatcharrRules.days_of_week, Dispatcharr.FindKeyPos, find.
  set (K := [dquote] ++ Net.chars "days_of_week" ++ [dquote]).
  change (DispatcharrRules.quoted (Net.chars "days_of_week")) with K.
  set (obj := A ++ K ++ Net.chars ":[" ++ W ++ "]"%char :: post).
  destruct (find_sub_le K obj (length A) 0) as (p & Hp & ->).
  { unfold obj. rewrite drop_app_length. apply is_prefix_app. }
  simpl Nat.add.
  assert (Hobj : obj = (A ++ K ++ [":"%char]) ++ "["%char :: W ++ "]"%char :: post)
    by (unfold obj; rewrite <- !app_assoc; reflexivity).
  set (s := length (A ++ K ++ [":"%char])).
  assert (Hstart : find_char obj "[" p = Some s).
  { unfold find_char. rewrite Hobj, <- app_assoc, drop_app_le by done.
    rewrite app_assoc, find_sub_char.
    - f_equal. unfold s. rewrite !length_app, length_drop. lia.
    - apply not_elem_of_app. split.
      + intros H. by apply HA, (subseteq_drop p A).
      + intros H. apply list_elem_of_In in H. vm_compute in H. intuition discriminate. }
  rewrite Hstart.
  assert (Hdrop : drop s obj = ("["%char :: W) ++ "]"%char :: post)
    by (rewrite Hobj; apply drop_app_length).
  assert (Hend : find_char obj "]" s = Some (s + S (length W))%nat).
  { unfold find_char. rewrite Hdrop. apply (find_sub_char _ ("["%char :: W)).
    apply not_elem_of_cons. by split. }
  rewrite Hend. f_equal. unfold substr.
  replace (s + 1)%nat with (s + 1)%nat by done. rewrite <- drop_drop, Hdrop.
  simpl drop. rewrite drop_0.
  replace (s + S (length W) - s - 1)%nat with (length W) by lia.
  apply take_app_length.
Qed.

Lemma to_string_day (d : Z) :
  0 <= d <= 9 -> Net.chars (to_string d) = [digit_char d].
Proof.
  intros H.
  assert (d = 0 \/ d = 1 \/ d = 2 \/ d = 3 \/ d = 4 \/ d = 5 \/ d = 6 \/ d = 7
          \/ d = 8 \/ d = 9) as Hd by lia.
  repeat (destruct Hd as [->|Hd]; [reflexivity|]). by subst d.
Qed.

Lemma write_days_chars (days : list Z) :
  Forall (fun d => 0 <= d <= 9) days ->
  ("]"%char ∉ DispatcharrRules.write_days days)
  /\ DispatcharrRules.day_digits (DispatcharrRules.write_days days) = days.
Proof.
  induction 1 as [|d rest Hd Hrest [IH1 IH2]]; [by split; [apply not_elem_of_nil|]|].
  cbn [DispatcharrRules.write_days]. rewrite to_string_day by done.
  destruct (digit_char_spec d) as [Hdig Hval]; [lia|].
  assert (Hsep : forall sep : list ascii,
            sep = [] \/ sep = Net.chars "," ->
            ("]"%char ∉ sep ++ DispatcharrRules.write_days rest)
            /\ DispatcharrRules.day_digits (sep ++ DispatcharrRules.write_days rest) = rest).
  { intros sep [->| ->]; [done|]. split; [|exact IH2].
    apply not_elem_of_cons. by split. }
  destruct (Hsep (match rest with [] => [] | _ :: _ => Net.chars "," end))
    as [H1 H2]; [by destruct rest; [left|right]|].
  split.
  - apply not_elem_of_cons. split; [|exact H1].
    intros Heq. rewrite <- Heq in Hdig. discriminate Hdig.
  - cbn [app DispatcharrRules.day_digits]. by rewrite Hdig, Hval, H2.
Qed.

Lemma escape_char_no_bracket (c : ascii) :
  forallb (fun x => negb (Ascii.eqb x "[")) (DispatcharrFields.escape_char c)
  || Ascii.eqb c "[" = true.
Proof. destruct c as [[] [] [] [] [] [] [] []]; vm_compute; reflexivity. Qed.

Lemma JsonEscape_no_bracket (s : list ascii) :
  "["%char ∉ s -> "["%char ∉ DispatcharrFields.JsonEscape s.
Proof.
  intros Hs Hin. unfold DispatcharrFields.JsonEscape in Hin.
  apply list_elem_of_In, in_concat in Hin as (l & Hl & Hx).
  apply in_map_iff in Hl as (c & <- & Hc).
  pose proof (escape_char_no_bracket c) as H.
  apply orb_true_iff in H as [H|H].
  - rewrite forallb_forall in H. specialize (H _ Hx). by rewrite Ascii.eqb_refl in H.
  - apply Ascii.eqb_eq in H. subst c. by apply Hs, list_elem_of_In.
Qed.

Lemma to_string_no_bracket (n : Z) :
  Net.INT_MIN <= n <= Net.INT_MAX -> "["%char ∉ Net.chars (to_string n).
Proof.
  intros Hn. unfold to_string.
  assert (Hdec : forall m, 0 <= m < 10 ^ 10 -> "["%char ∉ Net.chars (decimal 10 m)).
  { intros m Hm. destruct (decimal_digits 10 m) as (ds & _ & Hds & -> & _); [lia|done|].
    rewrite chars_string_of. intros Hin. unfold all_digits in Hds.
    rewrite Forall_forall in Hds. by apply Hds in Hin. }
  unfold Net.INT_MIN, Net.INT_MAX in Hn.
  destruct (n <? 0) eqn:Hneg.
  - apply Z.ltb_lt in Hneg. change (Net.chars (String "-" ?s)) with ("-"%char :: Net.chars s).
    apply not_elem_of_cons. split; [done|]. apply Hdec. lia.
  - apply Z.ltb_ge in Hneg. apply Hdec. lia.
Qed.

(** An [id] member at the head of an object, as [ExtractIntField]
    reads it. *)
Lemma id_member_read (i : Z) (rest : list ascii) :
  Net.INT_MIN <= i <= Net.INT_MAX ->
  Xtream.ExtractIntField
    (Net.chars "{" ++ DispatcharrRules.quoted (Net.chars "id") ++ Net.chars ":"
       ++ Net.chars (to_string i) ++ Net.chars "," ++ rest) (Net.chars "id")
  = Some i.
Proof.
  intros Hi. destruct (to_string_head i Hi) as (c & r & Hrepr & Hsp & Hq).
  change (Net.chars "{" ++ DispatcharrRules.quoted (Net.chars "id") ++ Net.chars ":"
            ++ Net.chars (to_string i) ++ Net.chars "," ++ rest)
    with (json "{'" ++ Net.chars "id" ++ json "':"
            ++ (Net.chars (to_string i) ++ ","%char :: rest)).
  rewrite (ParseIntAt_value (Net.chars "id") _ c (r ++ ","%char :: rest)).
  - rewrite Hq. by apply signed_digits_to_string.
  - intros H. apply list_elem_of_In in H. vm_compute in H. intuition discriminate.
  - by rewrite Hrepr.
  - done.
Qed.

(** X20.  An object made of an [id] and the members that
    [AddRecurringRule] posts is taken by the callback of
    [FetchRecurringRules], and the days it reads are the days of the
    rule, when each day is a single digit (the days are meant to be 0
    to 6) and no ['['] occurs in the name, the times and the dates of
    the rule. *)
Theorem days_of_week_round_trip (rule : DispatcharrRules.RecurringRule) (i : Z) :
  Forall (fun d => 0 <= d <= 9) (DispatcharrRules.daysOfWeek rule) ->
  Net.INT_MIN <= i <= Net.INT_MAX ->
  Net.INT_MIN <= DispatcharrRules.channelId rule <= Net.INT_MAX ->
  "["%char ∉ DispatcharrRules.name rule ->
  "["%char ∉ DispatcharrRules.startTime rule ->
  "["%char ∉ DispatcharrRules.endTime rule ->
  "["%char ∉ DispatcharrRules.startDate rule ->
  "["%char ∉ DispatcharrRules.endDate rule ->
  DispatcharrRules.FetchRecurringRules_days
    (Net.chars "{" ++ DispatcharrRules.quoted (Net.chars "id") ++ Net.chars ":"
       ++ Net.chars (to_string i) ++ Net.chars ","
       ++ DispatcharrRules.AddRecurringRule_members rule)
  = Some (DispatcharrRules.daysOfWeek rule).
Proof.
  intros Hdays Hi Hch Hname Hst Het Hsd Hed.
  unfold DispatcharrRules.FetchRecurringRules_days, DispatcharrRules.ExtractIntField.
  rewrite id_member_read by done. f_equal.
  destruct (write_days_chars _ Hdays) as [Hw <-].
  set (W := DispatcharrRules.write_days (DispatcharrRules.daysOfWeek rule)) in *.
  unfold DispatcharrRules.AddRecurringRule_members. fold W.
  pose proof (to_string_no_bracket _ Hch) as Hc.
  pose proof (to_string_no_bracket _ Hi) as Hic.
  apply JsonEscape_no_bracket in Hname.
  set (ch := Net.chars (to_string (DispatcharrRules.channelId rule))) in *.
  set (idc := Net.chars (to_string i)) in *.
  set (nm := DispatcharrFields.JsonEscape (DispatcharrRules.name rule)) in *.
  set (A := Net.chars "{" ++ DispatcharrRules.quoted (Net.chars "id") ++ Net.chars ":"
            ++ idc ++ Net.chars ","
            ++ DispatcharrRules.quoted (Net.chars "channel") ++ Net.chars ":"
            ++ ch
            ++ Net.chars "," ++ DispatcharrRules.quoted (Net.chars "name") ++ Net.chars ":"
            ++ DispatcharrRules.quoted nm
            ++ Net.chars "," ++ DispatcharrRules.quoted (Net.chars "start_time")
            ++ Net.chars ":" ++ DispatcharrRules.quoted (DispatcharrRules.startTime rule)
            ++ Net.chars "," ++ DispatcharrRules.quoted (Net.chars "end_time")
            ++ Net.chars ":" ++ DispatcharrRules.quoted (DispatcharrRules.endTime rule)
            ++ Net.chars "," ++ DispatcharrRules.quoted (Net.chars "start_date")
            ++ Net.chars ":" ++ DispatcharrRules.quoted (DispatcharrRules.startDate rule)
            ++ Net.chars "," ++ DispatcharrRules.quoted (Net.chars "end_date")
            ++ Net.chars ":" ++ DispatcharrRules.quoted (DispatcharrRules.endDate rule)
            ++ Net.chars "," ++ DispatcharrRules.quoted (Net.chars "enabled")
            ++ Net.chars ":true" ++ Net.chars ",").
  match goal with
  | |- DispatcharrRules.days_of_week ?b = _ =>
      replace b with (A ++ DispatcharrRules.quoted (Net.chars "days_of_week")
                        ++ Net.chars ":[" ++ W ++ "]"%char :: Net.chars "}")
        by (unfold A, DispatcharrRules.quoted; rewrite <- !app_assoc; reflexivity)
  end.
  apply days_of_week_located; [|done].
  assert (Hlit : forall l : list ascii,
            forallb (fun x => negb (Ascii.eqb x "[")) l = true -> "["%char ∉ l).
  { intros l Hl Hin. rewrite forallb_forall in Hl.
    apply list_elem_of_In, Hl in Hin. by rewrite Ascii.eqb_refl in Hin. }
  unfold A, DispatcharrRules.quoted.
  rewrite !not_elem_of_app. repeat split; try done; by apply Hlit.
Qed.

Lemma days_of_week_round_trip_witness :
  let rule := {| DispatcharrRules.id := 0; DispatcharrRules.channelId := 12;
                 DispatcharrRules.daysOfWeek := [1; 3; 5];
                 DispatcharrRules.startTime := Net.chars "20:00:00";
                 DispatcharrRules.endTime := Net.chars "21:00:00";
                 DispatcharrRules.startDate := Net.chars "2026-01-01";
                 DispatcharrRules.endDate := Net.chars "2026-12-31";
                 DispatcharrRules.name := Net.chars "Evening news";
                 DispatcharrRules.enabled := true |} in
  DispatcharrRules.FetchRecurringRules_days
    (json "{'id':7," ++ DispatcharrRules.AddRecurringRule_members rule)
  = Some [1; 3; 5].
Proof.
  intros rule. apply (days_of_week_round_trip rule 7).
  - repeat constructor; simpl; lia.
  - vm_compute. split; discriminate.
  - vm_compute. split; discriminate.
  - intros H. apply list_elem_of_In in H. vm_compute in H. intuition discriminate.
  - intros H. apply list_elem_of_In in H. vm_compute in H. intuition discriminate.
  - intros H. apply list_elem_of_In in H. vm_compute in H. intuition discriminate.
  - intros H. apply list_elem_of_In in H. vm_compute in H. intuition discriminate.
  - intros H. apply list_elem_of_In in H. vm_compute in H. intuition discriminate.
Defined.

(** The body that [AddRecurringRule] posts has no [id] and is passed
    over as it is; a day of two digits is read back as two days; and
    the key in a time of the rule, which is written as it is, takes the
    place of the key of the array. *)
Example days_of_week_not_read_back :
  let rule days start :=
    {| DispatcharrRules.id := 0; DispatcharrRules.channelId := 12;
       DispatcharrRules.daysOfWeek := days;
       DispatcharrRules.startTime := start; DispatcharrRules.endTime := [];
       DispatcharrRules.startDate := []; DispatcharrRules.endDate := [];
       DispatcharrRules.name := Net.chars "News"; DispatcharrRules.enabled := true |} in
  let answer r := json "{'id':7," ++ DispatcharrRules.AddRecurringRule_members r in
  DispatcharrRules.FetchRecurringRules_days
    (DispatcharrRules.AddRecurringRule_body (rule [1; 3] [])) = None
  /\ DispatcharrRules.FetchRecurringRules_days (answer (rule [10] [])) = Some [1; 0]
  /\ DispatcharrRules.FetchRecurringRules_days
       (answer (rule [1; 3] (json "'days_of_week':[7]"))) = Some [7].
Proof. repeat split; vm_compute; reflexivity. Qed.

(** ** ISO times *)

Lemma string_length_append (a b : string) :
  String.length (a +:+ b) = (String.length a + String.length b)%nat.
Proof.
  induction a as [|c a IH]; [done|].
  change (S (String.length (a +:+ b)) = S (String.length a + String.length b)).
  by rewrite IH.
Qed.

Lemma string_length_of_list (l : list ascii) :
  String.length (string_of_list_ascii l) = length l.
Proof. induction l as [|c l IH]; [done|]. simpl. by rewrite IH. Qed.

Lemma read_digits_all (w : nat) (ds : list ascii) (rest : string) (acc : Z) (anyd : bool) :
  all_digits ds -> (length ds <= w)%nat -> stops_digits rest ->
  read_digits w (string_of_list_ascii ds +:+ rest) acc anyd
  = (fold_left (fun a c => a * 10 + (code c - 48)) ds acc,
     anyd || negb (Nat.eqb (length ds) 0), rest).
Proof.
  intros Hds. revert w acc anyd.
  induction Hds as [|c ds Hc Hds IH]; intros w acc anyd Hw Hrest.
  - change (string_of_list_ascii [] +:+ rest) with rest. simpl. rewrite orb_false_r.
    destruct w; [done|]. destruct rest as [|c r]; [done|].
    simpl. simpl in Hrest. by rewrite Hrest.
  - destruct w as [|w]; [simpl in Hw; lia|].
    change (string_of_list_ascii (c :: ds) +:+ rest)
      with (String c (string_of_list_ascii ds +:+ rest)).
    simpl. rewrite Hc, IH; [|simpl in Hw; lia|done]. by rewrite orb_true_r.
Qed.

(** A [%d] without a width on a run of digits takes the whole run. *)
Lemma scan_d_field (ds : list ascii) (rest : string) :
  all_digits ds -> ds <> [] -> stops_digits rest ->
  scan_d (String.length (string_of_list_ascii ds +:+ rest))
         (string_of_list_ascii ds +:+ rest)
  = Some (digits_value ds, rest).
Proof.
  intros Hds Hne Hrest. unfold scan_d.
  set (w := String.length _).
  assert (Hw : (length ds <= w)%nat)
    by (unfold w; rewrite string_length_append, string_length_of_list; lia).
  clearbody w.
  destruct ds as [|c ds]; [done|].
  pose proof (Forall_inv Hds) as Hc. apply isdigit_plain in Hc as (Hsp & Hm & Hp).
  assert (Hcons : string_of_list_ascii (c :: ds) +:+ rest
                  = String c (string_of_list_ascii ds +:+ rest)) by done.
  assert (Hskip : skip_space_str (string_of_list_ascii (c :: ds) +:+ rest)
                  = string_of_list_ascii (c :: ds) +:+ rest)
    by (rewrite Hcons; simpl; by rewrite Hsp).
  rewrite Hskip.
  assert (Hsign : read_sign (string_of_list_ascii (c :: ds) +:+ rest)
                  = (false, false, string_of_list_ascii (c :: ds) +:+ rest))
    by (rewrite Hcons; unfold read_sign; cbv beta iota; by rewrite Hm, Hp).
  rewrite Hsign. by rewrite read_digits_all.
Qed.

Section IsoTime.
Variable mktime : tm -> Z.

(** X21.  [ParseIsoTime] reads the six numbers of a time stamp
    [Y-M-DTh:m:s] and hands them to [mktime] as a local time, with the
    daylight saving flag at 0; what follows the seconds, the zone
    designator [Z] that [TimeToIso] writes included, has no part in the
    result. *)
Theorem ParseIsoTime_fields (Y M D h m s : list ascii) (zone : string) :
  let iso := string_of_list_ascii Y
             +:+ String "-" (string_of_list_ascii M
             +:+ String "-" (string_of_list_ascii D
             +:+ String "T" (string_of_list_ascii h
             +:+ String ":" (string_of_list_ascii m
             +:+ String ":" (string_of_list_ascii s +:+ zone))))) in
  Forall time_field [Y; M; D; h; m; s] ->
  stops_digits zone ->
  (19 <= String.length iso)%nat ->
  DispatcharrTime.ParseIsoTime mktime iso
  = mktime {| tm_sec := digits_value s; tm_min := digits_value m;
              tm_hour := digits_value h; tm_mday := digits_value D;
              tm_mon := digits_value M - 1; tm_year := digits_value Y - 1900;
              tm_isdst := 0 |}.
Proof.
  intros iso Hf Hzone Hlen.
  apply Forall_cons in Hf as [(HY & HYn & _) Hf].
  apply Forall_cons in Hf as [(HM & HMn & _) Hf].
  apply Forall_cons in Hf as [(HD & HDn & _) Hf].
  apply Forall_cons in Hf as [(Hh & Hhn & _) Hf].
  apply Forall_cons in Hf as [(Hm & Hmn & _) Hf].
  apply Forall_cons in Hf as [(Hs & Hsn & _) _].
  unfold DispatcharrTime.ParseIsoTime.
  assert (Hne : Xtream.is_empty iso = false).
  { unfold Xtream.is_empty. apply String.eqb_neq. intros He. rewrite He in Hlen.
    simpl in Hlen. lia. }
  rewrite Hne. apply Nat.leb_le in Hlen. rewrite Hlen.
  assert (Hvals : DispatcharrTime.sscanf_fmt DispatcharrTime.iso_format iso
                  = [digits_value Y; digits_value M; digits_value D;
                     digits_value h; digits_value m; digits_value s]).
  { unfold iso, DispatcharrTime.iso_format.
    cbn [DispatcharrTime.sscanf_fmt]. rewrite scan_d_field by done.
    cbn [DispatcharrTime.sscanf_fmt]. rewrite Ascii.eqb_refl, scan_d_field by done.
    cbn [DispatcharrTime.sscanf_fmt]. rewrite Ascii.eqb_refl, scan_d_field by done.
    cbn [DispatcharrTime.sscanf_fmt]. rewrite Ascii.eqb_refl, scan_d_field by done.
    cbn [DispatcharrTime.sscanf_fmt]. rewrite Ascii.eqb_refl, scan_d_field by done.
    cbn [DispatcharrTime.sscanf_fmt]. rewrite Ascii.eqb_refl, scan_d_field by done.
    reflexivity. }
  rewrite Hvals. reflexivity.
Qed.
End IsoTime.

Lemma ParseIsoTime_fields_witness :
  DispatcharrTime.ParseIsoTime mktime_utc "2026-01-23T10:00:00+02:00"
  = mktime_utc {| tm_sec := 0; tm_min := 0; tm_hour := 10; tm_mday := 23;
                  tm_mon := 0; tm_year := 126; tm_isdst := 0 |}.
Proof.
  apply (ParseIsoTime_fields mktime_utc (Net.chars "2026") (Net.chars "01") (Net.chars "23")
           (Net.chars "10") (Net.chars "00") (Net.chars "00") "+02:00").
  - repeat (apply List.Forall_cons; [repeat split; [| discriminate | simpl; lia]|]);
      [..|apply List.Forall_nil]; repeat constructor.
  - reflexivity.
  - vm_compute. lia.
Defined.

(** The number of conversions is not looked at: a text of 19
    characters or more that is no time stamp goes to [mktime] as month -1 of
    the year -1900, where [parse_time] of [xtream_client.cpp] leaves the
    time unset; a shorter text, well formed or not, gives 0. *)
Example ParseIsoTime_unchecked (mktime : tm -> Z) :
  DispatcharrTime.ParseIsoTime mktime "not a time stamp at all"
  = mktime {| tm_sec := 0; tm_min := 0; tm_hour := 0; tm_mday := 0;
              tm_mon := -1; tm_year := -1900; tm_isdst := 0 |}
  /\ DispatcharrTime.ParseIsoTime mktime "2026-01-23T10:00" = 0.
Proof. split; reflexivity. Qed.

(** ** The title of a recording *)

(** The loop of [ExtractRawJsonField] passes text without the two
    characters with its depth unchanged. *)
Lemma raw_loop_skip (o c : ascii) (t rest : list ascii) (pos : nat) (d : Z) :
  o ∉ t -> c ∉ t ->
  Dispatcharr.raw_loop o c (t ++ rest) pos d
  = Dispatcharr.raw_loop o c rest (pos + length t) d.
Proof.
  revert pos. induction t as [|a t IH]; intros pos Ho Hc.
  - simpl. by rewrite Nat.add_0_r.
  - apply not_elem_of_cons in Ho as [Hao Ho]. apply not_elem_of_cons in Hc as [Hac Hc].
    simpl.
    assert (Ascii.eqb a o = false) as -> by (apply Ascii.eqb_neq; congruence).
    assert (Ascii.eqb a c = false) as -> by (apply Ascii.eqb_neq; congruence).
    rewrite IH by done. f_equal. lia.
Qed.

Lemma raw_loop_flat (t post : list ascii) (q : nat) :
  "{"%char ∉ t -> "}"%char ∉ t ->
  Dispatcharr.raw_loop "{" "}" (("{"%char :: t ++ ["}"%char]) ++ post) q 0
  = Some (q + length ("{"%char :: t ++ ["}"%char]) - 1)%nat.
Proof.
  intros Ho Hc. cbn [app Dispatcharr.raw_loop]. rewrite Ascii.eqb_refl.
  rewrite <- app_assoc, raw_loop_skip by done.
  cbn [app Dispatcharr.raw_loop].
  change (Ascii.eqb "}" "{") with false. cbv iota. rewrite Ascii.eqb_refl.
  change (0 + 1 - 1 =? 0) with true. cbv iota.
  f_equal. simpl. rewrite length_app. simpl. lia.
Qed.

Lemma raw_loop_nested (t1 t2 post : list ascii) (q : nat) :
  "{"%char ∉ t1 -> "}"%char ∉ t1 -> "{"%char ∉ t2 -> "}"%char ∉ t2 ->
  Dispatcharr.raw_loop "{" "}"
    (("{"%char :: t1 ++ ("{"%char :: t2 ++ ["}"%char]) ++ ["}"%char]) ++ post) q 0
  = Some (q + length ("{"%char :: t1 ++ ("{"%char :: t2 ++ ["}"%char]) ++ ["}"%char]) - 1)%nat.
Proof.
  intros Ho1 Hc1 Ho2 Hc2. cbn [app Dispatcharr.raw_loop]. rewrite Ascii.eqb_refl.
  rewrite <- !app_assoc, raw_loop_skip by done.
  cbn [app Dispatcharr.raw_loop]. rewrite Ascii.eqb_refl.
  rewrite <- !app_assoc, raw_loop_skip by done.
  cbn [app Dispatcharr.raw_loop].
  change (Ascii.eqb "}" "{") with false. cbv iota. rewrite Ascii.eqb_refl.
  change (0 + 1 + 1 - 1 =? 0) with false. cbv iota.
  change (0 + 1 + 1 - 1 - 1 =? 0) with true. cbv iota.
  f_equal. simpl. rewrite !length_app. simpl. rewrite !length_app. simpl. lia.
Qed.

(** [ExtractRawJsonField] on an object value that follows the first
    occurrence of the key, once the loop is known to end at the last
    character of the value. *)
Lemma ExtractRawJsonField_at (obj key val post : list ascii) (p : nat) (v' : list ascii) :
  Dispatcharr.FindKeyPos obj key = Some p ->
  ":"%char ∉ key ->
  drop p obj = (dquote :: key ++ [dquote]) ++ ":"%char :: val ++ post ->
  val = "{"%char :: v' ->
  (forall q, Dispatcharr.raw_loop "{" "}" (val ++ post) q 0 = Some (q + length val - 1)%nat) ->
  Dispatcharr.ExtractRawJsonField obj key = Some val.
Proof.
  intros Hfind Hkey Hdrop Hval Hloop. unfold Dispatcharr.ExtractRawJsonField.
  rewrite Hfind.
  set (K := dquote :: key ++ [dquote]) in *.
  assert (Hcolon : find_char obj ":" p = Some (p + length K)%nat).
  { unfold find_char. rewrite Hdrop. apply find_sub_char.
    unfold K. apply not_elem_of_cons. split; [done|]. apply not_elem_of_app.
    split; [done|]. apply not_elem_of_cons. split; [done|apply not_elem_of_nil]. }
  rewrite Hcolon.
  set (q := S (p + length K)).
  assert (Hq : drop q obj = val ++ post).
  { unfold q. replace (S (p + length K)) with (p + length (K ++ [":"%char]))%nat
      by (rewrite length_app; simpl; lia).
    rewrite <- drop_drop, Hdrop.
    replace (K ++ ":"%char :: val ++ post) with ((K ++ [":"%char]) ++ val ++ post)
      by (by rewrite <- app_assoc).
    apply drop_app_length. }
  rewrite Hq.
  assert (Hskip : skip_space (val ++ post) q = q) by (by rewrite Hval).
  rewrite Hskip.
  assert (Hlt : (q <? length obj)%nat = true).
  { apply Nat.ltb_lt. apply (f_equal length) in Hq.
    rewrite length_drop, Hval in Hq. simpl in Hq. lia. }
  rewrite Hlt. simpl negb. cbv iota.
  assert (Hch : char_at obj q = "{"%char).
  { generalize (char_at_drop obj q 0). rewrite Nat.add_0_r, Hq, Hval. by intros ->. }
  rewrite Hch.
  change (Ascii.eqb "{" "[") with false. change (Ascii.eqb "{" "{") with true.
  simpl negb. simpl andb. cbv iota.
  rewrite Hq, Hloop. f_equal. unfold substr. rewrite Hq.
  assert (Hpos : (0 < length val)%nat) by (rewrite Hval; simpl; lia).
  clearbody q.
  replace (q + length val - 1 - q + 1)%nat with (length val) by lia.
  apply take_app_length.
Qed.

Lemma escape_char_no_brace (c : ascii) :
  forallb (fun x => negb (Ascii.eqb x "{") && negb (Ascii.eqb x "}"))
          (DispatcharrFields.escape_char c)
  || Ascii.eqb c "{" || Ascii.eqb c "}" = true.
Proof. destruct c as [[] [] [] [] [] [] [] []]; vm_compute; reflexivity. Qed.

Lemma JsonEscape_no_brace (s : list ascii) :
  "{"%char ∉ s -> "}"%char ∉ s ->
  ("{"%char ∉ DispatcharrFields.JsonEscape s) /\ ("}"%char ∉ DispatcharrFields.JsonEscape s).
Proof.
  intros Ho Hc.
  assert (H : forall x, x ∈ DispatcharrFields.JsonEscape s ->
                        Ascii.eqb x "{" = false /\ Ascii.eqb x "}" = false).
  { intros x Hin. unfold DispatcharrFields.JsonEscape in Hin.
    apply list_elem_of_In, in_concat in Hin as (l & Hl & Hx).
    apply in_map_iff in Hl as (c & <- & Hc').
    pose proof (escape_char_no_brace c) as H.
    apply orb_true_iff in H as [H|H]; [apply orb_true_iff in H as [H|H]|].
    - rewrite forallb_forall in H. specialize (H _ Hx).
      apply andb_true_iff in H as [H1 H2].
      by split; apply negb_true_iff.
    - apply Ascii.eqb_eq in H. subst c. by apply list_elem_of_In in Hc'.
    - apply Ascii.eqb_eq in H. subst c. by apply list_elem_of_In in Hc'. }
  split; intros Hin; apply H in Hin as [H1 H2]; by rewrite Ascii.eqb_refl in *.
Qed.

Lemma chars_append (a b : string) : Net.chars (a +:+ b) = Net.chars a ++ Net.chars b.
Proof.
  induction a as [|c a IH]; [done|].
  change (c :: Net.chars (a +:+ b) = c :: Net.chars a ++ Net.chars b). by rewrite IH.
Qed.

Lemma decimal_chars (fuel : nat) (n : Z) :
  0 <= n -> Forall (fun c => isdigit c = true) (Net.chars (decimal fuel n)).
Proof.
  revert n. induction fuel as [|fuel IH]; intros n Hn; [constructor|].
  cbn [decimal]. destruct (n <? 10) eqn:Hlt.
  - apply Z.ltb_lt in Hlt. apply List.Forall_cons; [|constructor].
    by apply digit_char_spec.
  - rewrite chars_append. apply Forall_app. split.
    + apply IH. apply Z.div_pos; lia.
    + apply List.Forall_cons; [|constructor].
      apply digit_char_spec. apply Z.mod_pos_bound. lia.
Qed.

(** The characters of a number and of a time stamp. *)
Lemma to_string_chars (n : Z) :
  Forall (fun c => isdigit c || Ascii.eqb c "-" = true) (Net.chars (to_string n)).
Proof.
  unfold to_string. destruct (n <? 0) eqn:Hneg.
  - apply Z.ltb_lt in Hneg.
    change (Net.chars (String "-" ?s)) with ("-"%char :: Net.chars s).
    apply List.Forall_cons; [done|].
    eapply Forall_impl; [apply decimal_chars; lia|]. intros c Hc. simpl. by rewrite Hc.
  - apply Z.ltb_ge in Hneg.
    eapply Forall_impl; [by apply decimal_chars|]. intros c Hc. simpl. by rewrite Hc.
Qed.

Lemma pad2_chars (v : Z) :
  Forall (fun c => isdigit c || Ascii.eqb c "-" = true) (DispatcharrRecordings.pad2 v).
Proof.
  unfold DispatcharrRecordings.pad2. destruct (v <? 10); [|apply to_string_chars].
  apply List.Forall_cons; [done|apply to_string_chars].
Qed.

Lemma no_letter_u (l : list ascii) :
  Forall (fun c => isdigit c || Ascii.eqb c "-" = true) l -> "u"%char ∉ l.
Proof.
  intros H Hin. rewrite Forall_forall in H. by apply H in Hin.
Qed.

Lemma TimeToIso_no_u (gmtime : Z -> tm) (t : Z) :
  "u"%char ∉ DispatcharrRecordings.TimeToIso gmtime t.
Proof.
  unfold DispatcharrRecordings.TimeToIso.
  pose proof (no_letter_u _ (to_string_chars (tm_year (gmtime t) + 1900))).
  pose proof (no_letter_u _ (pad2_chars (tm_mon (gmtime t) + 1))).
  pose proof (no_letter_u _ (pad2_chars (tm_mday (gmtime t)))).
  pose proof (no_letter_u _ (pad2_chars (tm_hour (gmtime t)))).
  pose proof (no_letter_u _ (pad2_chars (tm_min (gmtime t)))).
  pose proof (no_letter_u _ (pad2_chars (tm_sec (gmtime t)))).
  assert (Hlit : forall s : string,
            forallb (fun x => negb (Ascii.eqb x "u")) (Net.chars s) = true ->
            "u"%char ∉ Net.chars s).
  { intros s Hs Hin. rewrite forallb_forall in Hs.
    apply list_elem_of_In, Hs in Hin. by rewrite Ascii.eqb_refl in Hin. }
  rewrite !not_elem_of_app. repeat split; try done; by apply Hlit.
Qed.

(** X22.  An object made of an [id] and the members that
    [ScheduleRecording] posts is taken by the callback of
    [FetchRecordings], and the title it reads, through
    [custom_properties] and [program], is the title that was written,
    when the title has no brace, backspace or form feed in it. *)
Theorem recording_title_round_trip (gmtime : Z -> tm) (i channelId startTime endTime : Z)
        (title : list ascii) :
  Net.INT_MIN <= i <= Net.INT_MAX ->
  "{"%char ∉ title -> "}"%char ∉ title -> chr 8 ∉ title -> chr 12 ∉ title ->
  DispatcharrRecordings.FetchRecordings_title
    (Net.chars "{" ++ DispatcharrRules.quoted (Net.chars "id") ++ Net.chars ":"
       ++ Net.chars (to_string i) ++ Net.chars ","
       ++ DispatcharrRecordings.ScheduleRecording_members gmtime channelId startTime endTime
            title)
  = Some title.
Proof.
  intros Hi Ho Hc H8 H12.
  unfold DispatcharrRecordings.FetchRecordings_title, DispatcharrRules.ExtractIntField.
  rewrite id_member_read by done. f_equal.
  destruct (JsonEscape_no_brace title Ho Hc) as [Heo Hec].
  set (esc := DispatcharrFields.JsonEscape title) in *.
  set (t2 := (dquote :: Net.chars "title" ++ [dquote]) ++ ":"%char :: dquote :: esc ++ [dquote]).
  set (po := "{"%char :: t2 ++ ["}"%char]).
  set (t1 := (dquote :: Net.chars "program" ++ [dquote]) ++ [":"%char]).
  set (cp := "{"%char :: t1 ++ po ++ ["}"%char]).
  assert (Hlit : forall (c : ascii) (l : list ascii),
            forallb (fun x => negb (Ascii.eqb x c)) l = true -> c ∉ l).
  { intros c l Hl Hin. rewrite forallb_forall in Hl.
    apply list_elem_of_In, Hl in Hin. by rewrite Ascii.eqb_refl in Hin. }
  assert (Ht2 : ("{"%char ∉ t2) /\ ("}"%char ∉ t2)).
  { unfold t2. rewrite !not_elem_of_app, !not_elem_of_cons, !not_elem_of_app.
    repeat split; try done; by apply Hlit. }
  destruct Ht2 as [Ht2o Ht2c].
  assert (Ht1 : ("{"%char ∉ t1) /\ ("}"%char ∉ t1)) by (split; by apply Hlit).
  destruct Ht1 as [Ht1o Ht1c].
  set (pre := Net.chars "{" ++ DispatcharrRules.quoted (Net.chars "id") ++ Net.chars ":"
              ++ Net.chars (to_string i) ++ Net.chars ","
              ++ DispatcharrRules.quoted (Net.chars "channel") ++ Net.chars ":"
              ++ Net.chars (to_string channelId)
              ++ Net.chars "," ++ DispatcharrRules.quoted (Net.chars "start_time")
              ++ Net.chars ":"
              ++ DispatcharrRules.quoted (DispatcharrRecordings.TimeToIso gmtime startTime)
              ++ Net.chars "," ++ DispatcharrRules.quoted (Net.chars "end_time")
              ++ Net.chars ":"
              ++ DispatcharrRules.quoted (DispatcharrRecordings.TimeToIso gmtime endTime)
              ++ Net.chars ",").
  set (key := Net.chars "custom_properties").
  assert (Hbody : Net.chars "{" ++ DispatcharrRules.quoted (Net.chars "id") ++ Net.chars ":"
                    ++ Net.chars (to_string i) ++ Net.chars ","
                    ++ DispatcharrRecordings.ScheduleRecording_members gmtime channelId
                         startTime endTime title
                  = pre ++ ((dquote :: key ++ [dquote]) ++ ":"%char :: cp ++ Net.chars " }")).
  { unfold DispatcharrRecordings.ScheduleRecording_members, pre, cp, po, t1, t2, key,
      DispatcharrRules.quoted. fold esc.
    generalize (Net.chars (to_string channelId)), (Net.chars (to_string i)),
      (DispatcharrRecordings.TimeToIso gmtime startTime),
      (DispatcharrRecordings.TimeToIso gmtime endTime), esc.
    intros n n' i1 i2 e. repeat (simpl; rewrite <- ?app_assoc). reflexivity. }
  assert (Hpre : "u"%char ∉ pre).
  { unfold pre, DispatcharrRules.quoted.
    pose proof (no_letter_u _ (to_string_chars channelId)).
    pose proof (no_letter_u _ (to_string_chars i)).
    pose proof (TimeToIso_no_u gmtime startTime).
    pose proof (TimeToIso_no_u gmtime endTime).
    rewrite !not_elem_of_app. repeat split; try done; by apply Hlit. }
  unfold DispatcharrRecordings.recording_title. rewrite Hbody.
  rewrite (ExtractRawJsonField_at _ key cp (Net.chars " }") (length pre) (t1 ++ po ++ ["}"%char])).
  - rewrite (ExtractRawJsonField_at cp (Net.chars "program") po ["}"%char] 1 (t2 ++ ["}"%char])).
    + replace po
        with (json "{'" ++ Net.chars "title" ++ json "':'" ++ esc ++ dquote :: Net.chars "}")
        by (unfold po, t2; generalize esc; intros e;
            repeat (simpl; rewrite <- ?app_assoc); reflexivity).
      change (json "':'" ++ esc ++ dquote :: Net.chars "}")
        with (json "':" ++ dquote :: esc ++ dquote :: Net.chars "}").
      destruct (locate_value (Net.chars "title") (dquote :: esc ++ dquote :: Net.chars "}"))
        as (Hfind & Hcolon & Hdrop & _); [by apply Hlit|].
      unfold esc in *.
      by rewrite (dExtractStringField_at _ (Net.chars "title") title (Net.chars "}") 1
                    (length (Net.chars "title") + 3)).
    + unfold Dispatcharr.FindKeyPos, find.
      change cp with (["{"%char] ++ (dquote :: Net.chars "program" ++ [dquote])
                        ++ ":"%char :: po ++ ["}"%char]).
      change ([dquote] ++ Net.chars "program" ++ [dquote])
        with (dquote :: Net.chars "program" ++ [dquote]).
      rewrite find_sub_head; [done|]. by apply Hlit.
    + by apply Hlit.
    + unfold cp, t1. generalize po. intros o.
      repeat (simpl; rewrite <- ?app_assoc). reflexivity.
    + reflexivity.
    + intros q. apply raw_loop_flat; done.
  - unfold Dispatcharr.FindKeyPos, find.
    change ([dquote] ++ key ++ [dquote])
      with ([dquote; "c"%char] ++ "u"%char :: Net.chars "stom_properties" ++ [dquote]).
    change (dquote :: key ++ [dquote])
      with ([dquote; "c"%char] ++ "u"%char :: Net.chars "stom_properties" ++ [dquote]).
    rewrite find_sub_at; [done|done|]. by apply Hlit.
  - by apply Hlit.
  - by rewrite drop_app_length.
  - reflexivity.
  - intros q. unfold cp, po. apply raw_loop_nested; done.
Qed.

Lemma recording_title_round_trip_witness :
  let title := json "He said 'Hi': [part 1]" in
  DispatcharrRecordings.FetchRecordings_title
    (json "{'id':7,"
       ++ DispatcharrRecordings.ScheduleRecording_members
            (fun _ => {| tm_sec := 0; tm_min := 30; tm_hour := 20; tm_mday := 23; tm_mon := 0;
                         tm_year := 126; tm_isdst := 0 |})
            12 1769200200 1769203800 title)
  = Some title.
Proof.
  intros title.
  apply (recording_title_round_trip _ 7 12 1769200200 1769203800 title).
  - vm_compute. split; discriminate.
  - intros H. apply list_elem_of_In in H. vm_compute in H. intuition discriminate.
  - intros H. apply list_elem_of_In in H. vm_compute in H. intuition discriminate.
  - intros H. apply list_elem_of_In in H. vm_compute in H. intuition discriminate.
  - intros H. apply list_elem_of_In in H. vm_compute in H. intuition discriminate.
Defined.
